(** * OpenRecall memory engine: a shallow embedding of [memory.ts],
      [maintenance.ts], the file freshness check of [agent.ts] and the
      export and import tool handlers.

    Strings are [String.string]: a character is one code unit below 256,
    that is, the texts are the JavaScript strings of the Latin-1 range, and
    the character classes and the case mapping are the JavaScript ones on
    that range.
    Integers are [Z]; BM25 ranks are rationals ([Q], every finite double is
    one) and the re-scored rank, which goes through [Math.log2], is a real
    number: the rounding of the ranking arithmetic is not modelled.  The
    modification times of the file cache and the time stamp of the
    maintenance schedule are doubles: [parseFloat], [parseInt], the
    subtraction and the division round to the nearest double, ties to even
    ([round_double]).  The SQLite tables are lists in rowid order;
    [ORDER BY] and [Array.prototype.sort] are a stable sort; the
    constraints, cascades and triggers are those of migrations 1 to 5 with
    [PRAGMA foreign_keys = ON].  What the code draws from outside
    (the clock, [crypto.randomUUID], the FTS5 engine, git and the file
    system) is a parameter of the function that uses it. *)

From Stdlib Require Import List String Ascii Bool Arith ZArith Lia.
From Stdlib Require Import QArith Qabs Qround Qpower Lqa Reals Qreals Lra.
From Stdlib Require Import Permutation Sorted DecimalString DecimalPos DecimalZ.
Import ListNotations.

Set Implicit Arguments.

Local Close Scope Q_scope.
Local Close Scope R_scope.
Local Close Scope Z_scope.
Local Open Scope nat_scope.
Local Open Scope string_scope.
Local Open Scope list_scope.

(* ================================================================== *)
(** ** JavaScript string helpers                                       *)
(* ================================================================== *)

(** [\s], and the white space of [trim], among the code units below 256:
    TAB, LF, VT, FF, CR, space and the no-break space U+00A0. *)
Definition is_ws (c : ascii) : bool :=
  let n := nat_of_ascii c in
  (Nat.leb 9 n && Nat.leb n 13) || Nat.eqb n 32 || Nat.eqb n 160.

(** [\w] is [[A-Za-z0-9_]]. *)
Definition is_word (c : ascii) : bool :=
  let n := nat_of_ascii c in
  (Nat.leb 65 n && Nat.leb n 90) || (Nat.leb 97 n && Nat.leb n 122)
  || (Nat.leb 48 n && Nat.leb n 57) || Nat.eqb n 95.

(** The character class of [FTS5_SPECIAL], by character code: the double
    quote (34), then the characters of [*(){}[]:^~!&|@#$%+=], the backslash,
    [<>,;?/-], the backtick, the period and the apostrophe (twice). *)
Definition FTS5_SPECIAL_codes : list nat :=
  [34; 42; 40; 41; 123; 125; 91; 93; 58; 94; 126; 33; 38; 124; 64; 35; 36;
   37; 43; 61; 92; 60; 62; 44; 59; 63; 47; 45; 96; 46; 39; 39].

Definition FTS5_SPECIAL (c : ascii) : bool :=
  existsb (Nat.eqb (nat_of_ascii c)) FTS5_SPECIAL_codes.

(** [toLowerCase] on one code unit below 256: the letters [A-Z] and the
    capitals U+00C0 to U+00DE of Latin-1, the multiplication sign U+00D7
    apart, move up by 32; every other code unit is its own lower case. *)
Definition lower_char (c : ascii) : ascii :=
  let n := nat_of_ascii c in
  if (Nat.leb 65 n && Nat.leb n 90)
     || (Nat.leb 192 n && Nat.leb n 222 && negb (Nat.eqb n 215))
  then ascii_of_nat (n + 32) else c.

Fixpoint map_string (f : ascii -> ascii) (s : string) : string :=
  match s with
  | EmptyString => EmptyString
  | String c s' => String (f c) (map_string f s')
  end.

Fixpoint forall_string (p : ascii -> bool) (s : string) : bool :=
  match s with
  | EmptyString => true
  | String c s' => p c && forall_string p s'
  end.

Definition toLowerCase (s : string) : string := map_string lower_char s.

Definition space : ascii := " "%char.

(** [s.replace(FTS5_SPECIAL, " ")] *)
Definition replace_special (s : string) : string :=
  map_string (fun c => if FTS5_SPECIAL c then space else c) s.

(** [s.replace(/[^\w\s]/g, " ")] *)
Definition replace_nonword (s : string) : string :=
  map_string (fun c => if is_word c || is_ws c then c else space) s.

Definition is_empty (s : string) : bool :=
  match s with EmptyString => true | _ => false end.

Fixpoint trimStart (s : string) : string :=
  match s with
  | EmptyString => EmptyString
  | String c s' => if is_ws c then trimStart s' else s
  end.

Fixpoint trimEnd (s : string) : string :=
  match s with
  | EmptyString => EmptyString
  | String c s' =>
      let r := trimEnd s' in
      if is_ws c && is_empty r then EmptyString else String c r
  end.

Definition trim (s : string) : string := trimEnd (trimStart s).

Definition starts_with_ws (s : string) : bool :=
  match s with
  | EmptyString => false
  | String c _ => is_ws c
  end.

(** [s.split(/\s+/)]: a leading or trailing run of white space yields an
    empty first or last piece, and the empty string yields one empty piece. *)
Fixpoint split_ws (s : string) : list string :=
  match s with
  | EmptyString => [EmptyString]
  | String c s' =>
      if is_ws c then
        if starts_with_ws s' then split_ws s' else EmptyString :: split_ws s'
      else
        match split_ws s' with
        | t :: ts => String c t :: ts
        | [] => [String c EmptyString]
        end
  end.

(** [s.split(" ")]: every single space separates. *)
Fixpoint split_space (s : string) : list string :=
  match s with
  | EmptyString => [EmptyString]
  | String c s' =>
      if Ascii.eqb c space then EmptyString :: split_space s'
      else
        match split_space s' with
        | t :: ts => String c t :: ts
        | [] => [String c EmptyString]
        end
  end.

(** [s.replace(/\s+/g, " ")] *)
Fixpoint collapse_ws (s : string) : string :=
  match s with
  | EmptyString => EmptyString
  | String c s' =>
      if is_ws c then
        if starts_with_ws s' then collapse_ws s'
        else String space (collapse_ws s')
      else String c (collapse_ws s')
  end.

(** [xs.join(sep)] *)
Fixpoint join (sep : string) (xs : list string) : string :=
  match xs with
  | [] => EmptyString
  | [x] => x
  | x :: rest => x ++ sep ++ join sep rest
  end.

(** [set.has(t)] for a set of strings given as a list. *)
Definition has (set : list string) (t : string) : bool :=
  existsb (String.eqb t) set.

Fixpoint startsWith (p s : string) : bool :=
  match p, s with
  | EmptyString, _ => true
  | String a p', String b s' => Ascii.eqb a b && startsWith p' s'
  | String _ _, EmptyString => false
  end.

(** [s.slice(n)] for a non-negative [n]. *)
Fixpoint slice (n : nat) (s : string) : string :=
  match n, s with
  | O, _ => s
  | S n', String _ s' => slice n' s'
  | S _, EmptyString => EmptyString
  end.

(** JavaScript truthiness of an optional string: [undefined], [null] and the
    empty string are falsy. *)
Definition truthy (o : option string) : bool :=
  match o with
  | Some s => negb (is_empty s)
  | None => false
  end.

(** [a || b] on optional strings. *)
Definition or_else (a b : option string) : option string :=
  if truthy a then a else b.

(** [a || d] with a string default. *)
Definition or_default (a : option string) (d : string) : string :=
  match or_else a (Some d) with Some s => s | None => d end.

(* ================================================================== *)
(** ** Query normalizer ([sanitizeQuery])                              *)
(* ================================================================== *)

Definition STOP_WORDS : list string :=
  ["a"; "an"; "the"; "is"; "are"; "was"; "were"; "be"; "been"; "being";
   "have"; "has"; "had"; "do"; "does"; "did"; "will"; "would"; "could";
   "should"; "may"; "might"; "shall"; "can"; "to"; "of"; "in"; "for";
   "on"; "with"; "at"; "by"; "from"; "as"; "into"; "about"; "it";
   "its"; "this"; "that"; "these"; "those"; "i"; "we"; "you"; "he";
   "she"; "they"; "me"; "him"; "her"; "us"; "them"; "my"; "your";
   "his"; "our"; "their"; "what"; "which"; "who"; "whom"; "how";
   "when"; "where"; "why"; "not"; "no"; "nor"; "so"; "if"; "or";
   "and"; "but"; "than"; "too"; "very"; "just"].

Definition FTS5_OPERATORS : list string := ["and"; "or"; "not"; "near"].

(** The [tokens] of [sanitizeQuery]. *)
Definition query_tokens (raw : string) : list string :=
  let query := replace_special raw in
  filter (fun t => Nat.ltb 1 (String.length t)
                   && negb (has STOP_WORDS t)
                   && negb (has FTS5_OPERATORS t))
         (split_ws (toLowerCase query)).

(** The [fallback] of [sanitizeQuery]. *)
Definition query_fallback (raw : string) : string :=
  trim (join " "
    (filter (fun t => Nat.ltb 1 (String.length t)
                      && negb (has FTS5_OPERATORS (toLowerCase t)))
            (split_ws (replace_special raw)))).

Definition sanitizeQuery (raw : string) : string :=
  match query_tokens raw with
  | [] =>
      let fallback := query_fallback raw in
      if is_empty fallback then trim (replace_nonword raw) else fallback
  | tokens => join " " tokens
  end.

(** The two things the normalizer's output is checked for: a character of
    the special class, and a white-space separated token that is, up to
    letter case, a reserved operator word. *)
Definition has_special_char (s : string) : bool :=
  negb (forall_string (fun c => negb (FTS5_SPECIAL c)) s).

Definition is_operator_token (t : string) : bool :=
  has FTS5_OPERATORS (toLowerCase t).

Definition has_operator_token (s : string) : bool :=
  existsb is_operator_token (split_ws s).

(** [normalizeText]: [text.toLowerCase().trim().replace(/\s+/g, " ")] *)
Definition normalizeText (text : string) : string :=
  collapse_ws (trim (toLowerCase text)).

(** Stable insertion sort: [x] is placed before the first [y] with
    [leb x y], so rows that compare equal keep their original order.  It
    stands for [Array.prototype.sort] and for SQL [ORDER BY]. *)
Fixpoint insert_by (A : Type) (leb : A -> A -> bool) (x : A) (l : list A) : list A :=
  match l with
  | [] => [x]
  | y :: l' => if leb x y then x :: l else y :: insert_by leb x l'
  end.

Fixpoint sort_by (A : Type) (leb : A -> A -> bool) (l : list A) : list A :=
  match l with
  | [] => []
  | x :: l' => insert_by leb x (sort_by leb l')
  end.

(** SQL [LIMIT n]: a negative bound means no bound. *)
Definition sql_limit (A : Type) (n : Z) (l : list A) : list A :=
  if (n <? 0)%Z then l else firstn (Z.to_nat n) l.

(** [arr.slice(0, n)]: a negative [n] counts from the end. *)
Definition slice0 (A : Type) (n : Z) (l : list A) : list A :=
  if (n <? 0)%Z then firstn (List.length l - Z.to_nat (- n)) l
  else firstn (Z.to_nat n) l.

(* ================================================================== *)
(** ** Data model: the tables of migrations 1 to 5                     *)
(* ================================================================== *)

Record Memory := mkMemory {
  id : string;
  content : string;
  category : string;
  session_id : option string;
  project_id : option string;
  source : option string;
  time_created : Z;
  time_updated : Z;
  access_count : Z;
  time_last_accessed : option Z
}.

Record TagRow := mkTag { memory_id : string; tag : string }.

Record LinkRow := mkLink {
  source_id : string;
  target_id : string;
  relationship : string
}.

Record FtsRow := mkFts {
  fts_memory_id : string;
  fts_content : string;
  fts_category : string;
  fts_source : option string
}.

Record Db := mkDb {
  memory : list Memory;
  memory_tags : list TagRow;
  memory_links : list LinkRow;
  memory_fts : list FtsRow;
  metadata : list (string * string)
}.

Definition empty_db : Db := mkDb [] [] [] [] [].

Definition opt_string_eqb (a b : option string) : bool :=
  match a, b with
  | Some x, Some y => String.eqb x y
  | None, None => true
  | _, _ => false
  end.

(** The row the triggers [memory_ai] and [memory_au] write to the index. *)
Definition fts_of (m : Memory) : FtsRow :=
  mkFts (id m) (content m) (category m) (source m).

(* ================================================================== *)
(** ** Statements that may throw: a state and exception monad          *)
(* ================================================================== *)

Inductive Result (A : Type) : Type :=
| Ok (a : A)
| Throw (msg : string).

Arguments Throw {A} msg.

(** Every statement is committed on its own (there is no explicit
    transaction), so the state reached before an exception is kept. *)
Definition M (A : Type) : Type := Db -> Result A * Db.

Definition ret (A : Type) (a : A) : M A := fun db => (Ok a, db).

Definition throw (A : Type) (msg : string) : M A := fun db => (Throw msg, db).

Arguments throw {A} msg.

Definition bind (A B : Type) (c : M A) (k : A -> M B) : M B :=
  fun db =>
    match c db with
    | (Ok a, db') => k a db'
    | (Throw msg, db') => (Throw msg, db')
    end.

(** [try { c } catch (e) { h(e) }] *)
Definition try_catch (A : Type) (c : M A) (h : string -> M A) : M A :=
  fun db =>
    match c db with
    | (Ok a, db') => (Ok a, db')
    | (Throw msg, db') => h msg db'
    end.

Definition get_db : M Db := fun db => (Ok db, db).

Notation "x <- c ;; k" := (bind c (fun x => k))
  (at level 61, c at next level, right associativity).
Notation "c ;;; k" := (bind c (fun _ => k))
  (at level 61, right associativity).

Fixpoint for_each (A : Type) (f : A -> M unit) (l : list A) : M unit :=
  match l with
  | [] => ret tt
  | x :: l' => f x ;;; for_each f l'
  end.

(* ================================================================== *)
(** ** SQL statements over the schema                                  *)
(* ================================================================== *)

Definition memory_exists (i : string) (db : Db) : bool :=
  existsb (fun m => String.eqb (id m) i) (memory db).

(** [INSERT INTO memory ...]: [id] is the primary key; the trigger
    [memory_ai] adds the index row. *)
Definition insert_memory (row : Memory) : M unit := fun db =>
  if memory_exists (id row) db then
    (Throw "UNIQUE constraint failed: memory.id", db)
  else
    (Ok tt, mkDb (memory db ++ [row]) (memory_tags db) (memory_links db)
                 (memory_fts db ++ [fts_of row]) (metadata db)).

(** Trigger [memory_au], fired once per updated row: delete the index rows
    of [OLD.id], insert the row of [NEW]. *)
Definition memory_au (upd : Memory -> Memory) (fts : list FtsRow) (old : Memory)
  : list FtsRow :=
  filter (fun r => negb (String.eqb (fts_memory_id r) (id old))) fts
    ++ [fts_of (upd old)].

(** [UPDATE memory SET ... WHERE id = ?]; returns the number of changes. *)
Definition update_memory (i : string) (upd : Memory -> Memory) : M nat := fun db =>
  let hit := filter (fun m => String.eqb (id m) i) (memory db) in
  (Ok (List.length hit),
   mkDb (map (fun m => if String.eqb (id m) i then upd m else m) (memory db))
        (memory_tags db) (memory_links db)
        (fold_left (memory_au upd) hit (memory_fts db)) (metadata db)).

(** [DELETE FROM memory WHERE p]; with [PRAGMA foreign_keys = ON] the
    [ON DELETE CASCADE] clauses of [memory_tags] and [memory_links] remove the
    dependent rows, and the trigger [memory_ad] removes the index rows, all
    inside the one statement.  Returns the number of deleted memory rows. *)
Definition delete_memory (p : Memory -> bool) : M nat := fun db =>
  let gone := map id (filter p (memory db)) in
  (Ok (List.length gone),
   mkDb (filter (fun m => negb (p m)) (memory db))
        (filter (fun t => negb (has gone (memory_id t))) (memory_tags db))
        (filter (fun l => negb (has gone (source_id l))
                          && negb (has gone (target_id l))) (memory_links db))
        (filter (fun r => negb (has gone (fts_memory_id r))) (memory_fts db))
        (metadata db)).

(** [INSERT OR IGNORE INTO memory_tags]: a row with the same primary key is
    skipped; a missing parent violates the foreign key. *)
Definition insert_tag (mid t : string) : M unit := fun db =>
  if existsb (fun r => String.eqb (memory_id r) mid && String.eqb (tag r) t)
             (memory_tags db)
  then (Ok tt, db)
  else if negb (memory_exists mid db) then
    (Throw "FOREIGN KEY constraint failed", db)
  else
    (Ok tt, mkDb (memory db) (memory_tags db ++ [mkTag mid t]) (memory_links db)
                 (memory_fts db) (metadata db)).

Definition delete_tags (p : TagRow -> bool) : M unit := fun db =>
  (Ok tt, mkDb (memory db) (filter (fun r => negb (p r)) (memory_tags db))
               (memory_links db) (memory_fts db) (metadata db)).

Definition LINK_RELATIONSHIPS : list string :=
  ["related"; "supersedes"; "contradicts"; "extends"].

(** [INSERT OR REPLACE INTO memory_links]: the CHECK on [relationship] and
    the two foreign keys abort the statement; a row with the same ordered
    pair is replaced. *)
Definition insert_or_replace_link (s t rel : string) : M unit := fun db =>
  if negb (has LINK_RELATIONSHIPS rel) then
    (Throw "CHECK constraint failed: relationship", db)
  else if negb (memory_exists s db && memory_exists t db) then
    (Throw "FOREIGN KEY constraint failed", db)
  else
    (Ok tt,
     mkDb (memory db) (memory_tags db)
          (filter (fun l => negb (String.eqb (source_id l) s
                                  && String.eqb (target_id l) t))
                  (memory_links db) ++ [mkLink s t rel])
          (memory_fts db) (metadata db)).

Definition delete_links (p : LinkRow -> bool) : M nat := fun db =>
  (Ok (List.length (filter p (memory_links db))),
   mkDb (memory db) (memory_tags db)
        (filter (fun l => negb (p l)) (memory_links db))
        (memory_fts db) (metadata db)).

(** [ORDER BY time_created DESC] *)
Definition by_time_created_desc (a b : Memory) : bool :=
  (time_created b <=? time_created a)%Z.

(** [AND (project_id = ? OR project_id IS NULL)], added only when
    [projectId] is truthy. *)
Definition in_scope (projectId : option string) (m : Memory) : bool :=
  if truthy projectId then
    opt_string_eqb (project_id m) projectId || opt_string_eqb (project_id m) None
  else true.

(* ================================================================== *)
(** ** Store operations ([memory.ts])                                  *)
(* ================================================================== *)

Record StoreInput := mkStoreInput {
  s_content : string;
  s_category : option string;
  sessionId : option string;
  projectId : option string;
  s_source : option string;
  tags : option (list string);
  global : bool;
  force : bool
}.

Record UpdateInput := mkUpdateInput {
  u_content : option string;
  u_category : option string;
  u_source : option string
}.

Record SearchInput := mkSearchInput {
  query : string;
  q_category : option string;
  q_projectId : option string;
  limit : option Z;
  decayRate : option Q
}.

Record SearchResult := mkSearchResult {
  sr_memory : Memory;
  rank : R
}.

Inductive DupType := exact | near.

Definition set_time_updated (t : Z) (m : Memory) : Memory :=
  mkMemory (id m) (content m) (category m) (session_id m) (project_id m)
           (source m) (time_created m) t (access_count m) (time_last_accessed m).

(** The [SET] list built by [updateMemory]: one assignment per supplied
    field. *)
Definition apply_fields (input : UpdateInput) (m : Memory) : Memory :=
  mkMemory (id m)
           (match u_content input with Some c => c | None => content m end)
           (match u_category input with Some c => c | None => category m end)
           (session_id m) (project_id m)
           (match u_source input with Some s => Some s | None => source m end)
           (time_created m) (time_updated m) (access_count m)
           (time_last_accessed m).

(** [SET access_count = access_count + n, time_last_accessed = now] *)
Definition touch (n now : Z) (m : Memory) : Memory :=
  mkMemory (id m) (content m) (category m) (session_id m) (project_id m)
           (source m) (time_created m) (time_updated m)
           (access_count m + n)%Z (Some now).

Definition no_fields (input : UpdateInput) : bool :=
  match u_content input, u_category input, u_source input with
  | None, None, None => true
  | _, _, _ => false
  end.

Definition getMemory (i : string) : M (option Memory) := fun db =>
  (Ok (find (fun m => String.eqb (id m) i) (memory db)), db).

Definition updateMemory (now : Z) (i : string) (input : UpdateInput)
  : M (option Memory) :=
  existing <- getMemory i ;;
  match existing with
  | None => ret None
  | Some e =>
      if no_fields input then ret (Some e)
      else
        update_memory i (fun m => set_time_updated now (apply_fields input m)) ;;;
        getMemory i
  end.

Definition deleteMemory (i : string) : M bool :=
  changes <- delete_memory (fun m => String.eqb (id m) i) ;;
  ret (Nat.ltb 0 changes).

Definition refreshMemory (now : Z) (i : string) : M (option Memory) :=
  existing <- getMemory i ;;
  match existing with
  | None => ret None
  | Some _ => update_memory i (touch 5 now) ;;; getMemory i
  end.

(** Word-overlap similarity (Jaccard index). *)
Definition word_set (s : string) : list string :=
  nodup string_dec (filter (fun w => Nat.ltb 1 (String.length w)) (split_space s)).

Definition computeSimilarity (a b : string) : Q :=
  let wordsA := word_set a in
  let wordsB := word_set b in
  match wordsA, wordsB with
  | [], [] => 1%Q
  | [], _ => 0%Q
  | _, [] => 0%Q
  | _, _ =>
      let intersection := List.length (filter (has wordsB) wordsA) in
      let union := List.length (nodup string_dec (wordsA ++ wordsB)) in
      (Z.of_nat intersection # Pos.of_nat union)%Q
  end.

Definition Qlt_bool (a b : Q) : bool := negb (Qle_bool b a).

Definition MAX_MEMORY_CONTENT_LENGTH : Z := 10000%Z.

(** [Math.max(3, Math.ceil(n * 0.6))]; the product is within half an ulp of
    [3n/5], so its ceiling is that of the exact quotient. *)
Definition distinctive (n : nat) : nat := Nat.max 3 ((3 * n + 4) / 5).

Definition or_undefined (o : option string) : option string :=
  if truthy o then o else None.

Definition listMemories (l_category l_projectId l_sessionId : option string)
    (scope : option string) (l_limit : option Z) : M (list Memory) := fun db =>
  let scope := or_default scope "all" in
  let by_category m :=
    if truthy l_category then opt_string_eqb (Some (category m)) l_category else true in
  let by_scope m :=
    if truthy l_projectId && String.eqb scope "project" then
      opt_string_eqb (project_id m) l_projectId
    else if String.eqb scope "global" then opt_string_eqb (project_id m) None
    else if truthy l_projectId && String.eqb scope "all" then
      opt_string_eqb (project_id m) l_projectId || opt_string_eqb (project_id m) None
    else true in
  let by_session m :=
    if truthy l_sessionId then opt_string_eqb (session_id m) l_sessionId else true in
  let lim := match l_limit with Some 0%Z | None => 20%Z | Some n => n end in
  (Ok (sql_limit lim
         (sort_by by_time_created_desc
            (filter (fun m => by_category m && by_scope m && by_session m)
                    (memory db)))), db).

(** *** Tags *)

Definition getTagsForMemory (memoryId : string) : M (list string) := fun db =>
  (Ok (map tag (filter (fun r => String.eqb (memory_id r) memoryId) (memory_tags db))),
   db).

Definition norm_tag (t : string) : string := trim (toLowerCase t).

Definition addTags (memoryId : string) (ts : list string) : M unit :=
  for_each (fun t => insert_tag memoryId (norm_tag t)) ts.

Definition setTags (memoryId : string) (ts : list string) : M unit :=
  delete_tags (fun r => String.eqb (memory_id r) memoryId) ;;;
  match ts with
  | [] => ret tt
  | _ => for_each (fun t => insert_tag memoryId (norm_tag t)) ts
  end.

Definition removeTags (memoryId : string) (ts : list string) : M unit :=
  for_each (fun t => delete_tags (fun r => String.eqb (memory_id r) memoryId
                                           && String.eqb (tag r) (norm_tag t))) ts.

(** The rows of the query of [searchByTag]. *)
Definition searchByTag_rows (t : string) (t_projectId : option string)
    (t_limit : option Z) (db : Db) : list Memory :=
  let key := norm_tag t in
  let joined :=
    flat_map (fun m =>
      map (fun _ => m)
          (filter (fun r => String.eqb (memory_id r) (id m) && String.eqb (tag r) key)
                  (memory_tags db)))
      (memory db) in
  let by_project m :=
    if truthy t_projectId then opt_string_eqb (project_id m) t_projectId else true in
  let lim := match t_limit with Some 0%Z | None => 20%Z | Some n => n end in
  sql_limit lim (sort_by by_time_created_desc (filter by_project joined)).

Definition searchByTag (t : string) (t_projectId : option string)
    (t_limit : option Z) : M (list Memory) := fun db =>
  (Ok (searchByTag_rows t t_projectId t_limit db), db).

(** *** Links *)

Definition addLink (sourceId targetId : string) (rel : string) : M bool :=
  s <- getMemory sourceId ;;
  t <- getMemory targetId ;;
  match s, t with
  | Some _, Some _ =>
      if String.eqb sourceId targetId then ret false
      else insert_or_replace_link sourceId targetId rel ;;; ret true
  | _, _ => ret false
  end.

Definition removeLink (sourceId targetId : string) : M bool :=
  changes <- delete_links (fun l => String.eqb (source_id l) sourceId
                                    && String.eqb (target_id l) targetId) ;;
  ret (Nat.ltb 0 changes).

Record LinkedMemory := mkLinked {
  l_source_id : string;
  l_target_id : string;
  l_relationship : string;
  linked_memory : Memory
}.

(** The join of [getLinksForMemory]: every edge touching [memoryId], with
    the memory at the other end. *)
Definition getLinksForMemory (memoryId : string) : M (list LinkedMemory) := fun db =>
  (Ok (flat_map (fun l =>
         let other := if String.eqb (source_id l) memoryId
                      then target_id l else source_id l in
         map (fun m => mkLinked (source_id l) (target_id l) (relationship l) m)
             (filter (fun m => String.eqb (id m) other) (memory db)))
       (filter (fun l => String.eqb (source_id l) memoryId
                         || String.eqb (target_id l) memoryId)
               (memory_links db))), db).

(** The project id [storeMemory] stores and scans with. *)
Definition store_scope (input : StoreInput) : option string :=
  if global input then None else or_undefined (projectId input).

(** *** Full-text queries, duplicates, insert and search

    The FTS5 engine (tokenizer, query parser, BM25) is outside the
    repository.  It is a parameter: for a query string and the content of the
    index it either raises an error ([None]) or says, for each index row,
    whether it matches and with which rank. *)

Section Engine.

Variable fts5 : string -> list FtsRow -> option (FtsRow -> option Q).

(** [SELECT m.*, fts.rank FROM memory_fts fts JOIN memory m
     ON m.id = fts.memory_id WHERE memory_fts MATCH ? AND keep
     ORDER BY rank LIMIT lim]; [None] when the engine raises. *)
Definition fts_rows (q : string) (keep : Memory -> bool) (lim : Z) (db : Db)
  : option (list (Memory * Q)) :=
  match fts5 q (memory_fts db) with
  | None => None
  | Some score =>
      let joined :=
        flat_map (fun r =>
          match score r with
          | Some rk =>
              map (fun m => (m, rk))
                  (filter (fun m => String.eqb (id m) (fts_memory_id r)) (memory db))
          | None => []
          end) (memory_fts db) in
      Some (sql_limit lim
              (sort_by (fun a b => Qle_bool (snd a) (snd b))
                       (filter (fun p => keep (fst p)) joined)))
  end.

Definition fts_select (q : string) (keep : Memory -> bool) (lim : Z)
  : M (list (Memory * Q)) := fun db =>
  match fts_rows q keep lim db with
  | None => (Throw "fts5: syntax error", db)
  | Some rows => (Ok rows, db)
  end.

(** The [orQuery] of [findDuplicate]: the longest tokens of the normalized
    content joined with [OR]; [None] when there is no token. *)
Definition dedup_query (c : string) : option string :=
  let sanitized := sanitizeQuery c in
  let tokens :=
    filter (fun t => Nat.ltb 0 (String.length t)
                     && negb (has FTS5_OPERATORS (toLowerCase t)))
           (split_ws (trim sanitized)) in
  match tokens with
  | [] => None
  | _ =>
      let sorted :=
        sort_by (fun a b => Nat.leb (String.length b) (String.length a)) tokens in
      let queryTokens := firstn (distinctive (List.length tokens)) sorted in
      Some (join " OR " queryTokens)
  end.

(** The candidates of the exact check: the 100 most recent rows in scope. *)
Definition dedup_candidates (pid : option string) (db : Db) : list Memory :=
  firstn 100 (sort_by by_time_created_desc (filter (in_scope pid) (memory db))).

Definition same_text (normalized : string) (m : Memory) : bool :=
  String.eqb (normalizeText (content m)) normalized.

Definition similar (normalized : string) (r : Memory * Q) : bool :=
  Qlt_bool (6 # 10) (computeSimilarity normalized (normalizeText (content (fst r)))).

Definition findDuplicate (c : string) (pid : option string)
  : M (option (DupType * Memory)) :=
  db <- get_db ;;
  let normalized := normalizeText c in
  match find (same_text normalized) (dedup_candidates pid db) with
  | Some m => ret (Some (exact, m))
  | None =>
      try_catch
        (match dedup_query c with
         | None => ret None
         | Some orQuery =>
             results <- fts_select orQuery (in_scope pid) 5 ;;
             match find (similar normalized) results with
             | Some r => ret (Some (near, fst r))
             | None => ret None
             end
         end)
        (fun _ => ret None)
  end.

(** [generateId()] and [Date.now()] are inputs: [uuid] is the identifier
    drawn for this call and [now] the clock in seconds. *)
Definition storeMemory (uuid : string) (now : Z) (input : StoreInput) : M Memory :=
  if is_empty (s_content input)
     || Nat.eqb (String.length (trim (s_content input))) 0
  then throw "Memory content cannot be empty"
  else if (MAX_MEMORY_CONTENT_LENGTH <? Z.of_nat (String.length (s_content input)))%Z
  then throw "Memory content exceeds maximum length of 10000 characters"
  else
    let pid := store_scope input in
    dup <- (if force input then ret None else findDuplicate (s_content input) pid) ;;
    match dup with
    | Some (exact, m) => ret m
    | Some (near, m) =>
        updated <- updateMemory now (id m)
                     (mkUpdateInput
                        (Some (s_content input))
                        (Some (or_default (s_category input) (category m)))
                        (or_undefined (or_else (s_source input) (source m)))) ;;
        ret (match updated with Some u => u | None => m end)
    | None =>
        let row := mkMemory uuid (s_content input)
                            (or_default (s_category input) "general")
                            (or_undefined (sessionId input)) pid
                            (or_undefined (s_source input)) now now 0%Z None in
        insert_memory row ;;;
        match tags input with
        | Some (t :: ts) => for_each (fun t => insert_tag uuid (norm_tag t)) (t :: ts)
        | _ => ret tt
        end ;;;
        ret row
    end.

(** *** Ranker *)

Definition DEFAULT_DECAY_RATE : Q := (77 # 10000)%Q.

Definition log2 (x : R) : R := (ln x / ln 2)%R.

Definition decayFactor (now : Z) (rate : Q) (created : Z) : R :=
  let ageDays := (IZR (now - created) / 86400)%R in
  (1 / (1 + ageDays * Q2R rate))%R.

Definition accessBoost (count : Z) : R :=
  (1 + log2 (1 + IZR count) * (1 / 10))%R.

Definition finalRank (now : Z) (rate : Q) (row : Memory * Q) : R :=
  (Q2R (snd row)
   / (decayFactor now rate (time_created (fst row))
      * accessBoost (access_count (fst row))))%R.

Definition Rle_bool (a b : R) : bool := if Rle_dec a b then true else false.

(** The re-ranking of [searchMemories]: score, sort ascending, cut. *)
Definition rerank (now : Z) (rate : Q) (lim : Z) (rows : list (Memory * Q))
  : list (Memory * R) :=
  slice0 lim
    (sort_by (fun a b => Rle_bool (snd a) (snd b))
             (map (fun row => (fst row, finalRank now rate row)) rows)).

(** [input.limit || 10] *)
Definition search_limit (input : SearchInput) : Z :=
  match limit input with Some 0%Z | None => 10%Z | Some n => n end.

(** The category and project conditions of the search query. *)
Definition search_keep (input : SearchInput) (m : Memory) : bool :=
  (if truthy (q_category input)
   then opt_string_eqb (Some (category m)) (q_category input) else true)
  && in_scope (q_projectId input) m.

(** [input.decayRate ?? DEFAULT_DECAY_RATE] *)
Definition search_rate (input : SearchInput) : Q :=
  match decayRate input with Some r => r | None => DEFAULT_DECAY_RATE end.

Definition searchMemories (now : Z) (input : SearchInput) : M (list SearchResult) :=
  let lim := search_limit input in
  let sanitized := sanitizeQuery (query input) in
  if is_empty (trim sanitized) then ret []
  else
    let fetchLimit := Z.min (lim * 3) 100 in
    fetched <- try_catch (rows <- fts_select sanitized (search_keep input) fetchLimit ;;
                          ret (Some rows))
                         (fun _ => ret None) ;;
    match fetched with
    | None => ret []
    | Some rows =>
        let top := rerank now (search_rate input) lim rows in
        for_each (fun r => update_memory (id (fst r)) (touch 1 now) ;;; ret tt) top ;;;
        ret (map (fun r => mkSearchResult (touch 1 now (fst r)) (snd r)) top)
    end.

End Engine.

(* ================================================================== *)
(** ** Maintenance ([maintenance.ts])                                  *)
(* ================================================================== *)

Definition getMetadata (key : string) : M (option string) := fun db =>
  (Ok (option_map snd (find (fun kv => String.eqb (fst kv) key) (metadata db))), db).

(** [INSERT OR REPLACE INTO metadata (key, value)] *)
Definition setMetadata (key value : string) : M unit := fun db =>
  (Ok tt, mkDb (memory db) (memory_tags db) (memory_links db) (memory_fts db)
               (filter (fun kv => negb (String.eqb (fst kv) key)) (metadata db)
                  ++ [(key, value)])).

(** The [optimize] command rewrites the index segments, not its rows. *)
Definition optimizeFts : M unit := ret tt.

Definition purgeOldMemories (now olderThanDays : Z) : M nat :=
  let cutoff := (now - olderThanDays * 86400)%Z in
  delete_memory (fun m => (time_created m <? cutoff)%Z
                          && (access_count m =? 0)%Z
                          && match time_last_accessed m with None => true | Some _ => false end).

(** [ORDER BY access_count ASC, time_created ASC] *)
Definition by_cap_order (a b : Memory) : bool :=
  (access_count a <? access_count b)%Z
  || ((access_count a =? access_count b)%Z && (time_created a <=? time_created b)%Z).

(** [config.maxMemories] is the parameter. *)
Definition enforceMaxMemories (maxMemories : Z) : M nat :=
  if (maxMemories <=? 0)%Z then ret 0
  else
    db <- get_db ;;
    let count := Z.of_nat (List.length (memory db)) in
    if (count <=? maxMemories)%Z then ret 0
    else
      let excess := (count - maxMemories)%Z in
      let victims := map id (sql_limit excess (sort_by by_cap_order (memory db))) in
      delete_memory (fun m => has victims (id m)).

Record MaintenanceResult := mkMaintenanceResult {
  ftsOptimized : bool;
  memoriesPurged : nat;
  memoriesTrimmed : nat;
  dbSizeBytes : Z
}.

Definition Z_to_string (z : Z) : string :=
  DecimalString.NilZero.string_of_int (Z.to_int z).

(** [size] is what [statSync] reports for the database file. *)
Definition runMaintenance (maxMemories now size : Z) : M MaintenanceResult :=
  optimized <- try_catch (optimizeFts ;;; ret true) (fun _ => ret false) ;;
  trimmed <- try_catch (enforceMaxMemories maxMemories) (fun _ => ret 0) ;;
  setMetadata "last_maintenance" (Z_to_string now) ;;;
  ret (mkMaintenanceResult optimized 0 trimmed size).

(* ================================================================== *)
(** ** File knowledge cache ([agent.ts])                               *)
(* ================================================================== *)

Definition digit_of (c : ascii) : option Z :=
  let n := nat_of_ascii c in
  if Nat.leb 48 n && Nat.leb n 57 then Some (Z.of_nat (n - 48)) else None.

Fixpoint read_digits (acc : Z) (count : nat) (s : string) : Z * nat * string :=
  match s with
  | String c s' =>
      match digit_of c with
      | Some d => read_digits (acc * 10 + d)%Z (S count) s'
      | None => (acc, count, s)
      end
  | EmptyString => (acc, count, s)
  end.

Definition read_sign (s : string) : bool * string :=
  match s with
  | String c s' =>
      if Ascii.eqb c "-"%char then (true, s')
      else if Ascii.eqb c "+"%char then (false, s')
      else (false, s)
  | EmptyString => (false, s)
  end.

(** A JavaScript number: [NaN], an infinity, or a finite double held as
    the rational it denotes. *)
Inductive JsNumber := JsNaN | JsInf (negative : bool) | JsFinite (q : Q).

(** Rounding to the nearest integer, ties to even. *)
Definition round_half_even (q : Q) : Z :=
  let f := Qfloor q in
  match Qcompare (q - inject_Z f)%Q (1 # 2)%Q with
  | Lt => f
  | Gt => (f + 1)%Z
  | Eq => if Z.even f then f else (f + 1)%Z
  end.

Definition pow2 (e : Z) : Q := Qpower 2%Q e.

(** The [e] with [2^e <= a < 2^(e+1)], for a positive rational. *)
Definition binade (a : Q) : Z :=
  let e0 := (Z.log2 (Qnum a) - Z.log2 (Zpos (Qden a)))%Z in
  if Qle_bool (pow2 e0) a then e0 else (e0 - 1)%Z.

(** The double nearest to a rational (IEEE 754 binary64, round to nearest,
    ties to even): 53 significant bits in the binade of the value, the
    exponent not below that of the subnormals, and an infinity from 2^1024
    on. *)
Definition round_double (x : Q) : JsNumber :=
  let q := Qred x in
  if Qeq_bool q 0%Q then JsFinite 0%Q
  else
    let a := Qabs q in
    let e := Z.max (binade a) (-1022) in
    let ulp := pow2 (e - 52) in
    let r := Qred (inject_Z (round_half_even (a / ulp)%Q) * ulp)%Q in
    if Qle_bool (pow2 1024) r then JsInf (Qlt_bool q 0%Q)
    else JsFinite (if Qlt_bool q 0%Q then (- r)%Q else r).

(** [Math.abs(n) < bound], false for [NaN] and the infinities. *)
Definition js_abs_lt (n : JsNumber) (bound : Q) : bool :=
  match n with
  | JsFinite d => Qlt_bool (Qabs d) bound
  | _ => false
  end.

(** [parseFloat]: leading white space, an optional sign, then [Infinity] or
    the longest decimal literal (digits, fraction, exponent), trailing text
    ignored; the value is rounded to the nearest double. *)
Definition parseFloat (s : string) : JsNumber :=
  let '(neg, s0) := read_sign (trimStart s) in
  if startsWith "Infinity" s0 then JsInf neg
  else
    let '(ip, n1, s1) := read_digits 0 0 s0 in
    let '(fp, n2, s2) :=
      match s1 with
      | String c s' => if Ascii.eqb c "."%char then read_digits 0 0 s' else (0%Z, 0, s1)
      | EmptyString => (0%Z, 0, s1)
      end in
    if Nat.eqb (n1 + n2) 0 then JsNaN
    else
      let mant := (inject_Z ip + inject_Z fp / inject_Z (10 ^ Z.of_nat n2))%Q in
      let e :=
        match s2 with
        | String c s' =>
            if Ascii.eqb c "e"%char || Ascii.eqb c "E"%char then
              let '(eneg, s3) := read_sign s' in
              let '(ev, n3, _) := read_digits 0 0 s3 in
              if Nat.eqb n3 0 then 0%Z else if eneg then (- ev)%Z else ev
            else 0%Z
        | EmptyString => 0%Z
        end in
      round_double ((if neg then - mant else mant) * Qpower (inject_Z 10) e)%Q.

(** What [getFileFingerprint] reads from git and the file system: the hash
    is [undefined] when git gives none; the mtime, a double, is 0 when
    [statSync] fails. *)
Record Fingerprint := mkFingerprint {
  gitHash : option string;
  mtime : Q
}.

Record Freshness := mkFreshness {
  fresh : bool;
  f_memory : Memory;
  storedContent : string
}.

Definition storedGitHash (memoryTags : list string) : option string :=
  fold_left (fun acc t => if startsWith "git:" t then Some (slice 4 t) else acc)
            memoryTags None.

(** [None] is [undefined]. *)
Definition storedMtime (memoryTags : list string) : option JsNumber :=
  fold_left (fun acc t => if startsWith "mtime:" t then Some (parseFloat (slice 6 t)) else acc)
            memoryTags None.

(** [Math.abs(a - b) < 1000] on doubles: the difference is rounded; it is
    [NaN] or infinite, and the test false, when [b] is. *)
Definition within_tolerance (a : Q) (b : JsNumber) : bool :=
  match b with
  | JsFinite v => js_abs_lt (round_double (a - v)%Q) (inject_Z 1000)
  | _ => false
  end.

(** [available] is [isDbAvailable()], [absPath] the resolved path and
    [current] the fingerprint of the file now. *)
Definition checkFileFreshness (available : bool) (absPath c_projectId : string)
    (current : Fingerprint) : M (option Freshness) :=
  if negb available then ret None
  else
    memories <- searchByTag ("filepath:" ++ absPath) (Some c_projectId) (Some 1%Z) ;;
    match memories with
    | [] => ret None
    | m :: _ =>
        memoryTags <- getTagsForMemory (id m) ;;
        if truthy (gitHash current) && truthy (storedGitHash memoryTags) then
          ret (Some (mkFreshness
                       (opt_string_eqb (gitHash current) (storedGitHash memoryTags))
                       m (content m)))
        else
          match storedMtime memoryTags with
          | Some stored =>
              if Qlt_bool 0 (mtime current) then
                ret (Some (mkFreshness (within_tolerance (mtime current) stored)
                                       m (content m)))
              else ret (Some (mkFreshness false m (content m)))
          | None => ret (Some (mkFreshness false m (content m)))
          end
    end.

(* ================================================================== *)
(** ** Export and import (tool handlers [memory_export], [memory_import]) *)
(* ================================================================== *)

Record ExportLink := mkExportLink {
  el_target_id : string;
  el_relationship : string
}.

Record ExportEntry := mkExportEntry {
  e_id : string;
  e_content : string;
  e_category : string;
  e_source : option string;
  e_project_id : option string;
  e_time_created : Z;
  e_time_updated : Z;
  e_access_count : Z;
  e_tags : list string;
  e_links : list ExportLink
}.

Record ImportReport := mkImportReport {
  added : nat;
  skipped : nat;
  errors : nat;
  linksRestored : nat
}.



(** [idMap.get] and [idMap.set]; the newest binding is first. *)
Definition idmap_get (idMap : list (string * string)) (k : string) : option string :=
  option_map snd (find (fun kv => String.eqb (fst kv) k) idMap).

Section Importing.

Variable fts5 : string -> list FtsRow -> option (FtsRow -> option Q).

(** [gen k] is the identifier drawn by the [k]-th call of [storeMemory]. *)
Variable gen : nat -> string.
Variable now : Z.

Record ImportState := mkImportState {
  idMap : list (string * string);
  calls : nat;
  n_added : nat;
  n_skipped : nat;
  n_errors : nat
}.

Definition import_entry (st : ImportState) (entry : ExportEntry) : M ImportState :=
  try_catch
    (existing <- getMemory (e_id entry) ;;
     match existing with
     | Some _ =>
         ret (mkImportState ((e_id entry, e_id entry) :: idMap st) (calls st)
                            (n_added st) (S (n_skipped st)) (n_errors st))
     | None =>
         try_catch
           (m <- storeMemory fts5 (gen (calls st)) now
                   (mkStoreInput (e_content entry)
                      (Some (or_default (Some (e_category entry)) "general"))
                      None
                      (or_undefined (e_project_id entry))
                      (or_undefined (e_source entry))
                      (Some (e_tags entry))
                      (negb (truthy (e_project_id entry)))
                      true) ;;
            ret (mkImportState ((e_id entry, id m) :: idMap st) (S (calls st))
                               (S (n_added st)) (n_skipped st) (n_errors st)))
           (fun _ => ret (mkImportState (idMap st) (S (calls st)) (n_added st)
                                        (n_skipped st) (S (n_errors st))))
     end)
    (fun _ => ret (mkImportState (idMap st) (calls st) (n_added st)
                                 (n_skipped st) (S (n_errors st)))).

Fixpoint import_entries (st : ImportState) (entries : list ExportEntry) : M ImportState :=
  match entries with
  | [] => ret st
  | e :: rest => st' <- import_entry st e ;; import_entries st' rest
  end.

Definition restore_link (ids : list (string * string)) (entry : ExportEntry)
    (restored : nat) (link : ExportLink) : M nat :=
  match idmap_get ids (e_id entry), idmap_get ids (el_target_id link) with
  | Some sourceId, Some targetId =>
      if negb (is_empty sourceId) && negb (is_empty targetId) then
        try_catch (addLink sourceId targetId (el_relationship link) ;;; ret (S restored))
                  (fun _ => ret restored)
      else ret restored
  | _, _ => ret restored
  end.

Fixpoint fold_m (A B : Type) (f : B -> A -> M B) (l : list A) (b : B) : M B :=
  match l with
  | [] => ret b
  | x :: l' => b' <- f b x ;; fold_m f l' b'
  end.

Definition memory_import (entries : list ExportEntry) : M ImportReport :=
  st <- import_entries (mkImportState [] 0 0 0 0) entries ;;
  restored <- fold_m (fun n entry => fold_m (restore_link (idMap st) entry)
                                            (e_links entry) n)
                     entries 0 ;;
  ret (mkImportReport (n_added st) (n_skipped st) (n_errors st) restored).

End Importing.

(* ================================================================== *)
(** ** The operations that write to the store                          *)
(* ================================================================== *)

Inductive StoreOp :=
| OpStore (uuid : string) (now : Z) (input : StoreInput)
| OpSearch (now : Z) (input : SearchInput)
| OpUpdate (now : Z) (i : string) (input : UpdateInput)
| OpDelete (i : string)
| OpRefresh (now : Z) (i : string)
| OpSetTags (i : string) (ts : list string)
| OpAddTags (i : string) (ts : list string)
| OpRemoveTags (i : string) (ts : list string)
| OpAddLink (s t rel : string)
| OpRemoveLink (s t : string)
| OpPurge (now days : Z)
| OpEnforceCap (maxMemories : Z)
| OpMaintenance (maxMemories now size : Z)
| OpImport (gen : nat -> string) (now : Z) (entries : list ExportEntry).

(** The state an operation leaves behind, whether it returns or throws. *)
Definition run_op (fts5 : string -> list FtsRow -> option (FtsRow -> option Q))
    (op : StoreOp) (db : Db) : Db :=
  match op with
  | OpStore uuid now input => snd (storeMemory fts5 uuid now input db)
  | OpSearch now input => snd (searchMemories fts5 now input db)
  | OpUpdate now i input => snd (updateMemory now i input db)
  | OpDelete i => snd (deleteMemory i db)
  | OpRefresh now i => snd (refreshMemory now i db)
  | OpSetTags i ts => snd (setTags i ts db)
  | OpAddTags i ts => snd (addTags i ts db)
  | OpRemoveTags i ts => snd (removeTags i ts db)
  | OpAddLink s t rel => snd (addLink s t rel db)
  | OpRemoveLink s t => snd (removeLink s t db)
  | OpPurge now days => snd (purgeOldMemories now days db)
  | OpEnforceCap maxMemories => snd (enforceMaxMemories maxMemories db)
  | OpMaintenance maxMemories now size => snd (runMaintenance maxMemories now size db)
  | OpImport gen now entries => snd (memory_import fts5 gen now entries db)
  end.

(** Referential integrity of the schema: the primary key of [memory], the
    foreign keys of [memory_tags] and [memory_links], and the index holding
    exactly the rows the triggers derive from [memory]. *)
Record integrity (db : Db) : Prop := mkIntegrity {
  pk_memory : NoDup (map id (memory db));
  fk_tags : forall t, In t (memory_tags db) -> In (memory_id t) (map id (memory db));
  fk_links : forall l, In l (memory_links db) ->
               In (source_id l) (map id (memory db))
               /\ In (target_id l) (map id (memory db));
  fts_unique : NoDup (map fts_memory_id (memory_fts db));
  fts_sync : forall r, In r (memory_fts db) <-> exists m, In m (memory db) /\ r = fts_of m
}.

(** ** A small stand-in for the FTS5 engine, for running the model

    A row matches when one of the query terms (the [OR] separators aside)
    is one of its lower-cased words; the rank is minus the number of terms
    found.  It never raises. *)
Definition words_fts5 (q : string) (index : list FtsRow) : option (FtsRow -> option Q) :=
  let terms :=
    filter (fun t => negb (is_empty t) && negb (String.eqb t "OR")) (split_ws q) in
  Some (fun r =>
          let ws := split_ws (toLowerCase (replace_special (fts_content r))) in
          let hits := List.length (filter (fun t => has ws (toLowerCase t)) terms) in
          if Nat.eqb hits 0 then None else Some (- Z.of_nat hits # 1)%Q).

(* ================================================================== *)
(** ** Predicates and shorthands used in the statements                *)
(* ================================================================== *)

(** White-space free strings, and the non-empty ones among them. *)
Definition ws_free (t : string) : bool := forall_string (fun c => negb (is_ws c)) t.

Definition token_like (t : string) : Prop := ws_free t = true /\ is_empty t = false.

Fixpoint last_is_ws (s : string) : bool :=
  match s with
  | EmptyString => false
  | String c EmptyString => is_ws c
  | String _ s' => last_is_ws s'
  end.

(** The words of a text: its maximal white-space free pieces. *)
Definition words (s : string) : list string :=
  filter (fun t => negb (is_empty t)) (split_ws s).

Definition is_nil (A : Type) (l : list A) : bool :=
  match l with [] => true | _ => false end.

(** [!input.content || input.content.trim().length === 0] and the length
    bound of [storeMemory], as one test. *)
Definition valid_content (c : string) : bool :=
  negb (is_empty c || Nat.eqb (String.length (trim c)) 0)
  && negb (MAX_MEMORY_CONTENT_LENGTH <? Z.of_nat (String.length c))%Z.

Definition with_content (c : string) (input : StoreInput) : StoreInput :=
  mkStoreInput c (s_category input) (sessionId input) (projectId input)
               (s_source input) (tags input) (global input) (force input).

Definition with_force (input : StoreInput) : StoreInput :=
  mkStoreInput (s_content input) (s_category input) (sessionId input)
               (projectId input) (s_source input) (tags input) (global input) true.

(** The row a successful insert writes. *)
Definition new_row (uuid : string) (now : Z) (input : StoreInput) : Memory :=
  mkMemory uuid (s_content input) (or_default (s_category input) "general")
           (or_undefined (sessionId input)) (store_scope input)
           (or_undefined (s_source input)) now now 0%Z None.

(** What [enforceMaxMemories] deletes: the first [excess] rows in cap
    order. *)
Definition cap_victims (maxMemories : Z) (db : Db) : list Memory :=
  firstn (Z.to_nat (Z.of_nat (List.length (memory db)) - maxMemories))
         (sort_by by_cap_order (memory db)).


(** The divisor of the decay factor. *)
Definition aging (now : Z) (rate : Q) (created : Z) : R :=
  (1 + IZR (now - created) / 86400 * Q2R rate)%R.

(** A statement keeps the referential integrity of the store, whether it
    returns or throws. *)
Definition preserves (A : Type) (c : M A) : Prop :=
  forall db, integrity db -> integrity (snd (c db)).

(** No row of any dependent table refers to [i], and no memory has it. *)
Definition unreferenced (i : string) (db : Db) : Prop :=
  (forall m, In m (memory db) -> id m <> i)
  /\ (forall t, In t (memory_tags db) -> memory_id t <> i)
  /\ (forall l, In l (memory_links db) -> source_id l <> i /\ target_id l <> i)
  /\ (forall r, In r (memory_fts db) -> fts_memory_id r <> i).

(** Two texts with the same words up to letter case: they differ only in
    letter case, in leading and trailing white space and in the length of
    the white-space runs. *)
Definition same_words (a b : string) : Prop :=
  words (toLowerCase a) = words (toLowerCase b).

(** Memory [m] of the store is visible to a scan for [pid] and is among its
    100 most recently created rows, whatever the order among rows of equal
    creation time: at most 100 visible rows, [m] included, are as new as
    [m] or newer. *)
Definition recent_in_scope (pid : option string) (db : Db) (m : Memory) : Prop :=
  In m (memory db)
  /\ in_scope pid m = true
  /\ List.length (filter (fun x => in_scope pid x
                                  && (time_created m <=? time_created x)%Z)
                         (memory db)) <= 100.






(* ================================================================== *)
(** ** Example stores and inputs                                       *)
(* ================================================================== *)

Definition mem_a : Memory :=
  mkMemory "a" "old decision" "decision" None (Some "p1") None 5%Z 5%Z 0%Z None.

Definition mem_b : Memory :=
  mkMemory "b" "new decision" "decision" None (Some "p1") None 6%Z 6%Z 0%Z None.

Definition mem_c : Memory :=
  mkMemory "c" "the authentication module uses JWT tokens for signing requests securely"
           "pattern" None (Some "p2") (Some "auth.ts") 8%Z 8%Z 0%Z None.

(** Two memories of project [p1], no tags, no links. *)
Definition db_ab : Db :=
  mkDb [mem_a; mem_b] [] [] [fts_of mem_a; fts_of mem_b] [].

(** A store of two projects: [mem_a], [mem_b] of [p1] and [mem_c] of [p2]. *)
Definition db_abc : Db :=
  mkDb [mem_a; mem_b; mem_c] [] [] [fts_of mem_a; fts_of mem_b; fts_of mem_c] [].

(** [db_ab] with a tag and the single edge [a -> b], [supersedes]. *)
Definition db_linked : Db :=
  mkDb [mem_a; mem_b] [mkTag "a" "auth"] [mkLink "a" "b" "supersedes"]
       [fts_of mem_a; fts_of mem_b] [].


Definition mem_n (i : string) (created count : Z) : Memory :=
  mkMemory i ("note " ++ i) "general" None None None created created count None.

(** Five memories: [m2] and [m4] were accessed, [m1], [m3], [m5] were not. *)
Definition db_five : Db :=
  let rows := [mem_n "m1" 10 0; mem_n "m2" 20 6; mem_n "m3" 30 0;
               mem_n "m4" 40 1; mem_n "m5" 50 0] in
  mkDb rows [] [] (map fts_of rows) [].

(** A file memory of project [p1] with its fingerprint tags. *)
Definition mem_file : Memory :=
  mkMemory "f1" "# notes" "discovery" None (Some "p1") (Some "read") 7%Z 7%Z 0%Z None.

Definition db_file : Db :=
  mkDb [mem_file]
       [mkTag "f1" "filepath:/tmp/x.md"; mkTag "f1" "git:"; mkTag "f1" "mtime:1700000000000.5"]
       [] [fts_of mem_file] [].


(** Two memories with the same content and creation time; [A], stored
    first, has been refreshed once (access count 5), [B] never. *)
Definition mem_A : Memory :=
  mkMemory "A" "jwt tokens" "general" None None None 100%Z 100%Z 5%Z (Some 150%Z).

Definition mem_B : Memory :=
  mkMemory "B" "jwt tokens" "general" None None None 100%Z 100%Z 0%Z None.

Definition db_rank : Db :=
  mkDb [mem_A; mem_B] [] [] [fts_of mem_A; fts_of mem_B] [].

(** Two memories with the same content and access count; [New], stored
    first in the table, was created 100 days after [Old]. *)
Definition mem_Old : Memory :=
  mkMemory "Old" "jwt tokens" "general" None None None 0%Z 0%Z 0%Z None.

Definition mem_New : Memory :=
  mkMemory "New" "jwt tokens" "general" None None None 8640000%Z 8640000%Z 0%Z None.

Definition db_age : Db :=
  mkDb [mem_New; mem_Old] [] [] [fts_of mem_New; fts_of mem_Old] [].

Definition jwt_search : SearchInput := mkSearchInput "JWT" None None None None.



(** A store of global memories in which [old], created at time 0, lies
    under [n] rows created later, at times 1 to [n]. *)
Definition filler (k : nat) : Memory :=
  mkMemory ("n" ++ Z_to_string (Z.of_nat k)) ("note " ++ Z_to_string (Z.of_nat k))
           "general" None None None (Z.of_nat k) (Z.of_nat k) 0%Z None.

Definition db_aged (old : Memory) (n : nat) : Db :=
  let rows := old :: map filler (seq 1 n) in
  mkDb rows [] [] (map fts_of rows) [].

Definition mem_or : Memory :=
  mkMemory "o1" "or" "general" None None None 0%Z 0%Z 0%Z None.

Definition mem_jwt : Memory :=
  mkMemory "o2" "JWT uses RS256 signing" "general" None None None 0%Z 0%Z 0%Z None.

Definition plain_input (c : string) : StoreInput :=
  mkStoreInput c None None None None None false false.

(** An engine that rejects every query. *)
Definition raising_fts5 (q : string) (index : list FtsRow) : option (FtsRow -> option Q) :=
  None.

(** The file memory with other fingerprint tags. *)
Definition db_tagged (fingerprint : list string) : Db :=
  mkDb [mem_file] (map (mkTag "f1") ("filepath:/tmp/x.md" :: fingerprint))
       [] [fts_of mem_file] [].

(* ================================================================== *)
(** ** Further predicates for the statements on listing, tags and links *)
(* ================================================================== *)

(** The project condition of [listMemories] for a memory, as the caller
    sees it: [global] keeps the memories without a project; [project] and
    [all] narrow only when a project id is given. *)
Definition list_project_cond (pid scope : option string) (m : Memory) : Prop :=
  let sc := or_default scope "all" in
  (sc = "global" -> project_id m = None)
  /\ (sc = "project" -> truthy pid = true -> project_id m = pid)
  /\ (sc = "all" -> truthy pid = true -> project_id m = pid \/ project_id m = None).

Definition list_matches (cat pid sid scope : option string) (m : Memory) : Prop :=
  (truthy cat = true -> Some (category m) = cat)
  /\ list_project_cond pid scope m
  /\ (truthy sid = true -> session_id m = sid).

(** [opts?.limit || 20] *)
Definition list_limit (lim : option Z) : Z :=
  match lim with Some 0%Z | None => 20%Z | Some n => n end.

(** The tags of a memory, as [getTagsForMemory] reports them. *)
Definition tags_of (db : Db) (memoryId : string) : list string :=
  match fst (getTagsForMemory memoryId db) with
  | Ok ts => ts
  | Throw _ => []
  end.

(** The edges of a memory, as [getLinksForMemory] reports them. *)
Definition links_of (db : Db) (memoryId : string) : list LinkedMemory :=
  match fst (getLinksForMemory memoryId db) with
  | Ok ls => ls
  | Throw _ => []
  end.

(** What [purgeOldMemories] looks for: created before the cutoff and never
    accessed. *)
Definition purgeable (now olderThanDays : Z) (m : Memory) : Prop :=
  (time_created m < now - olderThanDays * 86400)%Z
  /\ access_count m = 0%Z
  /\ time_last_accessed m = None.

(** [m'] is [m] up to the access tracking fields. *)
Definition same_but_access (m m' : Memory) : Prop :=
  id m' = id m /\ content m' = content m /\ category m' = category m
  /\ session_id m' = session_id m /\ project_id m' = project_id m
  /\ source m' = source m /\ time_created m' = time_created m
  /\ time_updated m' = time_updated m.

(** The effect of the access-tracking loop on one row: untouched unless its
    id is among the hits, otherwise only the access fields move. *)
Definition tracked (now : Z) (hits : list string) (m m' : Memory) : Prop :=
  same_but_access m m'
  /\ (access_count m <= access_count m')%Z
  /\ (~ In (id m) hits -> m' = m)
  /\ (In (id m) hits ->
      time_last_accessed m' = Some now /\ (access_count m < access_count m')%Z).

(* ================================================================== *)
(** ** Maintenance schedule ([maintenance.ts])                         *)
(* ================================================================== *)

Definition CLEANUP_INTERVAL_DAYS : Z := 7%Z.

(** [parseInt(s, 10)]: leading white space, an optional sign, then the
    longest run of decimal digits, trailing text ignored; the value is the
    double nearest to the integer read, [NaN] when no digit is read. *)
Definition parseInt (s : string) : JsNumber :=
  let '(neg, s0) := read_sign (trimStart s) in
  let '(v, n, _) := read_digits 0 0 s0 in
  if Nat.eqb n 0 then JsNaN else round_double (inject_Z (if neg then (- v)%Z else v)).

(** [a - b], [a / b] and [a >= b] on doubles, for a finite [a] in the
    difference and a finite, positive [b] in the quotient and the
    comparison.  A comparison with [NaN] is false. *)
Definition js_sub (a : Q) (b : JsNumber) : JsNumber :=
  match b with
  | JsNaN => JsNaN
  | JsInf negative => JsInf (negb negative)
  | JsFinite v => round_double (a - v)%Q
  end.

Definition js_div (a : JsNumber) (b : Q) : JsNumber :=
  match a with
  | JsFinite v => round_double (v / b)%Q
  | _ => a
  end.

Definition js_ge (a : JsNumber) (b : Q) : bool :=
  match a with
  | JsNaN => false
  | JsInf negative => negb negative
  | JsFinite v => Qle_bool b v
  end.

(** [available] is [isDbAvailable()], [now] the clock in whole seconds,
    [Math.floor(Date.now() / 1000)]. *)
Definition shouldRunMaintenance (available : bool) (now : Z) : M bool :=
  if negb available then ret false
  else
    try_catch
      (last <- getMetadata "last_maintenance" ;;
       match last with
       | None => ret true
       | Some s =>
           if is_empty s then ret true
           else
             let lastTs := parseInt s in
             let daysSinceLast := js_div (js_sub (inject_Z now) lastTs) (inject_Z 86400) in
             ret (js_ge daysSinceLast (inject_Z CLEANUP_INTERVAL_DAYS))
       end)
      (fun _ => ret false).

(** The clock is read once by [shouldRunMaintenance] ([now]) and once more
    by [runMaintenance] ([now']). *)
Definition maybeRunMaintenance (available : bool) (maxMemories now now' size : Z)
  : M unit :=
  should <- shouldRunMaintenance available now ;;
  if should then
    try_catch (runMaintenance maxMemories now' size ;;; ret tt) (fun _ => ret tt)
  else ret tt.

(** The test of the token filter of [sanitizeQuery] on a lower-cased word:
    longer than one character, no stop word, no operator word. *)
Definition query_word (t : string) : Prop :=
  1 < String.length t /\ ~ In t STOP_WORDS /\ ~ In t FTS5_OPERATORS.

(** The test of its fallback filter: longer than one character and, in
    whatever letter case, no operator word. *)
Definition fallback_word (t : string) : Prop :=
  1 < String.length t /\ ~ In (toLowerCase t) FTS5_OPERATORS.

(* ================================================================== *)
(** * Properties                                                       *)
(* ================================================================== *)

(** ** Strings *)

Lemma forall_string_map (p : ascii -> bool) (f : ascii -> ascii) (s : string) :
  (forall c, p (f c) = true) -> forall_string p (map_string f s) = true.
Proof.
  intros Hf. induction s as [|c s IH]; simpl; [reflexivity|].
  now rewrite Hf, IH.
Qed.

Lemma forall_string_app (p : ascii -> bool) (s t : string) :
  forall_string p (s ++ t) = forall_string p s && forall_string p t.
Proof.
  induction s as [|c s IH]; simpl; [reflexivity|].
  now rewrite IH, andb_assoc.
Qed.

Lemma forall_string_trimStart (p : ascii -> bool) (s : string) :
  forall_string p s = true -> forall_string p (trimStart s) = true.
Proof.
  induction s as [|c s IH]; simpl; [reflexivity|].
  intros H. apply andb_prop in H as [Hc Hs].
  destruct (is_ws c); [auto|]. simpl. now rewrite Hc, Hs.
Qed.

Lemma forall_string_trimEnd (p : ascii -> bool) (s : string) :
  forall_string p s = true -> forall_string p (trimEnd s) = true.
Proof.
  induction s as [|c s IH]; simpl; [reflexivity|].
  intros H. apply andb_prop in H as [Hc Hs].
  destruct (is_ws c && is_empty (trimEnd s)); [reflexivity|].
  simpl. now rewrite Hc, IH.
Qed.

Lemma forall_string_trim (p : ascii -> bool) (s : string) :
  forall_string p s = true -> forall_string p (trim s) = true.
Proof.
  intros H. unfold trim.
  now apply forall_string_trimEnd, forall_string_trimStart.
Qed.

Lemma forall_string_split_ws (p : ascii -> bool) (s : string) :
  forall_string p s = true -> Forall (fun t => forall_string p t = true) (split_ws s).
Proof.
  induction s as [|c s IH]; simpl; intros H.
  - now constructor.
  - apply andb_prop in H as [Hc Hs]. specialize (IH Hs).
    destruct (is_ws c).
    + destruct (starts_with_ws s); [assumption|]. now constructor.
    + destruct (split_ws s) as [|t ts].
      * constructor; [simpl; now rewrite Hc|constructor].
      * inversion IH; subst. constructor; [simpl; now rewrite Hc|assumption].
Qed.

Lemma forall_string_join (p : ascii -> bool) (sep : string) (xs : list string) :
  forall_string p sep = true ->
  Forall (fun t => forall_string p t = true) xs ->
  forall_string p (join sep xs) = true.
Proof.
  intros Hsep H. induction H as [|x xs Hx Hxs IH]; simpl; [reflexivity|].
  destruct xs as [|y ys]; [assumption|].
  rewrite !forall_string_app, Hx, Hsep. exact IH.
Qed.

Lemma Forall_filter (A : Type) (P : A -> Prop) (f : A -> bool) (l : list A) :
  Forall P l -> Forall P (filter f l).
Proof.
  induction 1 as [|x l Hx Hl IH]; simpl; [constructor|].
  destruct (f x); [now constructor|assumption].
Qed.

Lemma Forall_filter_pred (A : Type) (f : A -> bool) (l : list A) :
  Forall (fun x => f x = true) (filter f l).
Proof.
  induction l as [|x l IH]; simpl; [constructor|].
  destruct (f x) eqn:E; [now constructor|assumption].
Qed.

Lemma special_free_lower_replace (c : ascii) :
  negb (FTS5_SPECIAL (lower_char (if FTS5_SPECIAL c then space else c))) = true.
Proof. destruct c as [[] [] [] [] [] [] [] []]; vm_compute; reflexivity. Qed.

Lemma special_free_replace (c : ascii) :
  negb (FTS5_SPECIAL (if FTS5_SPECIAL c then space else c)) = true.
Proof. destruct c as [[] [] [] [] [] [] [] []]; vm_compute; reflexivity. Qed.

Lemma special_free_nonword (c : ascii) :
  negb (FTS5_SPECIAL (if is_word c || is_ws c then c else space)) = true.
Proof. destruct c as [[] [] [] [] [] [] [] []]; vm_compute; reflexivity. Qed.

Lemma lower_char_idem (c : ascii) :
  Ascii.eqb (lower_char (lower_char c)) (lower_char c) = true.
Proof. destruct c as [[] [] [] [] [] [] [] []]; vm_compute; reflexivity. Qed.

Lemma lower_char_ws (c : ascii) : is_ws (lower_char c) = is_ws c.
Proof. destruct c as [[] [] [] [] [] [] [] []]; vm_compute; reflexivity. Qed.

Lemma map_string_map_string (f g : ascii -> ascii) (s : string) :
  map_string f (map_string g s) = map_string (fun c => f (g c)) s.
Proof. induction s as [|c s IH]; simpl; [reflexivity|]. now rewrite IH. Qed.

Lemma map_string_fixed (f : ascii -> ascii) (s : string) :
  forall_string (fun c => Ascii.eqb (f c) c) s = true -> map_string f s = s.
Proof.
  induction s as [|c s IH]; simpl; [reflexivity|].
  intros H. apply andb_prop in H as [Hc Hs].
  apply Ascii.eqb_eq in Hc. now rewrite Hc, IH.
Qed.

Lemma toLowerCase_idem (s : string) : toLowerCase (toLowerCase s) = toLowerCase s.
Proof.
  unfold toLowerCase. apply map_string_fixed, forall_string_map.
  intros c. apply lower_char_idem.
Qed.


Lemma split_ws_pieces_ws_free (s : string) :
  Forall (fun t => ws_free t = true) (split_ws s).
Proof.
  induction s as [|c s IH]; simpl.
  - now constructor.
  - destruct (is_ws c) eqn:Ec.
    + destruct (starts_with_ws s); [assumption|]. now constructor.
    + destruct (split_ws s) as [|t ts].
      * constructor; [unfold ws_free; simpl; now rewrite Ec|constructor].
      * inversion IH; subst.
        constructor; [unfold ws_free in *; simpl; now rewrite Ec|assumption].
Qed.

Lemma split_ws_ws_free (t : string) : ws_free t = true -> split_ws t = [t].
Proof.
  unfold ws_free. induction t as [|c t IH]; simpl; [reflexivity|].
  intros H. apply andb_prop in H as [Hc Ht]. apply negb_true_iff in Hc.
  now rewrite Hc, (IH Ht).
Qed.

Lemma split_ws_app_space (t rest : string) :
  ws_free t = true -> starts_with_ws rest = false ->
  split_ws (t ++ String space rest) = t :: split_ws rest.
Proof.
  unfold ws_free. induction t as [|c t IH]; simpl; intros Ht Hr.
  - change (is_ws space) with true. cbv iota. now rewrite Hr.
  - apply andb_prop in Ht as [Hc Ht]. apply negb_true_iff in Hc.
    now rewrite Hc, (IH Ht Hr).
Qed.

Lemma starts_with_ws_app (t rest : string) :
  token_like t -> starts_with_ws (t ++ rest) = false.
Proof.
  intros [Hw He]. destruct t as [|c t]; [discriminate|].
  unfold ws_free in Hw. simpl in *. apply andb_prop in Hw as [Hc _].
  now apply negb_true_iff in Hc.
Qed.

Lemma starts_with_ws_join (xs : list string) :
  Forall token_like xs -> starts_with_ws (join " " xs) = false.
Proof.
  intros H. destruct H as [|x xs Hx Hxs]; [reflexivity|].
  simpl. destruct xs.
  - destruct Hx as [Hw He]. destruct x as [|c x]; [discriminate|].
    unfold ws_free in Hw. simpl in *. apply andb_prop in Hw as [Hc _].
    now apply negb_true_iff in Hc.
  - now apply starts_with_ws_app.
Qed.

Lemma split_ws_join (xs : list string) :
  xs <> [] -> Forall token_like xs -> split_ws (join " " xs) = xs.
Proof.
  intros Hne H. induction H as [|x xs Hx Hxs IH]; [congruence|].
  simpl. destruct xs as [|y ys].
  - apply split_ws_ws_free, Hx.
  - change (x ++ " " ++ join " " (y :: ys))%string
      with (x ++ String space (join " " (y :: ys)))%string.
    rewrite split_ws_app_space.
    + f_equal. apply IH. discriminate.
    + apply Hx.
    + now apply starts_with_ws_join.
Qed.

Lemma trimEnd_id (s : string) : last_is_ws s = false -> trimEnd s = s.
Proof.
  induction s as [|c s IH]; [reflexivity|].
  intros H. destruct s as [|d s].
  - simpl in *. now rewrite H.
  - change (last_is_ws (String c (String d s))) with (last_is_ws (String d s)) in H.
    change (trimEnd (String c (String d s)))
      with (if is_ws c && is_empty (trimEnd (String d s)) then EmptyString
            else String c (trimEnd (String d s))).
    rewrite (IH H). simpl. now rewrite andb_false_r.
Qed.

Lemma last_is_ws_app (s t : string) :
  is_empty t = false -> last_is_ws (s ++ t) = last_is_ws t.
Proof.
  intros Ht. induction s as [|c s IH]; [reflexivity|].
  simpl. destruct (s ++ t)%string as [|d u] eqn:E.
  - destruct s; simpl in E; [subst; discriminate|discriminate].
  - exact IH.
Qed.

Lemma last_is_ws_token (t : string) : ws_free t = true -> last_is_ws t = false.
Proof.
  unfold ws_free. induction t as [|c t IH]; [reflexivity|].
  simpl. intros H. apply andb_prop in H as [Hc Ht]. apply negb_true_iff in Hc.
  destruct t; [assumption|auto].
Qed.

Lemma is_empty_join (xs : list string) :
  xs <> [] -> Forall token_like xs -> is_empty (join " " xs) = false.
Proof.
  intros Hne H. destruct H as [|x xs [Hw He] Hxs]; [congruence|].
  simpl. destruct xs; [assumption|].
  destruct x; [discriminate|reflexivity].
Qed.

Lemma last_is_ws_join (xs : list string) :
  Forall token_like xs -> last_is_ws (join " " xs) = false.
Proof.
  induction 1 as [|x xs Hx Hxs IH]; [reflexivity|].
  simpl. destruct xs as [|y ys].
  - apply last_is_ws_token, Hx.
  - rewrite last_is_ws_app; [|reflexivity].
    change (" " ++ join " " (y :: ys))%string
      with (String space (join " " (y :: ys))).
    assert (E : is_empty (join " " (y :: ys)) = false)
      by (apply is_empty_join; [discriminate|assumption]).
    destruct (join " " (y :: ys)) eqn:J; [discriminate|exact IH].
Qed.

Lemma trimStart_id (s : string) : starts_with_ws s = false -> trimStart s = s.
Proof. destruct s as [|c s]; simpl; [reflexivity|]. now intros ->. Qed.

Lemma trim_join (xs : list string) :
  Forall token_like xs -> trim (join " " xs) = join " " xs.
Proof.
  intros H. unfold trim.
  rewrite trimStart_id by now apply starts_with_ws_join.
  now apply trimEnd_id, last_is_ws_join.
Qed.

Lemma token_like_length (t : string) :
  ws_free t = true -> Nat.ltb 1 (String.length t) = true -> token_like t.
Proof.
  intros Hw Hl. split; [assumption|]. now destruct t.
Qed.

(** ** Query normalizer *)

(** Runs of [sanitizeQuery]; the first three are cases of the repository's
    tests. *)
Example sanitizeQuery_tests :
  sanitizeQuery "what is the authentication" = "authentication"
  /\ sanitizeQuery "the is a" = "the is"
  /\ sanitizeQuery "JWT authentication tokens" = "jwt authentication tokens"
  /\ sanitizeQuery "test(parens) a-b" = "test parens".
Proof. vm_compute. repeat split; reflexivity. Qed.

Example split_ws_pieces : split_ws "  a  b " = [""; "a"; "b"; ""].
Proof. vm_compute. reflexivity. Qed.

(** X1. On every path, the last resort included, the output of
    [sanitizeQuery] is free of the characters of the special class. *)
Lemma sanitizeQuery_no_special (raw : string) :
  has_special_char (sanitizeQuery raw) = false.
Proof.
  unfold has_special_char. apply negb_false_iff.
  set (p := fun c => negb (FTS5_SPECIAL c)).
  unfold sanitizeQuery.
  assert (Htok : Forall (fun t => forall_string p t = true) (query_tokens raw)).
  { apply Forall_filter, forall_string_split_ws.
    unfold toLowerCase, replace_special. rewrite map_string_map_string.
    apply forall_string_map. intros c. apply special_free_lower_replace. }
  destruct (query_tokens raw) as [|t ts] eqn:E.
  - destruct (is_empty (query_fallback raw)) eqn:Ef.
    + apply forall_string_trim. unfold replace_nonword.
      apply forall_string_map. intros c. apply special_free_nonword.
    + apply forall_string_trim, forall_string_join; [reflexivity|].
      apply Forall_filter, forall_string_split_ws.
      unfold replace_special. apply forall_string_map. intros c.
      apply special_free_replace.
  - apply forall_string_join; [reflexivity|assumption].
Qed.

Lemma Forall_filter_kept (A : Type) (P Q : A -> Prop) (f : A -> bool) (l : list A) :
  Forall P l -> (forall x, P x -> f x = true -> Q x) -> Forall Q (filter f l).
Proof.
  intros H HQ. induction H as [|x l Hx Hl IH]; simpl; [constructor|].
  destruct (f x) eqn:E; [constructor; auto|assumption].
Qed.

Lemma Forall_and (A : Type) (P Q : A -> Prop) (l : list A) :
  Forall P l -> Forall Q l -> Forall (fun x => P x /\ Q x) l.
Proof.
  induction 1 as [|x l Hx Hl IH]; intros HQ; [constructor|].
  inversion HQ; subst. constructor; auto.
Qed.

Lemma query_tokens_spec (raw : string) :
  Forall (fun t => token_like t /\ is_operator_token t = false) (query_tokens raw).
Proof.
  unfold query_tokens.
  set (s := toLowerCase (replace_special raw)).
  assert (Hl : Forall (fun t => forall_string (fun c => Ascii.eqb (lower_char c) c) t = true)
                      (split_ws s)).
  { apply forall_string_split_ws. unfold s, toLowerCase.
    apply forall_string_map. intros c. apply lower_char_idem. }
  eapply Forall_filter_kept.
  - exact (Forall_and (split_ws_pieces_ws_free s) Hl).
  - intros t [Hw Hlow] E. cbv beta in *.
    apply andb_prop in E as [E Eop]. apply andb_prop in E as [Elen _].
    split; [now apply token_like_length|].
    unfold is_operator_token, toLowerCase. rewrite map_string_fixed by assumption.
    now apply negb_true_iff.
Qed.

Lemma fallback_tokens_spec (raw : string) :
  Forall (fun t => token_like t /\ is_operator_token t = false)
         (filter (fun t => Nat.ltb 1 (String.length t)
                           && negb (has FTS5_OPERATORS (toLowerCase t)))
                 (split_ws (replace_special raw))).
Proof.
  eapply Forall_filter_kept.
  - exact (split_ws_pieces_ws_free (replace_special raw)).
  - intros t Hw E. cbv beta in *. apply andb_prop in E as [Elen Eop].
    split; [now apply token_like_length|]. now apply negb_true_iff.
Qed.

Lemma no_operator_in_join (xs : list string) :
  Forall (fun t => token_like t /\ is_operator_token t = false) xs ->
  has_operator_token (join " " xs) = false.
Proof.
  intros H. destruct xs as [|x xs]; [reflexivity|].
  unfold has_operator_token. rewrite split_ws_join.
  - induction H as [|y ys [_ Hy] _ IH]; simpl; [reflexivity|]. now rewrite Hy.
  - discriminate.
  - eapply Forall_impl; [|exact H]. now intros a [Ha _].
Qed.

(** C2. The last-resort path of [sanitizeQuery] returns the residue of the
    input without filtering operator words: for the input [and] the output
    is [and], a reserved operator as a standalone token (in upper case as
    well), although it contains no special character. *)
Theorem sanitizeQuery_last_resort_keeps_operator :
  sanitizeQuery "and" = "and"
  /\ has_operator_token (sanitizeQuery "and") = true
  /\ sanitizeQuery "a OR b" = "a OR b"
  /\ has_operator_token (sanitizeQuery "a OR b") = true.
Proof. vm_compute. repeat split; reflexivity. Qed.

(** ** [normalizeText] keeps exactly the lower-cased words *)

Lemma split_ws_leading_ws (s : string) :
  starts_with_ws s = true -> exists ts, split_ws s = EmptyString :: ts.
Proof.
  induction s as [|c s IH]; simpl; [discriminate|].
  intros Hc. rewrite Hc. destruct (starts_with_ws s) eqn:E.
  - now apply IH.
  - now exists (split_ws s).
Qed.

Lemma words_ws (c : ascii) (s : string) :
  is_ws c = true -> words (String c s) = words s.
Proof.
  intros Hc. unfold words. simpl. rewrite Hc.
  destruct (starts_with_ws s); reflexivity.
Qed.

Lemma words_leading_ws (s : string) :
  starts_with_ws s = true ->
  exists ts, split_ws s = EmptyString :: ts
             /\ words s = filter (fun t => negb (is_empty t)) ts.
Proof.
  intros H. destruct (split_ws_leading_ws s H) as [ts E].
  exists ts. split; [assumption|]. unfold words. now rewrite E.
Qed.

Lemma words_trimStart (s : string) : words (trimStart s) = words s.
Proof.
  induction s as [|c s IH]; [reflexivity|].
  simpl. destruct (is_ws c) eqn:E; [|reflexivity].
  now rewrite IH, words_ws.
Qed.

Lemma starts_with_ws_trimStart (s : string) : starts_with_ws (trimStart s) = false.
Proof.
  induction s as [|c s IH]; [reflexivity|].
  simpl. destruct (is_ws c) eqn:E; [assumption|]. simpl. exact E.
Qed.

Lemma trimEnd_empty_words (s : string) :
  is_empty (trimEnd s) = is_nil (words s).
Proof.
  induction s as [|c s IH]; [reflexivity|].
  destruct (is_ws c) eqn:E.
  - rewrite words_ws by assumption. simpl. rewrite E. cbn [andb].
    rewrite <- IH. now destruct (is_empty (trimEnd s)).
  - simpl. rewrite E. cbn [andb is_empty].
    unfold words. simpl. rewrite E. now destruct (split_ws s).
Qed.

Lemma starts_with_ws_trimEnd (s : string) :
  is_empty (trimEnd s) = false -> starts_with_ws (trimEnd s) = starts_with_ws s.
Proof.
  destruct s as [|c s]; [reflexivity|].
  simpl. destruct (is_ws c && is_empty (trimEnd s)); [discriminate|reflexivity].
Qed.

Lemma join_cons_char (c : ascii) (x : string) (rest : list string) :
  String c (join " " (x :: rest)) = join " " (String c x :: rest).
Proof. destruct rest; reflexivity. Qed.

Lemma collapse_trimEnd (s : string) :
  collapse_ws (trimEnd s)
  = ((if starts_with_ws s && negb (is_nil (words s)) then " " else "")
       ++ join " " (words s))%string.
Proof.
  induction s as [|c s IH]; [reflexivity|].
  destruct (is_ws c) eqn:Ec.
  - rewrite words_ws by assumption.
    change (starts_with_ws (String c s)) with (is_ws c). rewrite Ec. cbn [andb].
    change (trimEnd (String c s))
      with (if is_ws c && is_empty (trimEnd s) then EmptyString
            else String c (trimEnd s)).
    rewrite Ec. cbn [andb]. pose proof (trimEnd_empty_words s) as Hw.
    destruct (is_empty (trimEnd s)) eqn:Ee.
    + rewrite <- Hw. cbn [negb collapse_ws]. destruct (words s); [reflexivity|discriminate].
    + rewrite <- Hw. cbn [negb]. cbn [collapse_ws]. rewrite Ec.
      rewrite (starts_with_ws_trimEnd s Ee). rewrite IH, <- Hw. cbn [negb].
      destruct (starts_with_ws s); reflexivity.
  - change (starts_with_ws (String c s)) with (is_ws c). rewrite Ec. cbn [andb].
    change (trimEnd (String c s))
      with (if is_ws c && is_empty (trimEnd s) then EmptyString
            else String c (trimEnd s)).
    rewrite Ec. cbn [andb collapse_ws]. rewrite Ec, IH.
    cbn [append]. unfold words at 3. cbn [split_ws]. rewrite Ec.
    destruct s as [|d s'].
    + reflexivity.
    + destruct (starts_with_ws (String d s')) eqn:Ed.
      * destruct (words_leading_ws (String d s') Ed) as [ts [E Ew]].
        rewrite E, Ew. cbn [filter is_empty negb andb].
        destruct (filter (fun t => negb (is_empty t)) ts); reflexivity.
      * cbn [andb append]. cbn [starts_with_ws] in Ed.
        unfold words. cbn [split_ws]. rewrite Ed.
        destruct (split_ws s') as [|t ts]; cbn [filter is_empty negb];
          apply join_cons_char.
Qed.

(** [normalizeText] is the lower-cased words joined by single spaces. *)
Lemma normalizeText_words (s : string) :
  normalizeText s = join " " (words (toLowerCase s)).
Proof.
  unfold normalizeText, trim. rewrite collapse_trimEnd.
  now rewrite starts_with_ws_trimStart, words_trimStart.
Qed.

(** Texts with the same words up to letter case have the same
    normalization: letter case, leading and trailing white space and the
    length of white-space runs do not matter. *)
Lemma normalizeText_same_words (a b : string) :
  words (toLowerCase a) = words (toLowerCase b) -> normalizeText a = normalizeText b.
Proof. intros H. now rewrite !normalizeText_words, H. Qed.

(** ** Sorting *)

Section Sorting.

Variable A : Type.
Variable leb : A -> A -> bool.

Lemma insert_by_perm (x : A) (l : list A) : Permutation (insert_by leb x l) (x :: l).
Proof.
  induction l as [|y l IH]; simpl; [reflexivity|].
  destruct (leb x y); [reflexivity|].
  rewrite IH. apply perm_swap.
Qed.

Lemma sort_by_perm (l : list A) : Permutation (sort_by leb l) l.
Proof.
  induction l as [|x l IH]; simpl; [reflexivity|].
  rewrite insert_by_perm. now constructor.
Qed.

Lemma sort_by_In (l : list A) (x : A) : In x (sort_by leb l) <-> In x l.
Proof.
  split; apply Permutation_in; [|symmetry]; apply sort_by_perm.
Qed.

Lemma sort_by_length (l : list A) : List.length (sort_by leb l) = List.length l.
Proof. apply Permutation_length, sort_by_perm. Qed.

Hypothesis leb_total : forall a b, leb a b = true \/ leb b a = true.
Hypothesis leb_trans : forall a b c, leb a b = true -> leb b c = true -> leb a c = true.

Lemma insert_by_sorted (x : A) (l : list A) :
  StronglySorted (fun a b => leb a b = true) l ->
  StronglySorted (fun a b => leb a b = true) (insert_by leb x l).
Proof.
  induction 1 as [|y l Hl IH Hy]; simpl.
  - constructor; constructor.
  - destruct (leb x y) eqn:E.
    + constructor; [now constructor|].
      constructor; [assumption|].
      eapply Forall_impl; [|exact Hy]. intros a Ha. now apply leb_trans with y.
    + constructor; [assumption|].
      assert (Hyx : leb y x = true) by (destruct (leb_total x y); congruence).
      rewrite Forall_forall in *. intros a Ha.
      apply (Permutation_in _ (insert_by_perm x l)) in Ha as [<-|Ha]; auto.
Qed.

Lemma sort_by_sorted (l : list A) :
  StronglySorted (fun a b => leb a b = true) (sort_by leb l).
Proof.
  induction l as [|x l IH]; simpl; [constructor|]. now apply insert_by_sorted.
Qed.

End Sorting.

Lemma StronglySorted_app_le (A : Type) (R : A -> A -> Prop) (l1 l2 : list A) :
  StronglySorted R (l1 ++ l2) -> forall a b, In a l1 -> In b l2 -> R a b.
Proof.
  induction l1 as [|x l1 IH]; simpl; intros H a b Ha Hb; [contradiction|].
  inversion H as [|? ? Hs Hx]; subst.
  destruct Ha as [<-|Ha].
  - rewrite Forall_forall in Hx. apply Hx, in_or_app. now right.
  - now apply IH.
Qed.

Lemma filter_length_perm (A : Type) (f : A -> bool) (l l' : list A) :
  Permutation l l' -> List.length (filter f l) = List.length (filter f l').
Proof.
  induction 1 as [|x l l' _ IH|x y l|l l' l'' _ IH1 _ IH2]; simpl.
  - reflexivity.
  - destruct (f x); simpl; now rewrite IH.
  - destruct (f x), (f y); reflexivity.
  - now rewrite IH1.
Qed.

Lemma filter_all (A : Type) (f : A -> bool) (l : list A) :
  (forall x, In x l -> f x = true) -> filter f l = l.
Proof.
  induction l as [|x l IH]; simpl; intros H; [reflexivity|].
  rewrite (H x) by now left. f_equal. apply IH. intros y Hy. apply H. now right.
Qed.

Lemma filter_none (A : Type) (f : A -> bool) (l : list A) :
  (forall x, In x l -> f x = false) -> filter f l = [].
Proof.
  induction l as [|x l IH]; simpl; intros H; [reflexivity|].
  rewrite (H x) by now left. apply IH. intros y Hy. apply H. now right.
Qed.

Lemma filter_split_length (A : Type) (f : A -> bool) (l : list A) :
  List.length (filter f l) + List.length (filter (fun x => negb (f x)) l) = List.length l.
Proof.
  induction l as [|x l IH]; simpl; [reflexivity|].
  destruct (f x); simpl; lia.
Qed.

Lemma has_In (set : list string) (t : string) : has set t = true <-> In t set.
Proof.
  unfold has. rewrite existsb_exists. split.
  - intros [x [Hin He]]. apply String.eqb_eq in He. now subst.
  - intros Hin. exists t. split; [assumption|apply String.eqb_refl].
Qed.

Lemma has_not_In (set : list string) (t : string) : has set t = false <-> ~ In t set.
Proof.
  rewrite <- has_In. destruct (has set t); split; congruence.
Qed.

Lemma NoDup_map_inj_on (A B : Type) (f : A -> B) (l : list A) (a b : A) :
  NoDup (map f l) -> In a l -> In b l -> f a = f b -> a = b.
Proof.
  induction l as [|x l IH]; simpl; intros Hnd Ha Hb Hf; [contradiction|].
  inversion Hnd as [|? ? Hx Hl]; subst.
  destruct Ha as [<-|Ha], Hb as [<-|Hb]; auto.
  - exfalso. apply Hx. rewrite Hf. now apply in_map.
  - exfalso. apply Hx. rewrite <- Hf. now apply in_map.
Qed.

Lemma In_firstn (A : Type) (n : nat) (l : list A) (x : A) :
  In x (firstn n l) -> In x l.
Proof.
  intros H. rewrite <- (firstn_skipn n l). apply in_or_app. now left.
Qed.

Lemma In_sql_limit (A : Type) (n : Z) (l : list A) (x : A) :
  In x (sql_limit n l) -> In x l.
Proof.
  unfold sql_limit. destruct (n <? 0)%Z; [trivial|apply In_firstn].
Qed.

(** [ORDER BY time_created DESC] is a total preorder. *)
Lemma by_time_created_desc_total (a b : Memory) :
  by_time_created_desc a b = true \/ by_time_created_desc b a = true.
Proof. unfold by_time_created_desc. rewrite !Z.leb_le. lia. Qed.

Lemma by_time_created_desc_trans (a b c : Memory) :
  by_time_created_desc a b = true -> by_time_created_desc b c = true ->
  by_time_created_desc a c = true.
Proof. unfold by_time_created_desc. rewrite !Z.leb_le. lia. Qed.

(** ** Store: lookup, update, links *)

Lemma find_id_NoDup (l : list Memory) (m : Memory) :
  NoDup (map id l) -> In m l -> find (fun x => String.eqb (id x) (id m)) l = Some m.
Proof.
  induction l as [|x l IH]; simpl; intros Hnd Hin; [contradiction|].
  inversion Hnd as [|? ? Hx Hl]; subst.
  destruct Hin as [->|Hin]; [now rewrite String.eqb_refl|].
  destruct (String.eqb (id x) (id m)) eqn:E; [|now apply IH].
  apply String.eqb_eq in E. exfalso. apply Hx. rewrite E. now apply in_map.
Qed.

Lemma find_id_some (i : string) (l : list Memory) (e : Memory) :
  find (fun m => String.eqb (id m) i) l = Some e -> id e = i /\ In e l.
Proof.
  intros H. apply find_some in H as [Hin He]. apply String.eqb_eq in He. auto.
Qed.

Lemma memory_exists_find (i : string) (db : Db) :
  memory_exists i db = match find (fun m => String.eqb (id m) i) (memory db) with
                       | Some _ => true
                       | None => false
                       end.
Proof.
  unfold memory_exists. induction (memory db) as [|m l IH]; simpl; [reflexivity|].
  destruct (String.eqb (id m) i); [reflexivity|exact IH].
Qed.

Lemma memory_exists_In (i : string) (db : Db) :
  memory_exists i db = true <-> In i (map id (memory db)).
Proof.
  unfold memory_exists. rewrite existsb_exists, in_map_iff. split.
  - intros [m [Hin He]]. apply String.eqb_eq in He. now exists m.
  - intros [m [He Hin]]. exists m. split; [assumption|]. now apply String.eqb_eq.
Qed.

Lemma find_map_update (i : string) (upd : Memory -> Memory) (l : list Memory) :
  (forall m, id (upd m) = id m) ->
  find (fun m => String.eqb (id m) i)
       (map (fun m => if String.eqb (id m) i then upd m else m) l)
  = option_map upd (find (fun m => String.eqb (id m) i) l).
Proof.
  intros Hid. induction l as [|m l IH]; simpl; [reflexivity|].
  destruct (String.eqb (id m) i) eqn:E.
  - now rewrite Hid, E.
  - now rewrite E.
Qed.

(** A patch with at least one field on an existing memory: the row that
    is written and the table it is written to. *)
Lemma updateMemory_fields (now : Z) (i : string) (input : UpdateInput) (db : Db)
    (e : Memory) :
  find (fun m => String.eqb (id m) i) (memory db) = Some e ->
  no_fields input = false ->
  exists db',
    updateMemory now i input db
    = (Ok (Some (set_time_updated now (apply_fields input e))), db')
    /\ find (fun m => String.eqb (id m) i) (memory db')
       = Some (set_time_updated now (apply_fields input e))
    /\ memory db'
       = map (fun m => if String.eqb (id m) i
                       then set_time_updated now (apply_fields input m) else m)
             (memory db)
    /\ map id (memory db') = map id (memory db)
    /\ memory_tags db' = memory_tags db /\ memory_links db' = memory_links db
    /\ metadata db' = metadata db.
Proof.
  intros Hf Hn. unfold updateMemory, bind, getMemory, ret. rewrite Hf, Hn.
  unfold update_memory. cbn [memory].
  rewrite find_map_update by reflexivity. rewrite Hf. cbn [option_map].
  eexists. split; [reflexivity|]. cbn [memory memory_tags memory_links metadata].
  split; [rewrite find_map_update by reflexivity; now rewrite Hf|].
  split; [reflexivity|]. split; [|repeat split].
  rewrite map_map. apply map_ext. intros m. now destruct (String.eqb (id m) i).
Qed.

(** C4 (as stated, refuted). With the empty patch [updateMemory] returns the
    existing memory as it is: [time_updated] is not set to the current
    time. *)
Lemma updateMemory_empty_patch_counterexample :
  exists m,
    updateMemory 10%Z "a" (mkUpdateInput None None None) db_ab = (Ok (Some m), db_ab)
    /\ time_updated m <> 10%Z.
Proof. exists mem_a. split; [vm_compute; reflexivity|discriminate]. Qed.

(** C4 (amended). [updateMemory] never throws.  It returns null exactly when
    no memory has the id, and then leaves the store alone.  For an existing
    memory and the empty patch it returns the memory and writes nothing.  For
    an existing memory and a patch with at least one field it stores and
    returns the memory with exactly the supplied fields among content,
    category and source replaced and with [time_updated] set to the current
    time. *)
Theorem updateMemory_spec (now : Z) (i : string) (input : UpdateInput) (db : Db) :
  match find (fun m => String.eqb (id m) i) (memory db) with
  | None => updateMemory now i input db = (Ok None, db)
  | Some e =>
      if no_fields input then updateMemory now i input db = (Ok (Some e), db)
      else
        exists m' db',
          updateMemory now i input db = (Ok (Some m'), db')
          /\ find (fun m => String.eqb (id m) i) (memory db') = Some m'
          /\ map id (memory db') = map id (memory db)
          /\ content m' = match u_content input with Some c => c | None => content e end
          /\ category m' = match u_category input with Some c => c | None => category e end
          /\ source m' = match u_source input with Some s => Some s | None => source e end
          /\ time_updated m' = now
          /\ id m' = id e /\ session_id m' = session_id e
          /\ project_id m' = project_id e /\ time_created m' = time_created e
          /\ access_count m' = access_count e
          /\ time_last_accessed m' = time_last_accessed e
  end.
Proof.
  unfold updateMemory, bind, getMemory, ret.
  destruct (find (fun m => String.eqb (id m) i) (memory db)) as [e|] eqn:Hf;
    [|reflexivity].
  destruct (no_fields input); [reflexivity|].
  unfold update_memory. cbn [memory].
  rewrite find_map_update by reflexivity. rewrite Hf. cbn [option_map].
  eexists. eexists. split; [reflexivity|].
  split.
  { cbn [memory]. rewrite find_map_update by reflexivity. now rewrite Hf. }
  split.
  { cbn [memory]. rewrite map_map. apply map_ext. intros m.
    now destruct (String.eqb (id m) i). }
  cbn. repeat split; reflexivity.
Qed.

(** C6 (as stated, refuted). Between two existing, distinct memories a
    relationship outside the allowed set does not make [addLink] return
    false: the CHECK constraint of [memory_links] aborts the insert and the
    error is raised. *)
Lemma addLink_unknown_relationship_counterexample :
  addLink "a" "b" "duplicates" db_ab
  = (Throw "CHECK constraint failed: relationship", db_ab)
  /\ fst (addLink "a" "b" "duplicates" db_ab) <> Ok false.
Proof. split; [vm_compute; reflexivity|vm_compute; discriminate]. Qed.

(** C6 (amended). [addLink] returns false, without writing, when either id
    names no memory or when source and target are equal.  Otherwise, for a
    relationship outside the allowed set the insert is rejected by the CHECK
    constraint and the error is raised, the store unchanged; for an allowed
    relationship it returns true and the store holds the edge with that
    relationship as the only row for the ordered pair, all other edges being
    kept. *)
Theorem addLink_spec (s t rel : string) (db : Db) :
  if negb (memory_exists s db && memory_exists t db) then
    addLink s t rel db = (Ok false, db)
  else if String.eqb s t then addLink s t rel db = (Ok false, db)
  else if negb (has LINK_RELATIONSHIPS rel) then
    addLink s t rel db = (Throw "CHECK constraint failed: relationship", db)
  else
    exists db',
      addLink s t rel db = (Ok true, db')
      /\ memory db' = memory db /\ memory_tags db' = memory_tags db
      /\ In (mkLink s t rel) (memory_links db')
      /\ (forall l, In l (memory_links db') ->
                    source_id l = s -> target_id l = t -> l = mkLink s t rel)
      /\ (forall l, ~ (source_id l = s /\ target_id l = t) ->
                    (In l (memory_links db') <-> In l (memory_links db))).
Proof.
  unfold addLink, bind, getMemory, ret.
  rewrite !memory_exists_find.
  destruct (find (fun m => String.eqb (id m) s) (memory db)) as [ms|] eqn:Hs;
    [|reflexivity].
  destruct (find (fun m => String.eqb (id m) t) (memory db)) as [mt|] eqn:Ht;
    [|reflexivity].
  cbn [andb negb].
  destruct (String.eqb s t) eqn:Est; [reflexivity|].
  unfold insert_or_replace_link.
  destruct (has LINK_RELATIONSHIPS rel) eqn:Hrel; cbn [negb]; [|reflexivity].
  rewrite !memory_exists_find, Hs, Ht. cbn [andb negb].
  eexists. split; [reflexivity|]. cbn [memory memory_tags memory_links].
  split; [reflexivity|]. split; [reflexivity|].
  split; [apply in_or_app; right; now left|].
  split.
  - intros l Hin Hls Hlt. apply in_app_or in Hin as [Hin|[<-|[]]]; [|reflexivity].
    apply filter_In in Hin as [_ Hk]. subst.
    now rewrite !String.eqb_refl in Hk.
  - intros l Hne. rewrite in_app_iff, filter_In. split.
    + intros [[Hin _]|[<-|[]]]; [assumption|]. exfalso. apply Hne. now split.
    + intros Hin. left. split; [assumption|].
      apply negb_true_iff, andb_false_iff.
      destruct (String.eqb (source_id l) s) eqn:E1; [|now left].
      destruct (String.eqb (target_id l) t) eqn:E2; [|now right].
      apply String.eqb_eq in E1, E2. exfalso. apply Hne. now split.
Qed.

(** ** Maintenance: the cap *)

Lemma by_cap_order_total (a b : Memory) :
  by_cap_order a b = true \/ by_cap_order b a = true.
Proof.
  unfold by_cap_order.
  destruct (Z.ltb_spec (access_count a) (access_count b)); [now left|].
  destruct (Z.ltb_spec (access_count b) (access_count a)); [now right|].
  assert (E : access_count a = access_count b) by lia. rewrite E, Z.eqb_refl.
  simpl. destruct (Z.leb_spec (time_created a) (time_created b)); [now left|].
  right. apply Z.leb_le. lia.
Qed.

Lemma by_cap_order_spec (a b : Memory) :
  by_cap_order a b = true <->
  (access_count a < access_count b
   \/ (access_count a = access_count b /\ time_created a <= time_created b))%Z.
Proof.
  unfold by_cap_order.
  rewrite orb_true_iff, andb_true_iff, Z.ltb_lt, Z.eqb_eq, Z.leb_le. tauto.
Qed.

Lemma by_cap_order_trans (a b c : Memory) :
  by_cap_order a b = true -> by_cap_order b c = true -> by_cap_order a c = true.
Proof. rewrite !by_cap_order_spec. lia. Qed.

Lemma delete_victims_rows (db : Db) (k : nat) :
  NoDup (map id (memory db)) ->
  let sorted := sort_by by_cap_order (memory db) in
  let p := fun m => has (map id (firstn k sorted)) (id m) in
  (forall m, In m (memory db) -> (p m = true <-> In m (firstn k sorted)))
  /\ List.length (filter p (memory db)) = List.length (firstn k sorted).
Proof.
  intros Hnd sorted p.
  assert (Hperm : Permutation sorted (memory db)) by apply sort_by_perm.
  assert (Hnd' : NoDup (map id sorted)).
  { eapply Permutation_NoDup; [|exact Hnd]. symmetry. now apply Permutation_map. }
  assert (Hsub : forall m, In m (firstn k sorted) -> In m sorted).
  { intros m Hm. rewrite <- (firstn_skipn k sorted). apply in_or_app. now left. }
  assert (Hp : forall m, In m sorted -> (p m = true <-> In m (firstn k sorted))).
  { intros m Hm. unfold p. rewrite has_In, in_map_iff. split.
    - intros [v [Hid Hv]].
      assert (v = m) by (eapply NoDup_map_inj_on; eauto). now subst.
    - intros Hin. now exists m. }
  split.
  - intros m Hm. apply Hp. now apply (Permutation_in _ (Permutation_sym Hperm)).
  - rewrite (filter_length_perm p (Permutation_sym Hperm)).
    rewrite <- (firstn_skipn k sorted) at 1. rewrite filter_app, length_app.
    rewrite filter_all, filter_none; [simpl; lia| |].
    + intros m Hm. destruct (p m) eqn:E; [|reflexivity].
      assert (Hms : In m sorted).
      { rewrite <- (firstn_skipn k sorted). apply in_or_app. now right. }
      apply Hp in E; [|assumption]. exfalso.
      rewrite <- (firstn_skipn k sorted) in Hnd'. rewrite map_app in Hnd'.
      apply NoDup_app_remove_l in Hnd' as Hr.
      pose proof (in_map id _ _ E) as E1. pose proof (in_map id _ _ Hm) as E2.
      clear - Hnd' E1 E2.
      induction (map id (firstn k sorted)) as [|x l IH]; [contradiction|].
      simpl in Hnd'. inversion Hnd'; subst. destruct E1 as [->|E1]; [|auto].
      apply H1, in_or_app. now right.
    + intros m Hm. apply Hp; [now apply Hsub|assumption].
Qed.

(** C8. With the primary key of [memory] in force: when [maxMemories] is
    positive and smaller than the number of memories, [enforceMaxMemories]
    deletes exactly [total - maxMemories] rows, namely the first ones in the
    order access count ascending, then creation time ascending, so exactly
    [maxMemories] rows remain, every deleted row has an access count no larger
    than every kept one and, at equal access count, is no newer; the same
    rows remain after [runMaintenance].  Otherwise nothing is deleted. *)
Theorem enforceMaxMemories_spec (maxMemories : Z) (db : Db) :
  NoDup (map id (memory db)) ->
  let total := Z.of_nat (List.length (memory db)) in
  exists n db',
    enforceMaxMemories maxMemories db = (Ok n, db')
    /\ (forall now size, exists db'',
          runMaintenance maxMemories now size db
            = (Ok (mkMaintenanceResult true 0 n size), db'')
          /\ memory db'' = memory db')
    /\ if ((0 <? maxMemories) && (maxMemories <? total))%Z then
         Z.of_nat n = (total - maxMemories)%Z
         /\ Z.of_nat (List.length (memory db')) = maxMemories
         /\ (forall m, In m (memory db') <->
                       In m (memory db) /\ ~ In m (cap_victims maxMemories db))
         /\ (forall d, In d (cap_victims maxMemories db) -> In d (memory db))
         /\ (forall d r, In d (memory db) -> ~ In d (memory db') -> In r (memory db') ->
               (access_count d <= access_count r)%Z
               /\ (access_count d = access_count r ->
                   (time_created d <= time_created r)%Z))
       else n = 0 /\ db' = db.
Proof.
  intros Hnd total.
  assert (Hmaint : forall n db',
            enforceMaxMemories maxMemories db = (Ok n, db') ->
            forall now size, exists db'',
              runMaintenance maxMemories now size db
                = (Ok (mkMaintenanceResult true 0 n size), db'')
              /\ memory db'' = memory db').
  { intros n db' E now size. unfold runMaintenance, bind, try_catch, optimizeFts, ret.
    rewrite E. unfold setMetadata. eexists. split; reflexivity. }
  unfold enforceMaxMemories in *. unfold bind, get_db, ret in *.
  destruct (Z.leb_spec maxMemories 0) as [Hle|Hpos].
  { exists 0, db. split; [reflexivity|]. split; [now apply Hmaint|].
    replace (0 <? maxMemories)%Z with false by (symmetry; apply Z.ltb_ge; lia).
    now split. }
  fold total in Hmaint |- *.
  destruct (Z.leb_spec total maxMemories) as [Hfit|Hover].
  { exists 0, db. split; [reflexivity|]. split; [now apply Hmaint|].
    replace (maxMemories <? total)%Z with false by (symmetry; apply Z.ltb_ge; lia).
    rewrite andb_false_r. now split. }
  replace (0 <? maxMemories)%Z with true by (symmetry; apply Z.ltb_lt; lia).
  replace (maxMemories <? total)%Z with true by (symmetry; apply Z.ltb_lt; lia).
  cbn [andb].
  unfold sql_limit in *.
  replace (total - maxMemories <? 0)%Z with false in *
    by (symmetry; apply Z.ltb_ge; lia).
  set (k := Z.to_nat (total - maxMemories)) in *.
  set (sorted := sort_by by_cap_order (memory db)) in *.
  set (p := fun m => has (map id (firstn k sorted)) (id m)) in *.
  destruct (delete_victims_rows db k Hnd) as [Hp Hlen].
  fold sorted in Hp, Hlen. fold p in Hp, Hlen.
  assert (Hk : List.length (firstn k sorted) = k).
  { apply firstn_length_le. unfold sorted. rewrite sort_by_length. unfold k, total. lia. }
  unfold delete_memory in *.
  eexists. eexists. split; [reflexivity|].
  split; [now apply Hmaint|].
  cbn [memory]. rewrite length_map, Hlen, Hk.
  assert (Hvict : cap_victims maxMemories db = firstn k sorted) by reflexivity.
  rewrite Hvict.
  assert (Hkept : forall m, In m (filter (fun m => negb (p m)) (memory db)) <->
                            In m (memory db) /\ ~ In m (firstn k sorted)).
  { intros m. rewrite filter_In. split.
    - intros [Hin Hn]. split; [assumption|]. intros Hc.
      apply (Hp m Hin) in Hc. apply negb_true_iff in Hn. unfold p in Hn. congruence.
    - intros [Hin Hn]. split; [assumption|]. apply negb_true_iff.
      destruct (p m) eqn:E; [|reflexivity]. exfalso. apply Hn. now apply Hp. }
  split; [unfold k; lia|].
  split.
  { pose proof (filter_split_length p (memory db)) as Hs.
    rewrite Hlen, Hk in Hs. unfold k, total in *. lia. }
  split; [exact Hkept|].
  split.
  { intros d Hd. apply (sort_by_In by_cap_order). fold sorted.
    rewrite <- (firstn_skipn k sorted). apply in_or_app. now left. }
  intros d r Hd Hnd' Hr.
  apply Hkept in Hr as [Hr Hrv].
  assert (Hdv : In d (firstn k sorted)).
  { destruct (p d) eqn:E; [now apply Hp|]. exfalso. apply Hnd'.
    apply filter_In. split; [assumption|]. now rewrite E. }
  assert (Hrs : In r (skipn k sorted)).
  { apply (sort_by_In by_cap_order) in Hr. fold sorted in Hr.
    rewrite <- (firstn_skipn k sorted) in Hr. apply in_app_or in Hr as [Hr|Hr];
      [contradiction|assumption]. }
  assert (Hord : by_cap_order d r = true).
  { eapply (@StronglySorted_app_le _ (fun a b => by_cap_order a b = true));
      [|exact Hdv|exact Hrs].
    rewrite firstn_skipn. apply sort_by_sorted.
    - apply by_cap_order_total.
    - apply by_cap_order_trans. }
  apply by_cap_order_spec in Hord. lia.
Qed.

(** Scenario 6 of the specification: five memories, a cap of three. *)
Lemma enforceMaxMemories_spec_witness :
  NoDup (map id (memory db_five))
  /\ exists n db',
       enforceMaxMemories 3 db_five = (Ok n, db')
       /\ n = 2 /\ map id (memory db') = ["m2"; "m4"; "m5"].
Proof.
  assert (Hnd : NoDup (map id (memory db_five))).
  { repeat (constructor; [simpl; intuition discriminate|]). constructor. }
  split; [exact Hnd|].
  destruct (enforceMaxMemories_spec 3 db_five Hnd) as [n [db' [E _]]].
  exists n, db'. split; [exact E|].
  vm_compute in E. inversion E; subst. split; reflexivity.
Defined.

(** ** Doubles: rounding to nearest, ties to even *)

Unset Implicit Arguments.
Local Open Scope Q_scope.

Lemma Qlt_bool_iff (a b : Q) : Qlt_bool a b = true <-> a < b.
Proof.
  unfold Qlt_bool. rewrite negb_true_iff. split.
  - intros H. apply Qnot_le_lt. intros Hle. apply Qle_bool_iff in Hle. congruence.
  - intros H. destruct (Qle_bool b a) eqn:E; [|reflexivity].
    apply Qle_bool_iff in E. exfalso. now apply (Qlt_not_le a b).
Qed.

Lemma pow2_pos (e : Z) : 0 < pow2 e.
Proof. apply Qpower_0_lt. reflexivity. Qed.

Lemma pow2_plus (a b : Z) : pow2 (a + b) == pow2 a * pow2 b.
Proof. apply Qpower_plus. discriminate. Qed.

Lemma pow2_le (a b : Z) : (a <= b)%Z -> pow2 a <= pow2 b.
Proof. intros H. apply Qpower_le_compat_l; [exact H|discriminate]. Qed.

Lemma pow2_lt (a b : Z) : (a < b)%Z -> pow2 a < pow2 b.
Proof. intros H. apply Qpower_lt_compat_l; [exact H|reflexivity]. Qed.

Lemma pow2_Z (e : Z) : (0 <= e)%Z -> pow2 e == inject_Z (2 ^ e).
Proof. intros H. unfold pow2. now rewrite Zpower_Qpower. Qed.

Lemma pow2_succ (e : Z) : pow2 (e + 1) == 2 * pow2 e.
Proof. rewrite pow2_plus. change (pow2 1) with 2. ring. Qed.

Lemma pow2_split (e k : Z) : (0 <= k)%Z -> pow2 e == inject_Z (2 ^ k) * pow2 (e - k).
Proof.
  intros Hk. rewrite <- pow2_Z by exact Hk. rewrite <- pow2_plus.
  replace (k + (e - k))%Z with e by lia. reflexivity.
Qed.

(** The binade of a positive rational. *)
Lemma binade_spec (a : Q) : 0 < a -> pow2 (binade a) <= a /\ a < pow2 (binade a + 1).
Proof.
  intros Ha. destruct a as [n d]. unfold Qlt in Ha. cbn in Ha.
  assert (Hn : (0 < n)%Z) by lia.
  unfold binade. cbn [Qnum Qden].
  set (ln := Z.log2 n). set (ld := Z.log2 (Zpos d)).
  pose proof (Z.log2_spec n Hn) as [Hn1 Hn2]. fold ln in Hn1, Hn2.
  pose proof (Z.log2_spec (Zpos d) eq_refl) as [Hd1 Hd2]. fold ld in Hd1, Hd2.
  assert (Hln : (0 <= ln)%Z) by apply Z.log2_nonneg.
  assert (Hld : (0 <= ld)%Z) by apply Z.log2_nonneg.
  assert (HP : (0 < 2 ^ ln)%Z) by (apply Z.pow_pos_nonneg; lia).
  assert (HD : (0 < 2 ^ ld)%Z) by (apply Z.pow_pos_nonneg; lia).
  rewrite Z.pow_succ_r in Hn2, Hd2 by assumption.
  set (P := (2 ^ ln)%Z) in *. set (D := (2 ^ ld)%Z) in *.
  assert (Ee : pow2 (ln - ld) == P # Z.to_pos D).
  { unfold pow2. rewrite Qpower_minus by discriminate.
    rewrite (Qmake_Qdiv P (Z.to_pos D)), Z2Pos.id by exact HD.
    unfold P, D. rewrite !Zpower_Qpower by assumption. reflexivity. }
  assert (Hup : n # d < 2 * pow2 (ln - ld)).
  { rewrite Ee. unfold Qlt, Qmult. cbn [Qnum Qden].
    rewrite Pos2Z.inj_mul, Z2Pos.id by exact HD. nia. }
  assert (Hlow : (1 # 2) * pow2 (ln - ld) <= n # d).
  { rewrite Ee. unfold Qle, Qmult. cbn [Qnum Qden].
    rewrite Pos2Z.inj_mul, Z2Pos.id by exact HD. nia. }
  destruct (Qle_bool (pow2 (ln - ld)) (n # d)) eqn:Et.
  - apply Qle_bool_iff in Et. split; [exact Et|]. now rewrite pow2_succ.
  - assert (Hlt : n # d < pow2 (ln - ld)).
    { apply Qnot_le_lt. intros H. apply Qle_bool_iff in H. congruence. }
    replace (ln - ld - 1 + 1)%Z with (ln - ld)%Z by lia. split; [|exact Hlt].
    assert (E : pow2 (ln - ld) == 2 * pow2 (ln - ld - 1)).
    { rewrite <- pow2_succ. now replace (ln - ld - 1 + 1)%Z with (ln - ld)%Z by lia. }
    rewrite E in Hlow. Lqa.lra.
Qed.

Lemma binade_ge (a : Q) (e : Z) : 0 < a -> pow2 e <= a -> (e <= binade a)%Z.
Proof.
  intros Ha He. destruct (binade_spec a Ha) as [_ Hup].
  destruct (Z.le_gt_cases e (binade a)) as [H|H]; [exact H|]. exfalso.
  assert (pow2 (binade a + 1) <= pow2 e) by (apply pow2_le; lia). Lqa.lra.
Qed.

Lemma binade_le (a : Q) (e : Z) : 0 < a -> a < pow2 (e + 1) -> (binade a <= e)%Z.
Proof.
  intros Ha He. destruct (binade_spec a Ha) as [Hlow _].
  destruct (Z.le_gt_cases (binade a) e) as [H|H]; [exact H|]. exfalso.
  assert (pow2 (e + 1) <= pow2 (binade a)) by (apply pow2_le; lia). Lqa.lra.
Qed.

Lemma inject_Z_pred (k : Z) : inject_Z (k - 1) == inject_Z k - 1.
Proof. unfold Z.sub. rewrite inject_Z_plus. reflexivity. Qed.

(** Rounding to the nearest integer, ties to even. *)
Lemma round_half_even_le (y : Q) (k : Z) : y <= inject_Z k -> (round_half_even y <= k)%Z.
Proof.
  intros H. unfold round_half_even.
  pose proof (Qfloor_le y) as Hf. pose proof (Qlt_floor y) as Hc.
  rewrite inject_Z_plus in Hc. change (inject_Z 1) with 1 in Hc.
  assert (Hfk : (Qfloor y <= k)%Z) by (rewrite Zle_Qle; Lqa.lra).
  destruct (Z.eq_dec (Qfloor y) k) as [E|E].
  - assert (Hy : y == inject_Z k) by (rewrite E in Hf; Lqa.lra).
    destruct (Qcompare_spec (y - inject_Z (Qfloor y)) (1 # 2)) as [H1|H1|H1];
      rewrite E in *; try lia; Lqa.lra.
  - assert ((Qfloor y + 1 <= k)%Z) by lia.
    destruct (Qcompare (y - inject_Z (Qfloor y)) (1 # 2)); [destruct (Z.even _)| |]; lia.
Qed.

Lemma round_half_even_ge (y : Q) (k : Z) : inject_Z k <= y -> (k <= round_half_even y)%Z.
Proof.
  intros H. unfold round_half_even.
  assert (Hfk : (k <= Qfloor y)%Z).
  { rewrite <- (Qfloor_Z k). now apply Qfloor_resp_le. }
  destruct (Qcompare (y - inject_Z (Qfloor y)) (1 # 2)); [destruct (Z.even _)| |]; lia.
Qed.

Lemma round_half_even_below (y : Q) (k : Z) :
  y < inject_Z k - (1 # 2) -> (round_half_even y <= k - 1)%Z.
Proof.
  intros H. unfold round_half_even.
  pose proof (Qfloor_le y) as Hf. pose proof (Qlt_floor y) as Hc.
  rewrite inject_Z_plus in Hc. change (inject_Z 1) with 1 in Hc.
  assert (Hfk : (Qfloor y <= k - 1)%Z).
  { assert (Qfloor y < k)%Z; [|lia]. rewrite Zlt_Qlt. Lqa.lra. }
  destruct (Z.eq_dec (Qfloor y) (k - 1)) as [E|E].
  - destruct (Qcompare_spec (y - inject_Z (Qfloor y)) (1 # 2)) as [H1|H1|H1];
      rewrite E in *; try lia; rewrite inject_Z_pred in H1; Lqa.lra.
  - destruct (Qcompare (y - inject_Z (Qfloor y)) (1 # 2)); [destruct (Z.even _)| |]; lia.
Qed.

Lemma round_half_even_above (y : Q) (k : Z) :
  Z.even k = true -> inject_Z k - (1 # 2) <= y -> (k <= round_half_even y)%Z.
Proof.
  intros Hev H. unfold round_half_even.
  pose proof (Qfloor_le y) as Hf. pose proof (Qlt_floor y) as Hc.
  rewrite inject_Z_plus in Hc. change (inject_Z 1) with 1 in Hc.
  assert (Hfk : (k - 1 <= Qfloor y)%Z).
  { assert (k - 1 < Qfloor y + 1)%Z; [|lia]. rewrite Zlt_Qlt.
    rewrite inject_Z_pred, inject_Z_plus. change (inject_Z 1) with 1 in *. Lqa.lra. }
  destruct (Z.eq_dec (Qfloor y) (k - 1)) as [E|E].
  - assert (Hodd : Z.even (Qfloor y) = false).
    { rewrite E. rewrite Z.even_sub. rewrite Hev. reflexivity. }
    destruct (Qcompare_spec (y - inject_Z (Qfloor y)) (1 # 2)) as [H1|H1|H1].
    + rewrite Hodd. lia.
    + exfalso. rewrite E, inject_Z_pred in H1. Lqa.lra.
    + lia.
  - assert (Hge : (k <= Qfloor y)%Z) by lia.
    destruct (Qcompare (y - inject_Z (Qfloor y)) (1 # 2)); [destruct (Z.even (Qfloor y))| |]; lia.
Qed.

Lemma div_lt_r (a u c : Q) : 0 < u -> a < c * u -> a / u < c.
Proof. intros Hu H. now apply Qlt_shift_div_r. Qed.

Lemma div_le_l (a u c : Q) : 0 < u -> c * u <= a -> c <= a / u.
Proof. intros Hu H. now apply Qle_shift_div_l. Qed.

Lemma pow2_52 (e : Z) : pow2 e == inject_Z (2 ^ 52) * pow2 (e - 52).
Proof. apply pow2_split. lia. Qed.

Lemma pow2_53 (e : Z) : pow2 (e + 1) == inject_Z (2 ^ 53) * pow2 (e - 52).
Proof.
  rewrite (pow2_split (e + 1) 53) by lia.
  now replace (e + 1 - 53)%Z with (e - 52)%Z by lia.
Qed.

Lemma pow2_half (e : Z) : pow2 (e - 52) == 2 * pow2 (e - 53).
Proof. rewrite <- pow2_succ. now replace (e - 53 + 1)%Z with (e - 52)%Z by lia. Qed.

(** The rounding of a positive rational against a double [K * 2^(t-52)]
    with an even significand inside its binade: the result is below it
    exactly when the rational is below the midpoint to its predecessor. *)
Lemma round_core (t K : Z) (a : Q) :
  (-1022 <= t)%Z -> (2 ^ 52 < K < 2 ^ 53)%Z -> Z.even K = true ->
  0 < a ->
  let e := Z.max (binade a) (-1022) in
  let u := pow2 (e - 52) in
  inject_Z (round_half_even (a / u)) * u < inject_Z K * pow2 (t - 52)
  <-> a < inject_Z K * pow2 (t - 52) - pow2 (t - 53).
Proof.
  intros Ht [HK1 HK2] Hev Ha e u.
  set (k := inject_Z K). set (U := pow2 (t - 52)). set (h := pow2 (t - 53)).
  set (m := round_half_even (a / u)).
  assert (HU : 0 < U) by apply pow2_pos.
  assert (Hu : 0 < u) by apply pow2_pos.
  assert (HUh : U == 2 * h) by apply pow2_half.
  assert (Hk1 : inject_Z (2 ^ 52) + 1 <= k).
  { unfold k. change 1 with (inject_Z 1). rewrite <- inject_Z_plus, <- Zle_Qle. lia. }
  assert (Hk2 : k <= inject_Z (2 ^ 53) - 1).
  { unfold k. rewrite <- inject_Z_pred, <- Zle_Qle. lia. }
  set (c52 := inject_Z (2 ^ 52)) in *. set (c53 := inject_Z (2 ^ 53)) in *.
  assert (Hc : c53 == 2 * c52) by reflexivity.
  assert (Hc0 : 0 < c52) by reflexivity.
  destruct (binade_spec a Ha) as [Hlow Hup].
  assert (Hpt : pow2 t == c52 * U) by apply pow2_52.
  assert (Hpt1 : pow2 (t + 1) == c53 * U) by apply pow2_53.
  assert (Hpe : pow2 e == c52 * u) by apply pow2_52.
  assert (Hpe1 : pow2 (e + 1) == c53 * u) by apply pow2_53.
  assert (HeE : (binade a <= e)%Z) by (unfold e; lia).
  assert (Hae : a < pow2 (e + 1)).
  { eapply Qlt_le_trans; [exact Hup|]. apply pow2_le. lia. }
  split.
  - (* the rounded value is below T: so is the rational, below the midpoint *)
    intros Hr. apply Qnot_le_lt. intros Hge.
    assert (HtE : (t <= binade a)%Z).
    { apply binade_ge; [exact Ha|]. rewrite Hpt. Lqa.nra. }
    assert (Ee : e = binade a) by (unfold e; lia).
    destruct (Z.eq_dec e t) as [Het|Het].
    + assert (Eu : u = U) by (unfold u, U; now rewrite Het).
      assert (Hm : (K <= m)%Z).
      { apply round_half_even_above; [exact Hev|]. apply div_le_l; [exact Hu|].
        fold k. rewrite Eu. Lqa.nra. }
      rewrite Zle_Qle in Hm. fold k in Hm. rewrite Eu in Hr. Lqa.nra.
    + assert (Hm : (2 ^ 52 <= m)%Z).
      { apply round_half_even_ge. apply div_le_l; [exact Hu|].
        fold c52. rewrite <- Hpe, Ee. exact Hlow. }
      rewrite Zle_Qle in Hm. fold c52 in Hm.
      assert (Hle : pow2 (t + 1) <= pow2 e) by (apply pow2_le; lia).
      Lqa.nra.
  - intros Hlt.
    assert (HEt : (binade a <= t)%Z).
    { apply binade_le; [exact Ha|]. rewrite Hpt1. Lqa.nra. }
    assert (Het : (e <= t)%Z) by (unfold e; lia).
    destruct (Z.eq_dec e t) as [Heq|Hne].
    + assert (Eu : u = U) by (unfold u, U; now rewrite Heq).
      assert (Hm : (m <= K - 1)%Z).
      { apply round_half_even_below. apply div_lt_r; [exact Hu|].
        fold k. rewrite Eu. Lqa.nra. }
      rewrite Zle_Qle, inject_Z_pred in Hm. fold k in Hm. rewrite Eu. Lqa.nra.
    + assert (Hm : (m <= 2 ^ 53)%Z).
      { apply round_half_even_le. apply Qlt_le_weak. apply div_lt_r; [exact Hu|].
        fold c53. now rewrite <- Hpe1. }
      rewrite Zle_Qle in Hm. fold c53 in Hm.
      assert (Hle : pow2 (e + 1) <= pow2 t) by (apply pow2_le; lia).
      Lqa.nra.
Qed.

Lemma round_half_even_nonneg (y : Q) : 0 <= y -> (0 <= round_half_even y)%Z.
Proof. intros H. now apply round_half_even_ge. Qed.

Lemma Qlt_bool_comp (a a' b b' : Q) : a == a' -> b == b' -> Qlt_bool a b = Qlt_bool a' b'.
Proof.
  intros Ha Hb. apply eq_true_iff_eq. rewrite !Qlt_bool_iff. now rewrite Ha, Hb.
Qed.

(** [round_double] against a double [K * 2^(t-52)], [K] even and inside
    the binade: a rational rounds to a finite double of smaller magnitude
    exactly when its magnitude is below the midpoint between that double
    and its predecessor. *)
Lemma round_double_below (t K : Z) (x : Q) :
  (-1022 <= t <= 1023)%Z -> (2 ^ 52 < K < 2 ^ 53)%Z -> Z.even K = true ->
  js_abs_lt (round_double x) (inject_Z K * pow2 (t - 52)) = true
  <-> Qabs x < inject_Z K * pow2 (t - 52) - pow2 (t - 53).
Proof.
  intros [Ht1 Ht2] HK Hev.
  set (T := inject_Z K * pow2 (t - 52)). set (h := pow2 (t - 53)).
  assert (HU : 0 < pow2 (t - 52)) by apply pow2_pos.
  assert (Hh : 0 < h) by apply pow2_pos.
  assert (HUh : pow2 (t - 52) == 2 * h) by apply pow2_half.
  assert (Hk1 : inject_Z (2 ^ 52) + 1 <= inject_Z K).
  { change 1 with (inject_Z 1). rewrite <- inject_Z_plus, <- Zle_Qle. lia. }
  assert (Hk2 : inject_Z K <= inject_Z (2 ^ 53) - 1).
  { rewrite <- inject_Z_pred, <- Zle_Qle. lia. }
  assert (Hc0 : 0 < inject_Z (2 ^ 52)) by reflexivity.
  assert (Hc : inject_Z (2 ^ 53) == 2 * inject_Z (2 ^ 52)) by reflexivity.
  assert (HTpos : 0 < T - h) by (unfold T; Lqa.nra).
  assert (HTmax : T < pow2 1024).
  { apply Qlt_le_trans with (pow2 (t + 1)); [|apply pow2_le; lia].
    rewrite pow2_53. unfold T. Lqa.nra. }
  unfold round_double.
  pose proof (Qred_correct x) as Hq. set (q := Qred x) in *.
  assert (Habs : Qabs x == Qabs q) by now rewrite Hq.
  destruct (Qeq_bool q 0) eqn:E0.
  - apply Qeq_bool_iff in E0. cbn [js_abs_lt]. rewrite Qlt_bool_iff.
    rewrite Habs, E0. change (Qabs 0) with 0. split; intros _; [exact HTpos|Lqa.lra].
  - assert (Ha : 0 < Qabs q).
    { destruct (Qlt_le_dec 0 (Qabs q)) as [H|H]; [exact H|]. exfalso.
      pose proof (Qabs_nonneg q) as Hn.
      assert (Hz : Qabs q == 0) by Lqa.lra.
      assert (q == 0).
      { revert Hz. apply Qabs_case; intros; Lqa.lra. }
      apply Qeq_bool_iff in H0. congruence. }
    pose proof (round_core t K (Qabs q) Ht1 HK Hev Ha) as Hcore. cbv zeta in Hcore.
    fold T h in Hcore.
    set (u := pow2 (Z.max (binade (Qabs q)) (-1022) - 52)) in *.
    set (m := round_half_even (Qabs q / u)) in *.
    assert (Hu : 0 < u) by apply pow2_pos.
    assert (Hm : (0 <= m)%Z).
    { apply round_half_even_nonneg. apply Qlt_le_weak.
      apply Qlt_shift_div_l; [exact Hu|]. Lqa.lra. }
    rewrite Zle_Qle in Hm. change (inject_Z 0) with 0 in Hm.
    pose proof (Qred_correct (inject_Z m * u)) as Hr.
    set (r := Qred (inject_Z m * u)) in *.
    assert (Hr0 : 0 <= r) by (rewrite Hr; Lqa.nra).
    rewrite Habs, <- Hcore, <- Hr.
    destruct (Qle_bool (pow2 1024) r) eqn:Eo.
    + apply Qle_bool_iff in Eo. cbn [js_abs_lt]. split; [discriminate|]. Lqa.lra.
    + cbn [js_abs_lt]. rewrite Qlt_bool_iff.
      assert (Er : Qabs (if Qlt_bool q 0 then - r else r) == r).
      { destruct (Qlt_bool q 0); [rewrite Qabs_opp|]; now apply Qabs_pos. }
      now rewrite Er.
Qed.



Local Close Scope Q_scope.
Set Implicit Arguments.

(** ** Decimal numerals: what [read_digits] reads *)

Unset Implicit Arguments.
Local Open Scope Z_scope.

Lemma digit_of_D (k : nat) :
  (k <= 9)%nat -> digit_of (ascii_of_nat (48 + k)) = Some (Z.of_nat k).
Proof.
  intros H. unfold digit_of. rewrite nat_ascii_embedding by lia.
  replace (Nat.leb 48 (48 + k)) with true by (symmetry; apply Nat.leb_le; lia).
  replace (Nat.leb (48 + k) 57) with true by (symmetry; apply Nat.leb_le; lia).
  cbn [andb]. do 2 f_equal. lia.
Qed.

Lemma read_digits_stop (acc : Z) (n : nat) (rest : string) :
  (forall c r, rest = String c r -> digit_of c = None) ->
  read_digits acc n rest = (acc, n, rest).
Proof.
  intros H. destruct rest as [|c r]; [reflexivity|].
  cbn [read_digits]. now rewrite (H c r eq_refl).
Qed.

(** The digits of a decimal numeral, read on top of a positive value. *)
Lemma read_digits_acc (d : Decimal.uint) (p : positive) (n : nat) (rest : string) :
  (forall c r, rest = String c r -> digit_of c = None) ->
  read_digits (Zpos p) n (NilEmpty.string_of_uint d ++ rest)
  = (Zpos (Pos.of_uint_acc d p), (n + Decimal.nb_digits d)%nat, rest).
Proof.
  intros Hrest. revert p n.
  induction d; intros p n; cbn [NilEmpty.string_of_uint append read_digits].
  1: now rewrite Nat.add_0_r, read_digits_stop.
  all: match goal with |- context [digit_of ?c] =>
         let k := eval vm_compute in (nat_of_ascii c - 48)%nat in
         change c with (ascii_of_nat (48 + k));
         rewrite (digit_of_D k) by lia
       end.
  all: cbn [Pos.of_uint_acc Decimal.nb_digits].
  all: match goal with |- read_digits ?a _ _ = (Zpos (Pos.of_uint_acc _ ?q), _, _) =>
         replace a with (Zpos q) by lia
       end.
  all: rewrite IHd; f_equal; f_equal; lia.
Qed.

(** The digits of a decimal numeral, read from zero. *)
Lemma read_digits_uint (d : Decimal.uint) (n : nat) (rest : string) :
  (forall c r, rest = String c r -> digit_of c = None) ->
  read_digits 0 n (NilEmpty.string_of_uint d ++ rest)
  = (Z.of_N (Pos.of_uint d), (n + Decimal.nb_digits d)%nat, rest).
Proof.
  intros Hrest. revert n.
  induction d; intros n; cbn [NilEmpty.string_of_uint append read_digits].
  1: now rewrite Nat.add_0_r, read_digits_stop.
  all: match goal with |- context [digit_of ?c] =>
         let k := eval vm_compute in (nat_of_ascii c - 48)%nat in
         change c with (ascii_of_nat (48 + k));
         rewrite (digit_of_D k) by lia
       end.
  all: cbn [Pos.of_uint Decimal.nb_digits Z.mul Z.add Z.of_nat Pos.of_succ_nat
            Pos.succ Z.of_N].
  1: rewrite IHd; f_equal; f_equal; lia.
  all: rewrite read_digits_acc by exact Hrest; f_equal; f_equal; lia.
Qed.

Lemma append_empty_r (s : string) : (s ++ "")%string = s.
Proof. induction s as [|c s IH]; simpl; [reflexivity|now rewrite IH]. Qed.

Lemma nb_digits_pos (d : Decimal.uint) : d <> Decimal.Nil -> (0 < Decimal.nb_digits d)%nat.
Proof. destruct d; simpl; intros H; try lia. now elim H. Qed.

(** A numeral starts with a digit: no white space, no sign, no letter. *)
Lemma string_of_uint_head (d : Decimal.uint) :
  d <> Decimal.Nil ->
  exists c s, NilEmpty.string_of_uint d = String c s
              /\ is_ws c = false /\ Ascii.eqb c "-"%char = false
              /\ Ascii.eqb c "+"%char = false /\ Ascii.eqb c "I"%char = false.
Proof.
  destruct d; intros H; [now elim H| | | | | | | | | |];
    eexists; eexists; (split; [reflexivity|]); repeat split; vm_compute; reflexivity.
Qed.


Local Close Scope Z_scope.
Set Implicit Arguments.

(** ** File freshness *)

Lemma opt_string_eqb_eq (a b : option string) : opt_string_eqb a b = true <-> a = b.
Proof.
  destruct a as [x|], b as [y|]; simpl; try (split; congruence).
  rewrite String.eqb_eq. split; congruence.
Qed.





Unset Implicit Arguments.

(** ** File freshness: the stored fingerprint *)










Lemma round_double_comp (p q : Q) : (p == q)%Q -> round_double p = round_double q.
Proof. intros H. unfold round_double. now rewrite (Qred_complete p q H). Qed.




(** Scenario 5 of the specification on [db_file]: same mtime, fresh; two
    seconds later, stale; another project, no memory.  Then the rounding of
    the difference: against the current mtime 1000, a stored mtime of 1e-13
    is fresh and one of 1e-14 is stale, the difference rounding to 1000. *)
Example checkFileFreshness_scenario :
  fst (checkFileFreshness true "/tmp/x.md" "p1"
         (mkFingerprint None (17000000000005 # 10)) db_file)
    = Ok (Some (mkFreshness true mem_file "# notes"))
  /\ fst (checkFileFreshness true "/tmp/x.md" "p1"
            (mkFingerprint None (17000000020005 # 10)) db_file)
       = Ok (Some (mkFreshness false mem_file "# notes"))
  /\ fst (checkFileFreshness true "/tmp/X.md" "p2"
            (mkFingerprint None (17000000000005 # 10)) db_file)
       = Ok None
  /\ fst (checkFileFreshness true "/tmp/x.md" "p1" (mkFingerprint None 1000)
            (db_tagged ["mtime:0.0000000000001"]))
       = Ok (Some (mkFreshness true mem_file "# notes"))
  /\ fst (checkFileFreshness true "/tmp/x.md" "p1" (mkFingerprint None 1000)
            (db_tagged ["mtime:0.00000000000001"]))
       = Ok (Some (mkFreshness false mem_file "# notes"))
  /\ fst (checkFileFreshness true "/tmp/x.md" "p1" (mkFingerprint (Some "abc123") 0)
            (db_tagged ["git:abc123"; "mtime:5"]))
       = Ok (Some (mkFreshness true mem_file "# notes")).
Proof. vm_compute. repeat split; reflexivity. Qed.

Set Implicit Arguments.

(** ** Duplicates and insert *)

Unset Implicit Arguments.

Section Dedup.

Variable fts5 : string -> list FtsRow -> option (FtsRow -> option Q).

Lemma findDuplicate_reads (c : string) (pid : option string) (db : Db) :
  exists r, findDuplicate fts5 c pid db = (Ok r, db).
Proof.
  unfold findDuplicate, bind, get_db, try_catch, ret.
  destruct (find _ (dedup_candidates pid db)); [eauto|].
  destruct (dedup_query c) as [q|]; [|eauto].
  unfold fts_select. destruct (fts_rows fts5 q (in_scope pid) 5 db) as [rows|]; [|eauto].
  destruct (find _ rows); eauto.
Qed.

Lemma findDuplicate_exact (c : string) (pid : option string) (db : Db) (m : Memory) :
  find (same_text (normalizeText c)) (dedup_candidates pid db) = Some m ->
  findDuplicate fts5 c pid db = (Ok (Some (exact, m)), db).
Proof.
  intros H. unfold findDuplicate, bind, get_db, ret. now rewrite H.
Qed.


Lemma fts_rows_In (q : string) (keep : Memory -> bool) (lim : Z) (db : Db)
    (rows : list (Memory * Q)) (r : Memory * Q) :
  fts_rows fts5 q keep lim db = Some rows -> In r rows ->
  In (fst r) (memory db) /\ keep (fst r) = true.
Proof.
  unfold fts_rows. destruct (fts5 q (memory_fts db)) as [score|]; [|discriminate].
  intros E Hin. inversion E; subst. clear E.
  apply In_sql_limit, sort_by_In, filter_In in Hin as [Hin Hk].
  split; [|assumption].
  apply in_flat_map in Hin as [f [_ Hin]].
  destruct (score f); [|contradiction].
  apply in_map_iff in Hin as [m [<- Hm]]. now apply filter_In in Hm.
Qed.

Lemma valid_content_checks (c : string) :
  valid_content c = true ->
  is_empty c || Nat.eqb (String.length (trim c)) 0 = false
  /\ (MAX_MEMORY_CONTENT_LENGTH <? Z.of_nat (String.length c))%Z = false.
Proof.
  unfold valid_content. intros H. apply andb_prop in H as [H1 H2].
  now apply negb_true_iff in H1, H2.
Qed.

(** An insert that finds an exact duplicate returns it and writes nothing. *)
Lemma storeMemory_exact (uuid : string) (now : Z) (input : StoreInput) (db : Db)
    (m : Memory) :
  valid_content (s_content input) = true ->
  force input = false ->
  find (same_text (normalizeText (s_content input)))
       (dedup_candidates (store_scope input) db) = Some m ->
  storeMemory fts5 uuid now input db = (Ok m, db).
Proof.
  intros Hv Hf Hm. apply valid_content_checks in Hv as [Hv1 Hv2].
  unfold storeMemory. rewrite Hv1, Hv2, Hf. unfold bind.
  now rewrite (findDuplicate_exact _ _ _ _ Hm).
Qed.

Lemma insert_tags_ok (mid : string) (ts : list string) (db : Db) :
  memory_exists mid db = true ->
  exists db',
    for_each (fun t => insert_tag mid (norm_tag t)) ts db = (Ok tt, db')
    /\ memory db' = memory db /\ memory_links db' = memory_links db
    /\ memory_fts db' = memory_fts db /\ metadata db' = metadata db
    /\ (forall r, In r (memory_tags db') ->
                  In r (memory_tags db) \/ memory_id r = mid).
Proof.
  revert db. induction ts as [|t ts IH]; intros db Hex.
  - exists db. simpl. unfold ret. repeat split; auto.
  - simpl. unfold bind. unfold insert_tag at 1.
    destruct (existsb _ (memory_tags db)).
    + apply IH, Hex.
    + rewrite Hex. cbn [negb]. cbv beta iota.
      match goal with |- context [for_each _ ts ?d] =>
        destruct (IH d Hex) as [db' [E [H1 [H2 [H3 [H4 H5]]]]]] end.
      exists db'. rewrite E. repeat split; auto.
      intros r Hr. apply H5 in Hr as [Hr|Hr]; [|now right].
      cbn [memory_tags] in Hr. apply in_app_or in Hr as [Hr|[<-|[]]]; auto.
Qed.

Lemma storeMemory_insert (uuid : string) (now : Z) (input : StoreInput) (db : Db) :
  valid_content (s_content input) = true ->
  (force input = true
   \/ findDuplicate fts5 (s_content input) (store_scope input) db = (Ok None, db)) ->
  memory_exists uuid db = false ->
  exists db',
    storeMemory fts5 uuid now input db = (Ok (new_row uuid now input), db')
    /\ memory db' = memory db ++ [new_row uuid now input]
    /\ memory_fts db' = memory_fts db ++ [fts_of (new_row uuid now input)]
    /\ memory_links db' = memory_links db.
Proof.
  intros Hv Hdup Hfresh. apply valid_content_checks in Hv as [Hv1 Hv2].
  unfold storeMemory. rewrite Hv1, Hv2. unfold bind at 1.
  assert (E : (if force input then ret None
               else findDuplicate fts5 (s_content input) (store_scope input)) db
              = (Ok None, db)).
  { destruct Hdup as [->|Hd]; [reflexivity|]. destruct (force input); [reflexivity|exact Hd]. }
  rewrite E. fold (new_row uuid now input).
  unfold bind, insert_memory. cbn [id new_row]. rewrite Hfresh.
  fold (new_row uuid now input).
  set (db1 := mkDb (memory db ++ [new_row uuid now input]) (memory_tags db)
                   (memory_links db) (memory_fts db ++ [fts_of (new_row uuid now input)])
                   (metadata db)).
  assert (Hex : memory_exists uuid db1 = true).
  { apply memory_exists_In. unfold db1. cbn [memory]. rewrite map_app.
    apply in_or_app. right. now left. }
  destruct (tags input) as [[|t ts]|].
  - exists db1. unfold ret. repeat split; reflexivity.
  - destruct (insert_tags_ok uuid (t :: ts) db1 Hex) as [db' [Et [H1 [H2 [H3 _]]]]].
    exists db'. rewrite Et. unfold ret. rewrite H1, H2, H3. repeat split; reflexivity.
  - exists db1. unfold ret. repeat split; reflexivity.
Qed.

Lemma findDuplicate_empty (c : string) (pid : option string) (db : Db) :
  memory db = [] -> findDuplicate fts5 c pid db = (Ok None, db).
Proof.
  intros He. unfold findDuplicate, bind, get_db, try_catch, ret.
  unfold dedup_candidates. rewrite He. cbn [filter sort_by firstn find].
  destruct (dedup_query c) as [q|]; [|reflexivity].
  unfold fts_select.
  destruct (fts_rows fts5 q (in_scope pid) 5 db) as [rows|] eqn:Er; [|reflexivity].
  destruct (find _ rows) as [r|] eqn:Ef; [|reflexivity].
  apply find_some in Ef as [Hin _].
  destruct (fts_rows_In _ _ _ _ _ _ Er Hin) as [Hm _]. rewrite He in Hm. contradiction.
Qed.

Lemma in_scope_own (pid : option string) (m : Memory) :
  project_id m = pid -> in_scope pid m = true.
Proof.
  intros <-. unfold in_scope. destruct (truthy (project_id m)); [|reflexivity].
  apply orb_true_iff. left. now apply opt_string_eqb_eq.
Qed.

End Dedup.




(** Scenario 2 of the specification, with the stand-in engine: the second
    insert returns the first memory's id, with the new content. *)
Example near_duplicate_merges :
  let first := mkStoreInput
    "the authentication module uses JWT tokens for signing requests securely"
    None None None None None false false in
  let second := mkStoreInput
    "the authentication module uses JWT tokens for signing requests reliably"
    None None None None None false false in
  let db1 := snd (storeMemory words_fts5 "id1" 100%Z first empty_db) in
  exists m db2,
    storeMemory words_fts5 "id2" 101%Z second db1 = (Ok m, db2)
    /\ id m = "id1" /\ content m = s_content second
    /\ map id (memory db2) = ["id1"].
Proof. eexists. eexists. vm_compute. repeat split; reflexivity. Qed.

(** ** Ranker *)

Local Open Scope R_scope.

Lemma ln_2_pos : 0 < ln 2.
Proof. rewrite <- ln_1. apply ln_increasing; lra. Qed.

Lemma log2_increasing (x y : R) : 0 < x -> x < y -> log2 x < log2 y.
Proof.
  intros Hx Hxy. unfold log2.
  apply Rmult_lt_compat_r; [apply Rinv_0_lt_compat, ln_2_pos|].
  now apply ln_increasing.
Qed.

Lemma log2_1 : log2 1 = 0.
Proof. unfold log2. rewrite ln_1. lra. Qed.

Lemma accessBoost_increasing (c1 c2 : Z) :
  (0 <= c1 < c2)%Z -> 1 <= accessBoost c1 < accessBoost c2.
Proof.
  intros [H0 H12]. unfold accessBoost.
  assert (H1 : 1 <= 1 + IZR c1) by (apply IZR_le in H0; lra).
  assert (H2 : 1 + IZR c1 < 1 + IZR c2) by (apply IZR_lt in H12; lra).
  assert (Hl : 0 <= log2 (1 + IZR c1)).
  { destruct H1 as [H1|<-]; [|rewrite log2_1; lra].
    rewrite <- log2_1. left. apply log2_increasing; lra. }
  assert (Hm : log2 (1 + IZR c1) < log2 (1 + IZR c2))
    by (apply log2_increasing; lra).
  lra.
Qed.

Lemma accessBoost_ge_1 (c : Z) : (0 <= c)%Z -> 1 <= accessBoost c.
Proof.
  intros H. apply (accessBoost_increasing c (c + 1)). lia.
Qed.

Lemma finalRank_formula (now : Z) (rate : Q) (m : Memory) (rk : Q) :
  0 < aging now rate (time_created m) ->
  (0 <= access_count m)%Z ->
  finalRank now rate (m, rk)
  = Q2R rk * aging now rate (time_created m) / accessBoost (access_count m).
Proof.
  intros Ha Hc. unfold finalRank, decayFactor. cbn [fst snd].
  fold (aging now rate (time_created m)).
  pose proof (accessBoost_ge_1 _ Hc) as Hb.
  field. lra.
Qed.

Lemma aging_ge_1 (now : Z) (rate : Q) (created : Z) :
  (created <= now)%Z -> (0 <= rate)%Q -> 1 <= aging now rate created.
Proof.
  intros Ht Hr. unfold aging.
  assert (H1 : 0 <= IZR (now - created)) by (apply IZR_le; lia).
  assert (H2 : 0 <= Q2R rate) by (apply Qle_Rle in Hr; now rewrite RMicromega.Q2R_0 in Hr).
  assert (0 <= IZR (now - created) / 86400 * Q2R rate); [|lra].
  apply Rmult_le_pos; [|assumption]. apply Rmult_le_pos; [assumption|lra].
Qed.

(** With the same negative base rank and the same age, the row with the
    larger access count gets the larger, that is the worse, final rank. *)
Lemma finalRank_access_count (now : Z) (rate rk : Q) (m1 m2 : Memory) :
  (rk < 0)%Q -> (0 <= rate)%Q ->
  time_created m1 = time_created m2 -> (time_created m1 <= now)%Z ->
  (0 <= access_count m1 < access_count m2)%Z ->
  finalRank now rate (m1, rk) < finalRank now rate (m2, rk).
Proof.
  intros Hrk Hrate Ht Hnow Hc.
  pose proof (aging_ge_1 now rate (time_created m1) Hnow Hrate) as Ha.
  rewrite !finalRank_formula; try lia; try (rewrite <- ?Ht; lra).
  rewrite <- Ht.
  destruct (accessBoost_increasing _ _ Hc) as [Hb1 Hb2].
  apply Qlt_Rlt in Hrk. rewrite RMicromega.Q2R_0 in Hrk.
  set (N := Q2R rk * aging now rate (time_created m1)).
  assert (HN : N < 0) by (unfold N; nra).
  unfold Rdiv.
  assert (Hi : / accessBoost (access_count m2) < / accessBoost (access_count m1))
    by (apply Rinv_lt_contravar; nra).
  nra.
Qed.

(** With the same negative base rank and the same access count, under a
    positive decay rate, the newer row gets the worse final rank. *)
Lemma finalRank_age (now : Z) (rate rk : Q) (m1 m2 : Memory) :
  (rk < 0)%Q -> (0 < rate)%Q ->
  access_count m1 = access_count m2 -> (0 <= access_count m1)%Z ->
  (time_created m1 < time_created m2 <= now)%Z ->
  finalRank now rate (m1, rk) < finalRank now rate (m2, rk).
Proof.
  intros Hrk Hrate Hc Hc0 Ht.
  assert (Hrate' : (0 <= rate)%Q) by now apply Qlt_le_weak.
  pose proof (aging_ge_1 now rate (time_created m1) ltac:(lia) Hrate') as Ha1.
  pose proof (aging_ge_1 now rate (time_created m2) ltac:(lia) Hrate') as Ha2.
  rewrite !finalRank_formula; try lia; try lra.
  rewrite <- Hc.
  pose proof (accessBoost_ge_1 _ Hc0) as Hb.
  apply Qlt_Rlt in Hrk, Hrate. rewrite RMicromega.Q2R_0 in Hrk, Hrate.
  assert (Hage : aging now rate (time_created m2) < aging now rate (time_created m1)).
  { unfold aging.
    assert (IZR (now - time_created m2) < IZR (now - time_created m1))
      by (apply IZR_lt; lia).
    nra. }
  unfold Rdiv. apply Rmult_lt_compat_r; [apply Rinv_0_lt_compat; lra|].
  nra.
Qed.

Lemma Rle_bool_true (a b : R) : a <= b -> Rle_bool a b = true.
Proof. intros H. unfold Rle_bool. now destruct (Rle_dec a b). Qed.

Lemma Rle_bool_false (a b : R) : b < a -> Rle_bool a b = false.
Proof. intros H. unfold Rle_bool. destruct (Rle_dec a b); [lra|reflexivity]. Qed.

(** Re-ranking two rows of which the first has the worse final rank swaps
    them. *)
Lemma rerank_swaps (now : Z) (rate : Q) (lim : Z) (r1 r2 : Memory * Q) :
  (2 <= lim)%Z ->
  finalRank now rate r2 < finalRank now rate r1 ->
  rerank now rate lim [r1; r2]
  = [(fst r2, finalRank now rate r2); (fst r1, finalRank now rate r1)].
Proof.
  intros Hlim Hlt. unfold rerank. cbn [map sort_by insert_by snd].
  rewrite Rle_bool_false by assumption.
  unfold slice0. replace (lim <? 0)%Z with false by (symmetry; apply Z.ltb_ge; lia).
  assert (E : exists k, Z.to_nat lim = S (S k)).
  { exists (Z.to_nat lim - 2)%nat. lia. }
  destruct E as [k ->]. cbn [firstn]. now rewrite firstn_nil.
Qed.

Local Close Scope R_scope.

Lemma touch_rows_ok (now : Z) (top : list (Memory * R)) (db : Db) :
  exists db',
    for_each (fun r => update_memory (id (fst r)) (touch 1 now) ;;; ret tt) top db
    = (Ok tt, db').
Proof.
  revert db. induction top as [|r top IH]; intros db; simpl.
  - now exists db.
  - unfold bind at 1. unfold bind at 1. unfold update_memory at 1. unfold ret at 1.
    apply IH.
Qed.

Lemma searchMemories_result
    (fts5 : string -> list FtsRow -> option (FtsRow -> option Q))
    (now : Z) (input : SearchInput) (db : Db) (rows : list (Memory * Q)) :
  is_empty (trim (sanitizeQuery (query input))) = false ->
  fts_rows fts5 (sanitizeQuery (query input)) (search_keep input)
           (Z.min (search_limit input * 3) 100) db = Some rows ->
  fst (searchMemories fts5 now input db)
  = Ok (map (fun r => mkSearchResult (touch 1 now (fst r)) (snd r))
            (rerank now (search_rate input) (search_limit input) rows)).
Proof.
  intros Hq Hrows.
  destruct (touch_rows_ok now (rerank now (search_rate input) (search_limit input) rows) db)
    as [db' E].
  unfold searchMemories. rewrite Hq.
  set (F := fun r : Memory * R => update_memory (id (fst r)) (touch 1 now) ;;; ret tt) in *.
  unfold bind, try_catch, fts_select, ret. rewrite Hrows, E. reflexivity.
Qed.

(** C1. [searchMemories] divides the negative base rank by
    [decayFactor * accessBoost], which moves it towards zero as the access
    count grows and away from zero as the memory ages.  Of two memories with
    the same content and creation time, the one with access count 5, first
    in the base order, is returned after the one never accessed; of two
    memories with the same content and access count, the one created 100
    days later, first in the base order, is returned after the older one. *)
Theorem search_ranks_accessed_and_newer_lower :
  (exists rA rB : R,
     fst (searchMemories words_fts5 200%Z jwt_search db_rank)
     = Ok [mkSearchResult (touch 1 200%Z mem_B) rB; mkSearchResult (touch 1 200%Z mem_A) rA]
     /\ (rB < rA)%R)
  /\ (exists rOld rNew : R,
        fst (searchMemories words_fts5 8640000%Z jwt_search db_age)
        = Ok [mkSearchResult (touch 1 8640000%Z mem_Old) rOld;
              mkSearchResult (touch 1 8640000%Z mem_New) rNew]
        /\ (rOld < rNew)%R).
Proof.
  split.
  - assert (Hlt : (finalRank 200 DEFAULT_DECAY_RATE (mem_B, (-1 # 1)%Q)
                   < finalRank 200 DEFAULT_DECAY_RATE (mem_A, (-1 # 1)%Q))%R).
    { apply finalRank_access_count; try reflexivity; try discriminate; cbn; lia. }
    eexists. eexists. split; [|exact Hlt].
    rewrite (searchMemories_result words_fts5 200%Z jwt_search db_rank
               [(mem_A, (-1 # 1)%Q); (mem_B, (-1 # 1)%Q)]);
      [|vm_compute; reflexivity|vm_compute; reflexivity].
    change (search_rate jwt_search) with DEFAULT_DECAY_RATE.
    change (search_limit jwt_search) with 10%Z.
    rewrite rerank_swaps; [reflexivity|lia|exact Hlt].
  - assert (Hlt : (finalRank 8640000 DEFAULT_DECAY_RATE (mem_Old, (-1 # 1)%Q)
                   < finalRank 8640000 DEFAULT_DECAY_RATE (mem_New, (-1 # 1)%Q))%R).
    { apply finalRank_age; try reflexivity; try discriminate; cbn; lia. }
    eexists. eexists. split; [|exact Hlt].
    rewrite (searchMemories_result words_fts5 8640000%Z jwt_search db_age
               [(mem_New, (-1 # 1)%Q); (mem_Old, (-1 # 1)%Q)]);
      [|vm_compute; reflexivity|vm_compute; reflexivity].
    change (search_rate jwt_search) with DEFAULT_DECAY_RATE.
    change (search_limit jwt_search) with 10%Z.
    rewrite rerank_swaps; [reflexivity|lia|exact Hlt].
Qed.

(** ** Export and import *)


(** ** Referential integrity *)

Lemma preserves_ret (A : Type) (a : A) : preserves (ret a).
Proof. intros db H. exact H. Qed.

Lemma preserves_throw (A : Type) (msg : string) : preserves (@throw A msg).
Proof. intros db H. exact H. Qed.

Lemma preserves_get_db : preserves get_db.
Proof. intros db H. exact H. Qed.

Lemma preserves_bind (A B : Type) (c : M A) (k : A -> M B) :
  preserves c -> (forall a, preserves (k a)) -> preserves (bind c k).
Proof.
  intros Hc Hk db H. unfold bind. specialize (Hc db H).
  destruct (c db) as [[a|msg] db']; simpl in *; [now apply Hk|assumption].
Qed.

Lemma preserves_try_catch (A : Type) (c : M A) (h : string -> M A) :
  preserves c -> (forall msg, preserves (h msg)) -> preserves (try_catch c h).
Proof.
  intros Hc Hh db H. unfold try_catch. specialize (Hc db H).
  destruct (c db) as [[a|msg] db']; simpl in *; [assumption|now apply Hh].
Qed.

Lemma preserves_for_each (A : Type) (f : A -> M unit) (l : list A) :
  (forall x, preserves (f x)) -> preserves (for_each f l).
Proof.
  intros Hf. induction l as [|x l IH]; simpl.
  - apply preserves_ret.
  - apply preserves_bind; [apply Hf|intros _; exact IH].
Qed.

Lemma preserves_fold_m (A B : Type) (f : B -> A -> M B) (l : list A) (b : B) :
  (forall b x, preserves (f b x)) -> preserves (fold_m f l b).
Proof.
  intros Hf. revert b. induction l as [|x l IH]; intros b; simpl.
  - apply preserves_ret.
  - apply preserves_bind; [apply Hf|intros b'; apply IH].
Qed.

Lemma preserves_reader (A : Type) (f : Db -> Result A) :
  preserves (fun db => (f db, db)).
Proof. intros db H. exact H. Qed.

Lemma NoDup_map_filter (A B : Type) (key : A -> B) (keep : A -> bool) (rows : list A) :
  NoDup (map key rows) -> NoDup (map key (filter keep rows)).
Proof.
  induction rows as [|x rows IH]; simpl; intros H; [constructor|].
  inversion H as [|? ? Hx Hl]; subst.
  destruct (keep x); simpl; [|auto].
  constructor; [|auto]. intros Hin. apply Hx.
  apply in_map_iff in Hin as [y [Hy Hin]]. apply filter_In in Hin as [Hin _].
  rewrite <- Hy. now apply in_map.
Qed.

Lemma fts_ids_in_memory (db : Db) (r : FtsRow) :
  integrity db -> In r (memory_fts db) -> In (fts_memory_id r) (map id (memory db)).
Proof.
  intros H Hr. apply (fts_sync H) in Hr as [m [Hm ->]]. simpl. now apply in_map.
Qed.

Lemma integrity_empty : integrity empty_db.
Proof.
  constructor; simpl.
  - constructor.
  - intros t [].
  - intros l [].
  - constructor.
  - intros r. split; [intros []|intros [m [[] _]]].
Qed.

Lemma preserves_insert_memory (row : Memory) : preserves (insert_memory row).
Proof.
  intros db H. unfold insert_memory.
  destruct (memory_exists (id row) db) eqn:E; [exact H|]. simpl.
  assert (Hfresh : ~ In (id row) (map id (memory db))).
  { intros Hin. apply memory_exists_In in Hin. congruence. }
  destruct H as [Hpk Ht Hl Hu Hs]. constructor; cbn [memory memory_tags memory_links memory_fts].
  - rewrite map_app. apply NoDup_app; [assumption|repeat constructor; intros []|].
    intros x Hx [<-|[]]. contradiction.
  - intros t Hin. rewrite map_app. apply in_or_app. left. auto.
  - intros l Hin. rewrite map_app. destruct (Hl l Hin).
    split; apply in_or_app; now left.
  - rewrite map_app. apply NoDup_app; [assumption|repeat constructor; intros []|].
    intros x Hx [<-|[]]. apply Hfresh.
    apply in_map_iff in Hx as [r [Hr Hin]]. apply Hs in Hin as [m [Hm ->]].
    simpl in Hr. rewrite <- Hr. now apply in_map.
  - intros r. rewrite in_app_iff, Hs. split.
    + intros [[m [Hm ->]]|[<-|[]]].
      * exists m. split; [apply in_or_app; now left|reflexivity].
      * exists row. split; [apply in_or_app; right; now left|reflexivity].
    + intros [m [Hm ->]]. apply in_app_or in Hm as [Hm|[<-|[]]].
      * left. now exists m.
      * right. now left.
Qed.

Lemma filter_id_NoDup (i : string) (l : list Memory) :
  NoDup (map id l) ->
  filter (fun m => String.eqb (id m) i) l = []
  \/ exists e, filter (fun m => String.eqb (id m) i) l = [e] /\ In e l /\ id e = i.
Proof.
  induction l as [|x l IH]; simpl; intros H; [now left|].
  inversion H as [|? ? Hx Hl]; subst.
  destruct (String.eqb (id x) i) eqn:E.
  - right. exists x. apply String.eqb_eq in E. split; [|auto].
    f_equal. apply filter_none. intros y Hy. apply String.eqb_neq.
    intros Hyi. apply Hx. rewrite E, <- Hyi. now apply in_map.
  - destruct (IH Hl) as [H0|[e [He [Hin Hid]]]]; [now left|].
    right. exists e. auto.
Qed.

Lemma map_id_update (i : string) (upd : Memory -> Memory) (l : list Memory) :
  (forall m, id (upd m) = id m) ->
  map id (map (fun m => if String.eqb (id m) i then upd m else m) l) = map id l.
Proof.
  intros Hid. rewrite map_map. apply map_ext. intros m.
  destruct (String.eqb (id m) i); [apply Hid|reflexivity].
Qed.

Lemma preserves_update_memory (i : string) (upd : Memory -> Memory) :
  (forall m, id (upd m) = id m) -> preserves (update_memory i upd).
Proof.
  intros Hid db H. unfold update_memory. cbn [snd].
  destruct H as [Hpk Ht Hl Hu Hs].
  constructor; cbn [memory memory_tags memory_links memory_fts];
    rewrite ?map_id_update by assumption; try assumption.
  - destruct (filter_id_NoDup i (memory db) Hpk) as [->|[e [-> [Hin He]]]];
      [assumption|].
    cbn [fold_left]. unfold memory_au. rewrite map_app. cbn [map fts_of fts_memory_id].
    rewrite Hid. apply NoDup_app.
    + now apply NoDup_map_filter.
    + repeat constructor. intros [].
    + intros x Hx [<-|[]]. apply in_map_iff in Hx as [r [Hr Hin']].
      apply filter_In in Hin' as [_ Hk]. rewrite Hr in Hk.
      now rewrite String.eqb_refl in Hk.
  - intros r.
    destruct (filter_id_NoDup i (memory db) Hpk) as [E|[e [E [Hin He]]]]; rewrite E.
    + cbn [fold_left]. rewrite Hs. split; intros [m [Hm ->]].
      * exists m. split; [|reflexivity]. apply in_map_iff. exists m.
        split; [|assumption].
        destruct (String.eqb (id m) i) eqn:Ei; [|reflexivity].
        assert (Hf : In m (filter (fun m => String.eqb (id m) i) (memory db)))
          by (apply filter_In; auto).
        rewrite E in Hf. contradiction.
      * apply in_map_iff in Hm as [m0 [Hm0 Hin0]].
        destruct (String.eqb (id m0) i) eqn:Ei.
        -- assert (Hf : In m0 (filter (fun m => String.eqb (id m) i) (memory db)))
             by (apply filter_In; auto).
           rewrite E in Hf. contradiction.
        -- exists m0. now subst.
    + cbn [fold_left]. unfold memory_au. rewrite in_app_iff, filter_In, Hs. split.
      * intros [[[m [Hm ->]] Hk]|[<-|[]]].
        -- exists m. split; [|reflexivity]. apply in_map_iff. exists m.
           split; [|assumption]. cbn [fts_of fts_memory_id] in Hk.
           rewrite He in Hk. apply negb_true_iff in Hk. now rewrite Hk.
        -- exists (upd e). split; [|reflexivity]. apply in_map_iff. exists e.
           split; [|assumption]. rewrite He. now rewrite String.eqb_refl.
      * intros [m [Hm ->]]. apply in_map_iff in Hm as [m0 [Hm0 Hin0]].
        destruct (String.eqb (id m0) i) eqn:Ei.
        -- apply String.eqb_eq in Ei.
           assert (m0 = e).
           { apply (NoDup_map_inj_on id (memory db)); try assumption. congruence. }
           subst m0. right. left. now subst m.
        -- subst m. left. split; [now exists m0|].
           cbn [fts_of fts_memory_id]. rewrite He. now rewrite Ei.
Qed.

Lemma preserves_delete_memory (p : Memory -> bool) : preserves (delete_memory p).
Proof.
  intros db H. unfold delete_memory. cbn [snd].
  set (gone := map id (filter p (memory db))).
  assert (Hkept : forall m, In m (memory db) -> ~ In (id m) gone ->
                            In m (filter (fun m => negb (p m)) (memory db))).
  { intros m Hm Hg. apply filter_In. split; [assumption|].
    apply negb_true_iff. destruct (p m) eqn:E; [|reflexivity].
    exfalso. apply Hg. unfold gone. apply in_map. now apply filter_In. }
  assert (Hids : forall x, In x (map id (memory db)) -> ~ In x gone ->
                           In x (map id (filter (fun m => negb (p m)) (memory db)))).
  { intros x Hx Hg. apply in_map_iff in Hx as [m [<- Hm]]. apply in_map. auto. }
  destruct H as [Hpk Ht Hl Hu Hs].
  constructor; cbn [memory memory_tags memory_links memory_fts].
  - now apply NoDup_map_filter.
  - intros t Hin. apply filter_In in Hin as [Hin Hk].
    apply negb_true_iff, has_not_In in Hk. auto.
  - intros l Hin. apply filter_In in Hin as [Hin Hk].
    apply andb_prop in Hk as [Hk1 Hk2].
    apply negb_true_iff, has_not_In in Hk1. apply negb_true_iff, has_not_In in Hk2.
    destruct (Hl l Hin). auto.
  - now apply NoDup_map_filter.
  - intros r. rewrite filter_In, Hs. split.
    + intros [[m [Hm ->]] Hk]. apply negb_true_iff, has_not_In in Hk.
      exists m. split; [|reflexivity]. now apply Hkept.
    + intros [m [Hm ->]]. apply filter_In in Hm as [Hm Hpm].
      split; [now exists m|]. apply negb_true_iff, has_not_In.
      cbn [fts_of fts_memory_id]. intros Hg. unfold gone in Hg.
      apply in_map_iff in Hg as [m2 [Hid Hm2]]. apply filter_In in Hm2 as [Hm2 Hp2].
      assert (m2 = m) by (apply (NoDup_map_inj_on id (memory db)); assumption).
      subst m2. rewrite Hp2 in Hpm. discriminate.
Qed.

Lemma preserves_insert_tag (mid t : string) : preserves (insert_tag mid t).
Proof.
  intros db H. unfold insert_tag.
  destruct (existsb _ (memory_tags db)); [exact H|].
  destruct (memory_exists mid db) eqn:E; cbn [negb]; [|exact H]. cbn [snd].
  apply memory_exists_In in E.
  destruct H as [Hpk Ht Hl Hu Hs].
  constructor; cbn [memory memory_tags memory_links memory_fts]; try assumption.
  intros r Hin. apply in_app_or in Hin as [Hin|[<-|[]]]; auto.
Qed.

Lemma preserves_delete_tags (p : TagRow -> bool) : preserves (delete_tags p).
Proof.
  intros db H. unfold delete_tags. cbn [snd]. destruct H as [Hpk Ht Hl Hu Hs].
  constructor; cbn [memory memory_tags memory_links memory_fts]; try assumption.
  intros r Hin. apply filter_In in Hin as [Hin _]. auto.
Qed.

Lemma preserves_insert_or_replace_link (s t rel : string) :
  preserves (insert_or_replace_link s t rel).
Proof.
  intros db H. unfold insert_or_replace_link.
  destruct (has LINK_RELATIONSHIPS rel); cbn [negb]; [|exact H].
  destruct (memory_exists s db) eqn:Es; cbn [andb negb]; [|exact H].
  destruct (memory_exists t db) eqn:Et; cbn [andb negb]; [|exact H]. cbn [snd].
  apply memory_exists_In in Es, Et.
  destruct H as [Hpk Ht Hl Hu Hs].
  constructor; cbn [memory memory_tags memory_links memory_fts]; try assumption.
  intros l Hin. apply in_app_or in Hin as [Hin|[<-|[]]].
  - apply filter_In in Hin as [Hin _]. auto.
  - now split.
Qed.

Lemma preserves_delete_links (p : LinkRow -> bool) : preserves (delete_links p).
Proof.
  intros db H. unfold delete_links. cbn [snd]. destruct H as [Hpk Ht Hl Hu Hs].
  constructor; cbn [memory memory_tags memory_links memory_fts]; try assumption.
  intros l Hin. apply filter_In in Hin as [Hin _]. auto.
Qed.

Lemma preserves_setMetadata (key value : string) : preserves (setMetadata key value).
Proof.
  intros db H. unfold setMetadata. cbn [snd]. destruct H as [Hpk Ht Hl Hu Hs].
  constructor; assumption.
Qed.

Create HintDb preserve.

#[local] Hint Resolve preserves_ret preserves_throw preserves_get_db
  preserves_insert_memory preserves_delete_memory preserves_insert_tag
  preserves_delete_tags preserves_insert_or_replace_link preserves_delete_links
  preserves_setMetadata : preserve.

Ltac preserve_step :=
  match goal with
  | |- preserves (bind _ _) => apply preserves_bind; [|intros ?]
  | |- preserves (try_catch _ _) => apply preserves_try_catch; [|intros ?]
  | |- preserves (for_each _ _) => apply preserves_for_each; intros ?
  | |- preserves (fold_m _ _ _) => apply preserves_fold_m; intros ? ?
  | |- preserves (update_memory _ _) => apply preserves_update_memory; intros ?; reflexivity
  | |- preserves (match ?x with _ => _ end) => destruct x
  | |- preserves (if ?x then _ else _) => destruct x
  | |- preserves _ => solve [auto with preserve]
  end.

Ltac preserve := repeat preserve_step.

Lemma preserves_getMemory (i : string) : preserves (getMemory i).
Proof. apply preserves_reader. Qed.

Lemma preserves_updateMemory (now : Z) (i : string) (input : UpdateInput) :
  preserves (updateMemory now i input).
Proof. unfold updateMemory. pose proof preserves_getMemory. preserve; auto. Qed.

Lemma preserves_deleteMemory (i : string) : preserves (deleteMemory i).
Proof. unfold deleteMemory. preserve. Qed.

Lemma preserves_refreshMemory (now : Z) (i : string) : preserves (refreshMemory now i).
Proof. unfold refreshMemory. pose proof preserves_getMemory. preserve; auto. Qed.

Lemma preserves_addTags (i : string) (ts : list string) : preserves (addTags i ts).
Proof. unfold addTags. preserve. Qed.

Lemma preserves_setTags (i : string) (ts : list string) : preserves (setTags i ts).
Proof. unfold setTags. preserve. Qed.

Lemma preserves_removeTags (i : string) (ts : list string) : preserves (removeTags i ts).
Proof. unfold removeTags. preserve. Qed.

Lemma preserves_addLink (s t rel : string) : preserves (addLink s t rel).
Proof. unfold addLink. pose proof preserves_getMemory. preserve; auto. Qed.

Lemma preserves_removeLink (s t : string) : preserves (removeLink s t).
Proof. unfold removeLink. preserve. Qed.

Lemma preserves_purgeOldMemories (now days : Z) : preserves (purgeOldMemories now days).
Proof. unfold purgeOldMemories. preserve. Qed.

Lemma preserves_enforceMaxMemories (maxMemories : Z) :
  preserves (enforceMaxMemories maxMemories).
Proof. unfold enforceMaxMemories. preserve. Qed.

Lemma preserves_runMaintenance (maxMemories now size : Z) :
  preserves (runMaintenance maxMemories now size).
Proof.
  unfold runMaintenance, optimizeFts. pose proof preserves_enforceMaxMemories.
  preserve; auto.
Qed.

Section EngineIntegrity.

Variable fts5 : string -> list FtsRow -> option (FtsRow -> option Q).

Lemma preserves_fts_select (q : string) (keep : Memory -> bool) (lim : Z) :
  preserves (fts_select fts5 q keep lim).
Proof.
  intros db H. unfold fts_select. now destruct (fts_rows fts5 q keep lim db).
Qed.

Lemma preserves_findDuplicate (c : string) (pid : option string) :
  preserves (findDuplicate fts5 c pid).
Proof.
  intros db H. destruct (findDuplicate_reads fts5 c pid db) as [r ->]. exact H.
Qed.

Lemma preserves_storeMemory (uuid : string) (now : Z) (input : StoreInput) :
  preserves (storeMemory fts5 uuid now input).
Proof.
  unfold storeMemory.
  pose proof preserves_findDuplicate. pose proof preserves_updateMemory.
  preserve; auto.
Qed.

Lemma preserves_searchMemories (now : Z) (input : SearchInput) :
  preserves (searchMemories fts5 now input).
Proof.
  unfold searchMemories. pose proof preserves_fts_select. preserve; auto.
Qed.

Lemma preserves_memory_import (gen : nat -> string) (now : Z) (entries : list ExportEntry) :
  preserves (memory_import fts5 gen now entries).
Proof.
  unfold memory_import.
  assert (Hentry : forall st e, preserves (import_entry fts5 gen now st e)).
  { intros st e. unfold import_entry.
    pose proof preserves_getMemory. pose proof preserves_storeMemory.
    preserve; auto. }
  assert (Hentries : forall es st, preserves (import_entries fts5 gen now st es)).
  { induction es as [|e es IH]; intros st; simpl; preserve; auto. }
  assert (Hlink : forall ids entry n link, preserves (restore_link ids entry n link)).
  { intros ids entry n link. unfold restore_link. pose proof preserves_addLink.
    preserve; auto. }
  preserve; auto.
Qed.

Lemma run_op_integrity (op : StoreOp) (db : Db) :
  integrity db -> integrity (run_op fts5 op db).
Proof.
  intros H. destruct op; cbn [run_op].
  - now apply preserves_storeMemory.
  - now apply preserves_searchMemories.
  - now apply preserves_updateMemory.
  - now apply preserves_deleteMemory.
  - now apply preserves_refreshMemory.
  - now apply preserves_setTags.
  - now apply preserves_addTags.
  - now apply preserves_removeTags.
  - now apply preserves_addLink.
  - now apply preserves_removeLink.
  - now apply preserves_purgeOldMemories.
  - now apply preserves_enforceMaxMemories.
  - now apply preserves_runMaintenance.
  - now apply preserves_memory_import.
Qed.

End EngineIntegrity.

Lemma deleteMemory_cascade (i : string) (db : Db) :
  memory_exists i db = true ->
  exists db', deleteMemory i db = (Ok true, db') /\ unreferenced i db'.
Proof.
  intros Hex. unfold deleteMemory, bind, delete_memory, ret.
  set (gone := map id (filter (fun m => String.eqb (id m) i) (memory db))).
  assert (Hi : In i gone).
  { apply memory_exists_In in Hex. apply in_map_iff in Hex as [m [Hid Hm]].
    unfold gone. apply in_map_iff. exists m. split; [assumption|].
    apply filter_In. split; [assumption|]. now apply String.eqb_eq. }
  assert (Hlen : Nat.ltb 0 (List.length gone) = true).
  { destruct gone; [contradiction|reflexivity]. }
  rewrite Hlen. eexists. split; [reflexivity|].
  unfold unreferenced. cbn [memory memory_tags memory_links memory_fts].
  repeat split.
  - intros m Hm Hid. apply filter_In in Hm as [_ Hk].
    apply String.eqb_eq in Hid. now rewrite Hid in Hk.
  - intros t Ht Hid. apply filter_In in Ht as [_ Hk].
    apply negb_true_iff, has_not_In in Hk. congruence.
  - apply filter_In in H as [_ Hk]. apply andb_prop in Hk as [Hk _].
    apply negb_true_iff, has_not_In in Hk. congruence.
  - apply filter_In in H as [_ Hk]. apply andb_prop in Hk as [_ Hk].
    apply negb_true_iff, has_not_In in Hk. congruence.
  - intros r Hr Hid. apply filter_In in Hr as [_ Hk].
    apply negb_true_iff, has_not_In in Hk. congruence.
Qed.

Lemma deleteMemory_unknown (i : string) (db : Db) :
  memory_exists i db = false -> deleteMemory i db = (Ok false, db).
Proof.
  intros Hex. unfold deleteMemory, bind, delete_memory, ret.
  assert (Hnone : forall m, In m (memory db) -> String.eqb (id m) i = false).
  { intros m Hm. destruct (String.eqb (id m) i) eqn:E; [|reflexivity].
    apply String.eqb_eq in E. rewrite <- Hex. symmetry. apply memory_exists_In.
    rewrite <- E. now apply in_map. }
  rewrite (filter_none _ _ Hnone). cbn [map List.length Nat.ltb Nat.leb].
  rewrite !filter_all.
  - now destruct db.
  - reflexivity.
  - reflexivity.
  - reflexivity.
  - intros m Hm. now rewrite Hnone.
Qed.

Lemma integrity_db_linked : integrity db_linked.
Proof.
  constructor; cbn.
  - repeat (constructor; [simpl; intuition discriminate|]). constructor.
  - intros t [<-|[]]. now left.
  - intros l [<-|[]]. split; [now left|right; now left].
  - repeat (constructor; [simpl; intuition discriminate|]). constructor.
  - intros r. split.
    + intros [<-|[<-|[]]]; [exists mem_a|exists mem_b]; split; auto.
    + intros [m [[<-|[<-|[]]] ->]]; auto.
Qed.

Lemma run_ops_integrity
    (fts5 : string -> list FtsRow -> option (FtsRow -> option Q))
    (ops : list StoreOp) (db : Db) :
  integrity db -> integrity (fold_left (fun d op => run_op fts5 op d) ops db).
Proof.
  revert db. induction ops as [|op ops IH]; intros db H; simpl; [exact H|].
  now apply IH, run_op_integrity.
Qed.

(** C7. [deleteMemory] is one statement: when a memory has the id it
    returns true and in the store it leaves no memory row, no tag row, no
    link row at either end and no index row refers to the id; when none has,
    it returns false and the store is unchanged; it never throws.  And every
    writing operation of the store, whether it returns or throws, keeps the
    referential integrity: unique memory ids, tags and links only on existing
    memories, and exactly the index rows derived from the memory rows; so
    does every sequence of operations from the empty store. *)
Theorem delete_cascades_and_integrity_invariant
    (fts5 : string -> list FtsRow -> option (FtsRow -> option Q)) :
  (forall i db,
     if memory_exists i db then
       exists db', deleteMemory i db = (Ok true, db') /\ unreferenced i db'
     else deleteMemory i db = (Ok false, db))
  /\ (forall op db, integrity db -> integrity (run_op fts5 op db))
  /\ (forall ops, integrity (fold_left (fun d op => run_op fts5 op d) ops empty_db)).
Proof.
  split; [|split].
  - intros i db. destruct (memory_exists i db) eqn:E.
    + now apply deleteMemory_cascade.
    + now apply deleteMemory_unknown.
  - intros op db. apply run_op_integrity.
  - intros ops. apply run_ops_integrity, integrity_empty.
Qed.

(** On [db_linked]: deleting [a] removes its tag, its link and its index
    row, and the store stays well formed. *)
Lemma delete_cascades_and_integrity_invariant_witness :
  integrity db_linked
  /\ integrity (run_op words_fts5 (OpDelete "a") db_linked)
  /\ run_op words_fts5 (OpDelete "a") db_linked
     = mkDb [mem_b] [] [] [fts_of mem_b] [].
Proof.
  split; [exact integrity_db_linked|]. split.
  - exact (proj1 (proj2 (delete_cascades_and_integrity_invariant words_fts5))
             (OpDelete "a") db_linked integrity_db_linked).
  - vm_compute. reflexivity.
Defined.

(* ================================================================== *)
(** * Further properties of the code                                   *)
(* ================================================================== *)

(** ** Text normalization and similarity *)

Lemma map_string_app (f : ascii -> ascii) (s t : string) :
  map_string f (s ++ t) = (map_string f s ++ map_string f t)%string.
Proof. induction s as [|c s IH]; simpl; [reflexivity|]. now rewrite IH. Qed.

Lemma toLowerCase_join_space (xs : list string) :
  toLowerCase (join " " xs) = join " " (map toLowerCase xs).
Proof.
  induction xs as [|x xs IH]; [reflexivity|].
  destruct xs as [|y ys]; [reflexivity|].
  change (join " " (x :: y :: ys)) with (x ++ " " ++ join " " (y :: ys))%string.
  unfold toLowerCase in *. rewrite !map_string_app, IH. reflexivity.
Qed.

Lemma words_token_like (s : string) : Forall token_like (words s).
Proof.
  unfold words. eapply Forall_filter_kept.
  - exact (split_ws_pieces_ws_free s).
  - intros t Hw Hne. cbv beta in *. split; [assumption|].
    now apply negb_true_iff in Hne.
Qed.

Lemma words_lower_fixed (s : string) :
  map toLowerCase (words (toLowerCase s)) = words (toLowerCase s).
Proof.
  assert (H : Forall (fun t => toLowerCase t = t) (words (toLowerCase s))).
  { unfold words. apply Forall_filter.
    eapply Forall_impl; [|apply (forall_string_split_ws
                                   (fun c => Ascii.eqb (lower_char c) c))].
    - intros t Ht. now apply map_string_fixed.
    - unfold toLowerCase. apply forall_string_map. intros c. apply lower_char_idem. }
  induction H as [|t ts Ht _ IH]; [reflexivity|]. simpl. now rewrite Ht, IH.
Qed.

Lemma words_join (ws : list string) :
  Forall token_like ws -> words (join " " ws) = ws.
Proof.
  intros H. destruct ws as [|w ws]; [reflexivity|].
  unfold words. rewrite split_ws_join; [|discriminate|assumption].
  apply filter_all. intros t Ht. rewrite Forall_forall in H.
  destruct (H t Ht) as [_ He]. now rewrite He.
Qed.

Lemma words_all_ws (pad : string) : forall_string is_ws pad = true -> words pad = [].
Proof.
  induction pad as [|c pad IH]; [reflexivity|].
  simpl. intros H. apply andb_prop in H as [Hc Hp]. rewrite words_ws by assumption.
  now apply IH.
Qed.

Lemma words_pad_left (pad s : string) :
  forall_string is_ws pad = true -> words (pad ++ s) = words s.
Proof.
  induction pad as [|c pad IH]; [reflexivity|].
  simpl. intros H. apply andb_prop in H as [Hc Hp]. rewrite words_ws by assumption.
  now apply IH.
Qed.

Lemma split_ws_pad_right (s pad : string) :
  forall_string is_ws pad = true -> is_empty pad = false ->
  exists t ts ts',
    split_ws s = t :: ts /\ split_ws (s ++ pad) = t :: ts'
    /\ filter (fun t => negb (is_empty t)) ts = filter (fun t => negb (is_empty t)) ts'.
Proof.
  intros Hp Hne.
  assert (Hlead : starts_with_ws pad = true).
  { destruct pad as [|c pad]; [discriminate|]. simpl in Hp.
    now apply andb_prop in Hp as [Hc _]. }
  induction s as [|c s IH].
  - destruct (words_leading_ws pad Hlead) as [ts' [E Ew]].
    exists EmptyString, [], ts'. cbn [append]. rewrite E.
    repeat split. rewrite <- Ew. symmetry. now apply words_all_ws.
  - destruct IH as [t [ts [ts' [E1 [E2 Ef]]]]].
    cbn [append split_ws]. destruct (is_ws c) eqn:Ec.
    + destruct s as [|d s].
      * cbn [append starts_with_ws]. rewrite Hlead. cbn [append] in E2.
        cbn [split_ws] in E1. inversion E1; subst.
        exists EmptyString, [EmptyString], ts'. repeat split; assumption.
      * cbn [append starts_with_ws]. destruct (is_ws d).
        -- exists t, ts, ts'. repeat split; assumption.
        -- rewrite E1. cbn [append] in E2. rewrite E2.
           exists EmptyString, (t :: ts), (t :: ts'). repeat split.
           cbn [filter]. now rewrite Ef.
    + rewrite E1, E2. exists (String c t), ts, ts'. repeat split; assumption.
Qed.

Lemma words_pad_right (s pad : string) :
  forall_string is_ws pad = true -> words (s ++ pad) = words s.
Proof.
  intros Hp. destruct (is_empty pad) eqn:Ee.
  - destruct pad; [|discriminate].
    assert (E : (s ++ "")%string = s) by (induction s; simpl; congruence).
    now rewrite E.
  - destruct (split_ws_pad_right s pad Hp Ee) as [t [ts [ts' [E1 [E2 Ef]]]]].
    unfold words. rewrite E1, E2. cbn [filter]. now rewrite Ef.
Qed.

Lemma forall_ws_lower (pad : string) :
  forall_string is_ws pad = true -> forall_string is_ws (toLowerCase pad) = true.
Proof.
  unfold toLowerCase. induction pad as [|c pad IH]; [reflexivity|].
  simpl. intros H. apply andb_prop in H as [Hc Hp].
  now rewrite lower_char_ws, Hc, IH.
Qed.

(** X3. [normalizeText] yields a canonical form: the lower-cased words of
    the text joined by single spaces.  It is idempotent, it ignores letter
    case, and it ignores white space added before and after the text. *)
Theorem normalizeText_canonical (s pad1 pad2 : string) :
  forall_string is_ws pad1 = true ->
  forall_string is_ws pad2 = true ->
  normalizeText s = join " " (words (toLowerCase s))
  /\ normalizeText (normalizeText s) = normalizeText s
  /\ normalizeText (toLowerCase s) = normalizeText s
  /\ normalizeText (pad1 ++ s ++ pad2) = normalizeText s.
Proof.
  intros H1 H2. split; [apply normalizeText_words|]. split; [|split].
  - rewrite !normalizeText_words. f_equal.
    rewrite toLowerCase_join_space, words_lower_fixed.
    apply words_join, words_token_like.
  - now rewrite !normalizeText_words, toLowerCase_idem.
  - rewrite !normalizeText_words. f_equal. unfold toLowerCase.
    rewrite !map_string_app. fold (toLowerCase pad1) (toLowerCase s) (toLowerCase pad2).
    rewrite words_pad_left by now apply forall_ws_lower.
    apply words_pad_right. now apply forall_ws_lower.
Qed.

Lemma normalizeText_canonical_witness :
  normalizeText ("  " ++ "JWT   uses RS256" ++ "  ") = normalizeText "JWT   uses RS256"
  /\ normalizeText (normalizeText "JWT   uses RS256") = normalizeText "JWT   uses RS256"
  /\ normalizeText "JWT   uses RS256" = "jwt uses rs256".
Proof.
  destruct (normalizeText_canonical "JWT   uses RS256" "  " "  " eq_refl eq_refl)
    as [_ [Hi [_ Hp]]].
  split; [exact Hp|]. split; [exact Hi|]. vm_compute. reflexivity.
Defined.

Lemma word_set_NoDup (s : string) : NoDup (word_set s).
Proof. unfold word_set. apply NoDup_nodup. Qed.

Lemma shared_words_length (A B : list string) :
  NoDup A -> NoDup B ->
  List.length (filter (has B) A) = List.length (filter (has A) B).
Proof.
  intros HA HB. apply Permutation_length, NoDup_Permutation.
  - now apply NoDup_filter.
  - now apply NoDup_filter.
  - intros x. rewrite !filter_In, !has_In. tauto.
Qed.

Lemma union_words_length (A B : list string) :
  List.length (nodup string_dec (A ++ B)) = List.length (nodup string_dec (B ++ A)).
Proof.
  apply Permutation_length, NoDup_Permutation; try apply NoDup_nodup.
  intros x. rewrite !nodup_In, !in_app_iff. tauto.
Qed.

Lemma shared_le_union (A B : list string) :
  NoDup A -> List.length (filter (has B) A) <= List.length (nodup string_dec (A ++ B)).
Proof.
  intros HA. apply NoDup_incl_length; [now apply NoDup_filter|].
  intros x Hx. apply filter_In in Hx as [Hx _].
  apply nodup_In, in_or_app. now left.
Qed.

Lemma Zpos_of_nat (n : nat) : n <> 0 -> Zpos (Pos.of_nat n) = Z.of_nat n.
Proof.
  intros H. destruct n as [|n]; [congruence|].
  rewrite <- Pos.of_nat_succ. now rewrite Zpos_P_of_succ_nat, Nat2Z.inj_succ.
Qed.

(** X4. The word-overlap similarity is symmetric, lies between 0 and 1, and
    is 1 for a text compared with itself: a text is always more than 0.6
    similar to itself. *)
Theorem computeSimilarity_properties (a b : string) :
  computeSimilarity a b = computeSimilarity b a
  /\ (0 <= computeSimilarity a b)%Q
  /\ (computeSimilarity a b <= 1)%Q
  /\ (computeSimilarity a a == 1)%Q
  /\ Qlt_bool (6 # 10) (computeSimilarity a a) = true.
Proof.
  assert (Hself : (computeSimilarity a a == 1)%Q).
  { unfold computeSimilarity. pose proof (word_set_NoDup a) as HA.
    destruct (word_set a) as [|x A] eqn:E; [reflexivity|]. rewrite <- E in *.
    rewrite filter_all by (intros y Hy; now apply has_In).
    assert (Hu : List.length (nodup string_dec (word_set a ++ word_set a))
                 = List.length (word_set a)).
    { apply Permutation_length, NoDup_Permutation; [apply NoDup_nodup|assumption|].
      intros y. rewrite nodup_In, in_app_iff. tauto. }
    rewrite Hu. unfold Qeq. cbn [Qnum Qden].
    rewrite Zpos_of_nat by (rewrite E; discriminate). lia. }
  split; [|split; [|split; [|split]]].
  - unfold computeSimilarity.
    pose proof (word_set_NoDup a) as HA. pose proof (word_set_NoDup b) as HB.
    destruct (word_set a) as [|x A] eqn:Ea, (word_set b) as [|y B] eqn:Eb;
      try reflexivity.
    rewrite (shared_words_length _ _ HA HB), union_words_length. reflexivity.
  - unfold computeSimilarity.
    destruct (word_set a) as [|x A], (word_set b) as [|y B]; try discriminate.
    unfold Qle. cbn [Qnum Qden]. lia.
  - unfold computeSimilarity. pose proof (word_set_NoDup a) as HA.
    destruct (word_set a) as [|x A] eqn:Ea, (word_set b) as [|y B] eqn:Eb;
      try discriminate.
    pose proof (shared_le_union (x :: A) (y :: B) HA) as Hle.
    unfold Qle. cbn [Qnum Qden]. rewrite Zpos_of_nat; [lia|].
    cbn [app]. intros Hz.
    assert (Hin : In x (nodup string_dec (x :: A ++ y :: B)))
      by (apply nodup_In; now left).
    destruct (nodup string_dec (x :: A ++ y :: B)); [contradiction|discriminate].
  - exact Hself.
  - apply Qlt_bool_iff. rewrite Hself. reflexivity.
Qed.

(** ** Query normalizer: the token and fallback paths *)

Lemma query_tokens_In (raw t : string) :
  In t (query_tokens raw) <->
  In t (split_ws (toLowerCase (replace_special raw))) /\ query_word t.
Proof.
  unfold query_tokens, query_word. rewrite filter_In, !andb_true_iff, !negb_true_iff.
  rewrite Nat.ltb_lt, !has_not_In. tauto.
Qed.

Lemma fallback_tokens_In (raw t : string) :
  In t (filter (fun t => Nat.ltb 1 (String.length t)
                         && negb (has FTS5_OPERATORS (toLowerCase t)))
               (split_ws (replace_special raw))) <->
  In t (split_ws (replace_special raw)) /\ fallback_word t.
Proof.
  unfold fallback_word. rewrite filter_In, andb_true_iff, negb_true_iff.
  rewrite Nat.ltb_lt, has_not_In. tauto.
Qed.

Lemma Forall_token_like (P : string -> Prop) (xs : list string) :
  Forall (fun t => token_like t /\ P t) xs -> Forall token_like xs.
Proof. intros H. eapply Forall_impl; [|exact H]. now intros a [Ha _]. Qed.

(** X2. Let the input, its special characters blanked, have a word longer
    than one character that is in no letter case an operator word.  Then the
    query [sanitizeQuery] returns is a list of tokens joined by single
    spaces, and none of the tokens is an operator word in any letter case.
    When some lower-cased word of the input is longer than one character
    and neither a stop word nor an operator word, the tokens are exactly
    the lower-cased words of that kind; when there is none, they are
    exactly the words, in their own letter case and stop words included,
    that are longer than one character and no operator word. *)
Theorem sanitizeQuery_no_operator (raw w : string) :
  In w (split_ws (replace_special raw)) ->
  fallback_word w ->
  let out := sanitizeQuery raw in
  out = join " " (split_ws out)
  /\ has_operator_token out = false
  /\ ((exists t, In t (split_ws (toLowerCase (replace_special raw))) /\ query_word t) ->
      forall t, In t (split_ws out) <->
                In t (split_ws (toLowerCase (replace_special raw))) /\ query_word t)
  /\ ((forall t, In t (split_ws (toLowerCase (replace_special raw))) -> ~ query_word t) ->
      forall t, In t (split_ws out) <->
                In t (split_ws (replace_special raw)) /\ fallback_word t).
Proof.
  intros Hw Hfw out.
  pose proof (query_tokens_spec raw) as Ht.
  pose proof (fallback_tokens_spec raw) as Hfb.
  set (fb := filter (fun t => Nat.ltb 1 (String.length t)
                              && negb (has FTS5_OPERATORS (toLowerCase t)))
                    (split_ws (replace_special raw))) in *.
  assert (Hfbne : fb <> []).
  { intros E. assert (Hin : In w fb) by (apply fallback_tokens_In; now split).
    rewrite E in Hin. destruct Hin. }
  assert (Hout : exists ts, ts <> [] /\ out = join " " ts
                 /\ Forall (fun t => token_like t /\ is_operator_token t = false) ts
                 /\ (query_tokens raw <> [] -> ts = query_tokens raw)
                 /\ (query_tokens raw = [] -> ts = fb)).
  { unfold out, sanitizeQuery. destruct (query_tokens raw) as [|t ts] eqn:Eq.
    - exists fb. split; [exact Hfbne|]. split.
      + unfold query_fallback. fold fb.
        rewrite (trim_join (Forall_token_like _ fb Hfb)).
        now rewrite (is_empty_join Hfbne (Forall_token_like _ fb Hfb)).
      + split; [exact Hfb|]. split; [congruence|reflexivity].
    - exists (t :: ts). split; [discriminate|]. split; [reflexivity|].
      split; [exact Ht|]. split; [reflexivity|discriminate]. }
  destruct Hout as [ts [Hne [Eout [Hts [Htok Hfall]]]]].
  assert (Hsplit : split_ws out = ts).
  { rewrite Eout. apply split_ws_join; [exact Hne|]. exact (Forall_token_like _ ts Hts). }
  split; [now rewrite Hsplit|].
  split; [rewrite Eout; now apply no_operator_in_join|].
  split.
  - intros [t0 Ht0] t. rewrite Hsplit, Htok; [apply query_tokens_In|].
    intros E. apply query_tokens_In in Ht0. rewrite E in Ht0. destruct Ht0.
  - intros Hnone t. rewrite Hsplit, Hfall; [apply fallback_tokens_In|].
    destruct (query_tokens raw) as [|t0 l] eqn:E; [reflexivity|].
    exfalso. assert (Hin : In t0 (query_tokens raw)) by (rewrite E; now left).
    apply query_tokens_In in Hin as [Hin Hq]. exact (Hnone t0 Hin Hq).
Qed.

Lemma sanitizeQuery_no_operator_witness :
  sanitizeQuery "NOT the Authentication AND near tokens" = "authentication tokens"
  /\ has_operator_token (sanitizeQuery "NOT the Authentication AND near tokens") = false
  /\ sanitizeQuery "The IS or" = "The IS"
  /\ has_operator_token (sanitizeQuery "The IS or") = false.
Proof.
  assert (H1 : In "tokens" (split_ws (replace_special "NOT the Authentication AND near tokens")))
    by (vm_compute; tauto).
  assert (F1 : fallback_word "tokens").
  { split; [vm_compute; lia|]. vm_compute. intuition discriminate. }
  assert (H2 : In "The" (split_ws (replace_special "The IS or"))) by (vm_compute; tauto).
  assert (F2 : fallback_word "The").
  { split; [vm_compute; lia|]. vm_compute. intuition discriminate. }
  destruct (sanitizeQuery_no_operator "NOT the Authentication AND near tokens" "tokens" H1 F1)
    as [_ [O1 _]].
  destruct (sanitizeQuery_no_operator "The IS or" "The" H2 F2) as [_ [O2 _]].
  split; [vm_compute; reflexivity|]. split; [exact O1|].
  split; [vm_compute; reflexivity|exact O2].
Defined.

(** ** Store: duplicates, insert, lookup *)

Section StoreExtras.

Variable fts5 : string -> list FtsRow -> option (FtsRow -> option Q).

Lemma In_dedup_candidates (pid : option string) (db : Db) (m : Memory) :
  In m (dedup_candidates pid db) -> In m (memory db) /\ in_scope pid m = true.
Proof.
  unfold dedup_candidates. intros H.
  apply In_firstn, sort_by_In, filter_In in H. exact H.
Qed.

(** What [findDuplicate] can report. *)
Lemma findDuplicate_result (c : string) (pid : option string) (db : Db) :
  exists r,
    findDuplicate fts5 c pid db = (Ok r, db)
    /\ match r with
       | None => True
       | Some (exact, m) =>
           In m (memory db) /\ in_scope pid m = true
           /\ normalizeText (content m) = normalizeText c
       | Some (near, m) =>
           In m (memory db) /\ in_scope pid m = true
           /\ (6 # 10 < computeSimilarity (normalizeText c)
                                          (normalizeText (content m)))%Q
       end.
Proof.
  unfold findDuplicate, bind, get_db, try_catch, ret.
  destruct (find (same_text (normalizeText c)) (dedup_candidates pid db)) as [m|] eqn:Ef.
  - exists (Some (exact, m)). split; [reflexivity|].
    apply find_some in Ef as [Hin Hs].
    destruct (In_dedup_candidates pid db m Hin) as [H1 H2].
    repeat split; try assumption. now apply String.eqb_eq in Hs.
  - destruct (dedup_query c) as [q|]; [|now exists None].
    unfold fts_select.
    destruct (fts_rows fts5 q (in_scope pid) 5 db) as [rows|] eqn:Er; [|now exists None].
    destruct (find (similar (normalizeText c)) rows) as [r|] eqn:Es; [|now exists None].
    exists (Some (near, fst r)). split; [reflexivity|].
    apply find_some in Es as [Hin Hs].
    destruct (fts_rows_In fts5 _ _ _ _ _ _ Er Hin) as [H1 H2].
    repeat split; try assumption. now apply Qlt_bool_iff in Hs.
Qed.


Lemma find_id_app_fresh (l : list Memory) (row : Memory) :
  existsb (fun m => String.eqb (id m) (id row)) l = false ->
  find (fun m => String.eqb (id m) (id row)) (l ++ [row]) = Some row.
Proof.
  induction l as [|x l IH]; simpl; intros H.
  - now rewrite String.eqb_refl.
  - apply orb_false_iff in H as [Hx Hl]. rewrite Hx. now apply IH.
Qed.

(** The four ways [storeMemory] can go. *)
Lemma storeMemory_cases (uuid : string) (now : Z) (input : StoreInput) (db : Db) :
  (valid_content (s_content input) = false
   /\ exists msg, storeMemory fts5 uuid now input db = (Throw msg, db))
  \/ (valid_content (s_content input) = true /\ force input = false
      /\ exists m, findDuplicate fts5 (s_content input) (store_scope input) db
                   = (Ok (Some (exact, m)), db)
                   /\ storeMemory fts5 uuid now input db = (Ok m, db))
  \/ (valid_content (s_content input) = true /\ force input = false
      /\ exists m m' db',
           findDuplicate fts5 (s_content input) (store_scope input) db
           = (Ok (Some (near, m)), db)
           /\ storeMemory fts5 uuid now input db = (Ok m', db')
           /\ find (fun x => String.eqb (id x) (id m)) (memory db') = Some m'
           /\ id m' = id m /\ content m' = s_content input
           /\ map id (memory db') = map id (memory db)
           /\ exists upd,
                memory db' = map (fun x => if String.eqb (id x) (id m) then upd x else x)
                                 (memory db)
                /\ (forall x, id (upd x) = id x /\ project_id (upd x) = project_id x
                              /\ time_created (upd x) = time_created x)
                /\ exists e, In e (memory db) /\ id e = id m /\ m' = upd e)
  \/ (valid_content (s_content input) = true
      /\ memory_exists uuid db = true
      /\ exists msg, storeMemory fts5 uuid now input db = (Throw msg, db))
  \/ (valid_content (s_content input) = true
      /\ memory_exists uuid db = false
      /\ exists db',
           storeMemory fts5 uuid now input db = (Ok (new_row uuid now input), db')
           /\ memory db' = memory db ++ [new_row uuid now input]).
Proof.
  destruct (valid_content (s_content input)) eqn:Hv.
  2:{ left. split; [reflexivity|]. unfold storeMemory, valid_content in *.
      apply andb_false_iff in Hv as [Hv|Hv]; apply negb_false_iff in Hv.
      - rewrite Hv. eexists. reflexivity.
      - destruct (is_empty (s_content input)
                  || Nat.eqb (String.length (trim (s_content input))) 0);
          [eexists; reflexivity|]. rewrite Hv. eexists. reflexivity. }
  right.
  assert (Hins : forall (Hnodup : force input = true
                   \/ findDuplicate fts5 (s_content input) (store_scope input) db
                      = (Ok None, db)),
            (memory_exists uuid db = true
             /\ exists msg, storeMemory fts5 uuid now input db = (Throw msg, db))
            \/ (memory_exists uuid db = false
                /\ exists db',
                     storeMemory fts5 uuid now input db
                     = (Ok (new_row uuid now input), db')
                     /\ memory db' = memory db ++ [new_row uuid now input])).
  { intros Hnodup. destruct (memory_exists uuid db) eqn:Hex.
    - left. split; [reflexivity|].
      pose proof (valid_content_checks _ Hv) as [Hv1 Hv2].
      unfold storeMemory. rewrite Hv1, Hv2. unfold bind at 1.
      assert (E : (if force input then ret None
                   else findDuplicate fts5 (s_content input) (store_scope input)) db
                  = (Ok None, db)).
      { destruct Hnodup as [->|Hd]; [reflexivity|].
        destruct (force input); [reflexivity|exact Hd]. }
      rewrite E. unfold bind at 1. unfold insert_memory. cbn [id]. rewrite Hex.
      eexists. reflexivity.
    - right. split; [reflexivity|].
      destruct (storeMemory_insert fts5 uuid now input db Hv Hnodup Hex)
        as [db' [E [Hm _]]].
      exists db'. now split. }
  destruct (force input) eqn:Hf.
  { right. right. destruct (Hins (or_introl eq_refl)) as [[H1 H2]|[H1 H2]];
      [left|right]; auto. }
  destruct (findDuplicate_result (s_content input) (store_scope input) db)
    as [[[[|] m]|] [Ed Hd]].
  - left. split; [reflexivity|]. split; [reflexivity|]. exists m. split; [exact Ed|].
    pose proof (valid_content_checks _ Hv) as [Hv1 Hv2].
    unfold storeMemory. rewrite Hv1, Hv2, Hf. unfold bind. now rewrite Ed.
  - right. left. split; [reflexivity|]. split; [reflexivity|].
    destruct Hd as [Hin _].
    pose proof (valid_content_checks _ Hv) as [Hv1 Hv2].
    assert (Hsome : exists e, find (fun x => String.eqb (id x) (id m)) (memory db) = Some e).
    { destruct (find (fun x => String.eqb (id x) (id m)) (memory db)) eqn:E; [eauto|].
      exfalso. eapply find_none in E; [|exact Hin]. now rewrite String.eqb_refl in E. }
    destruct Hsome as [e He].
    unfold storeMemory. rewrite Hv1, Hv2, Hf. unfold bind at 1. rewrite Ed.
    unfold bind.
    match goal with |- context [updateMemory now (id m) ?u db] =>
      destruct (@updateMemory_fields now (id m) u db e He eq_refl)
        as [db' [Eu [Hf' [Hrows [Hids _]]]]];
      set (upd := fun x : Memory => set_time_updated now (apply_fields u x)) in *
    end.
    apply find_id_some in He as [He Hine].
    exists m, (upd e), db'. rewrite Eu. unfold ret.
    split; [reflexivity|]. split; [reflexivity|]. split; [exact Hf'|].
    split; [exact He|]. split; [reflexivity|]. split; [exact Hids|].
    exists upd. split; [exact Hrows|]. split; [intros x; repeat split|].
    exists e. repeat split; assumption.
  - right. right. destruct (Hins (or_intror Ed)) as [[H1 H2]|[H1 H2]];
      [left|right]; auto.
Qed.

(** X6. A failing [storeMemory] leaves the store exactly as it was: it
    throws only for invalid content (empty, blank or over 10,000
    characters) or when the drawn identifier is already taken, and in both
    cases nothing is written. *)
Theorem storeMemory_failure_is_clean (uuid : string) (now : Z) (input : StoreInput)
    (db : Db) (msg : string) (db' : Db) :
  storeMemory fts5 uuid now input db = (Throw msg, db') ->
  db' = db
  /\ (valid_content (s_content input) = false \/ memory_exists uuid db = true).
Proof.
  intros E.
  destruct (storeMemory_cases uuid now input db)
    as [[Hv [m0 H]]|[[Hv [Hf [m [_ H]]]]|[[Hv [Hf [m [m' [d [_ [H _]]]]]]]
       |[[Hv [Hex [m0 H]]]|[Hv [Hex [d [H _]]]]]]]];
    rewrite H in E; inversion E; subst; auto.
Qed.

(** X7. What [storeMemory] returns can be read back: on a store with unique
    ids, [getMemory] of the returned memory's id gives that memory, and its
    content has the normalization of the input's content (it is the input's
    content itself unless an exact duplicate was returned). *)
Theorem storeMemory_then_getMemory (uuid : string) (now : Z) (input : StoreInput)
    (db : Db) (m : Memory) (db' : Db) :
  NoDup (map id (memory db)) ->
  storeMemory fts5 uuid now input db = (Ok m, db') ->
  getMemory (id m) db' = (Ok (Some m), db')
  /\ normalizeText (content m) = normalizeText (s_content input)
  /\ (db' <> db -> content m = s_content input).
Proof.
  intros Hnd E. unfold getMemory.
  destruct (storeMemory_cases uuid now input db)
    as [[Hv [m0 H]]|[[Hv [Hf [x [Hd H]]]]|[[Hv [Hf [x [m' [d [_ [H [Hfind [Hid [Hc _]]]]]]]]]]
       |[[Hv [Hex [m0 H]]]|[Hv [Hex [d [H Hm]]]]]]]];
    rewrite H in E; inversion E; subst; clear E.
  - destruct (findDuplicate_result (s_content input) (store_scope input) db')
      as [r [Ed Hr]].
    rewrite Hd in Ed. inversion Ed; subst. destruct Hr as [Hin [_ Hn]].
    rewrite (find_id_NoDup _ _ Hnd Hin). repeat split; [assumption|congruence].
  - rewrite Hid, Hfind, Hc. repeat split; reflexivity.
  - rewrite Hm. unfold memory_exists in Hex.
    change uuid with (id (new_row uuid now input)) in Hex.
    rewrite (find_id_app_fresh _ _ Hex). repeat split; reflexivity.
Qed.

End StoreExtras.

Lemma storeMemory_failure_is_clean_witness :
  storeMemory words_fts5 "a" 9%Z
    (mkStoreInput "a third decision" None None (Some "p1") None None false false) db_ab
  = (Throw "UNIQUE constraint failed: memory.id", db_ab)
  /\ memory_exists "a" db_ab = true.
Proof.
  assert (E : storeMemory words_fts5 "a" 9%Z
    (mkStoreInput "a third decision" None None (Some "p1") None None false false) db_ab
    = (Throw "UNIQUE constraint failed: memory.id", db_ab)) by (vm_compute; reflexivity).
  split; [exact E|].
  destruct (storeMemory_failure_is_clean words_fts5 _ _ _ _ _ _ E) as [_ [H|H]];
    [discriminate H|exact H].
Defined.

Lemma storeMemory_then_getMemory_witness :
  exists m db',
    storeMemory words_fts5 "n1" 9%Z
      (mkStoreInput "OLD   Decision" None None (Some "p1") None None false false) db_ab
    = (Ok m, db')
    /\ getMemory (id m) db' = (Ok (Some m), db')
    /\ id m = "a".
Proof.
  exists mem_a, db_ab.
  assert (E : storeMemory words_fts5 "n1" 9%Z
      (mkStoreInput "OLD   Decision" None None (Some "p1") None None false false) db_ab
    = (Ok mem_a, db_ab)) by (vm_compute; reflexivity).
  split; [exact E|]. split; [|reflexivity].
  refine (proj1 (storeMemory_then_getMemory words_fts5 _ _ _ _ _ _ _ E)).
  repeat (constructor; [simpl; intuition discriminate|]). constructor.
Defined.

(** ** Deduplication on any store *)

Lemma normalizeText_same_words_iff (a b : string) :
  normalizeText a = normalizeText b <-> same_words a b.
Proof.
  unfold same_words. split; [|apply normalizeText_same_words].
  rewrite !normalizeText_words. intros H.
  pose proof (words_token_like (toLowerCase a)) as Ha.
  pose proof (words_token_like (toLowerCase b)) as Hb.
  destruct (words (toLowerCase a)) as [|x xs] eqn:Ea;
    destruct (words (toLowerCase b)) as [|y ys] eqn:Eb.
  - reflexivity.
  - exfalso. assert (E : is_empty (join " " (y :: ys)) = false)
      by (apply is_empty_join; [discriminate|exact Hb]).
    rewrite <- H in E. discriminate E.
  - exfalso. assert (E : is_empty (join " " (x :: xs)) = false)
      by (apply is_empty_join; [discriminate|exact Ha]).
    rewrite H in E. discriminate E.
  - rewrite <- (split_ws_join (xs := x :: xs)) by (discriminate || exact Ha).
    rewrite H. apply split_ws_join; [discriminate|exact Hb].
Qed.

(** A row with at most 100 visible rows as new as itself is among the 100
    most recent visible rows, however the sort orders equal times. *)
Lemma recent_is_candidate (pid : option string) (db : Db) (m : Memory) :
  NoDup (map id (memory db)) ->
  recent_in_scope pid db m ->
  In m (dedup_candidates pid db).
Proof.
  intros Hnd [Hin [Hsc Hcount]]. unfold dedup_candidates.
  set (sorted := sort_by by_time_created_desc (filter (in_scope pid) (memory db))).
  assert (Hm : In m sorted).
  { apply sort_by_In, filter_In. now split. }
  assert (Hnds : NoDup sorted).
  { eapply Permutation_NoDup; [symmetry; apply sort_by_perm|].
    apply NoDup_filter. eapply NoDup_map_inv. exact Hnd. }
  assert (Hsorted : StronglySorted (fun a b => by_time_created_desc a b = true) sorted).
  { apply sort_by_sorted.
    - apply by_time_created_desc_total.
    - apply by_time_created_desc_trans. }
  rewrite <- (firstn_skipn 100 sorted) in Hm, Hnds, Hsorted.
  apply in_app_or in Hm as [Hm|Hm]; [exact Hm|]. exfalso.
  assert (Hlen : List.length (firstn 100 sorted) = 100).
  { rewrite length_firstn. apply Nat.min_l.
    destruct (Nat.le_gt_cases 100 (List.length sorted)) as [H|H]; [exact H|].
    rewrite skipn_all2 in Hm by lia. destruct Hm. }
  assert (Hnotin : ~ In m (firstn 100 sorted)).
  { apply in_split in Hm as [l1 [l2 E]]. rewrite E in Hnds.
    rewrite app_assoc in Hnds. apply NoDup_remove_2 in Hnds.
    intros H. apply Hnds. apply in_or_app. left. apply in_or_app. now left. }
  assert (Hincl : incl (m :: firstn 100 sorted)
                       (filter (fun x => in_scope pid x
                                         && (time_created m <=? time_created x)%Z)
                               (memory db))).
  { intros a [<-|Ha]; apply filter_In.
    - split; [exact Hin|]. rewrite Hsc. apply Z.leb_le. lia.
    - pose proof (@StronglySorted_app_le _ _ _ _ Hsorted a m Ha Hm) as Hle.
      apply In_firstn, sort_by_In, filter_In in Ha as [Ha1 Ha2].
      split; [exact Ha1|]. rewrite Ha2. exact Hle. }
  apply NoDup_incl_length in Hincl.
  - cbn [List.length] in Hincl. lia.
  - constructor; [exact Hnotin|]. eapply NoDup_app_remove_r. exact Hnds.
Qed.

Section Idempotence.

Variable fts5 : string -> list FtsRow -> option (FtsRow -> option Q).

(** The exact check on a store that holds a recent memory with the words of
    the content. *)
Lemma storeMemory_recent_duplicate (uuid : string) (now : Z) (input : StoreInput)
    (db : Db) (m : Memory) :
  NoDup (map id (memory db)) ->
  valid_content (s_content input) = true ->
  force input = false ->
  recent_in_scope (store_scope input) db m ->
  same_words (s_content input) (content m) ->
  exists m',
    storeMemory fts5 uuid now input db = (Ok m', db)
    /\ In m' (memory db)
    /\ in_scope (store_scope input) m' = true
    /\ same_words (content m') (s_content input).
Proof.
  intros Hnd Hv Hf Hrec Hw.
  pose proof (recent_is_candidate _ _ _ Hnd Hrec) as Hcand.
  destruct (find (same_text (normalizeText (s_content input)))
                 (dedup_candidates (store_scope input) db)) as [m'|] eqn:Ef.
  - exists m'. split; [now apply storeMemory_exact|].
    apply find_some in Ef as [Hin Hs].
    destruct (In_dedup_candidates _ _ _ Hin) as [H1 H2].
    split; [exact H1|]. split; [exact H2|].
    apply normalizeText_same_words_iff. now apply String.eqb_eq in Hs.
  - exfalso. apply (find_none _ _ Ef) in Hcand. unfold same_text in Hcand.
    apply String.eqb_neq in Hcand. apply Hcand.
    apply normalizeText_same_words_iff. unfold same_words in *. now symmetry.
Qed.

(** C3 (amended).  On a store with unique ids, an insert without [force]
    whose content has the words, up to letter case, of a memory that is
    visible to the insert and among its 100 most recently created rows
    returns a stored memory with those words and writes nothing; it is that
    very memory when no other visible memory has the words.  So when a
    content new to the store has been inserted and the returned memory is
    still among the 100 most recent, inserting the content again, or any
    content with the same words, returns that memory and leaves the store as
    it is, while with [force] and a fresh identifier it appends one more
    row. *)
Theorem dedup_idempotent
    (uuid1 uuid2 : string) (now1 now2 : Z) (input : StoreInput) (c2 : string) (db : Db) :
  NoDup (map id (memory db)) ->
  valid_content c2 = true ->
  force input = false ->
  let scope := store_scope input in
  (forall m,
      recent_in_scope scope db m ->
      same_words c2 (content m) ->
      exists m',
        storeMemory fts5 uuid2 now2 (with_content c2 input) db = (Ok m', db)
        /\ In m' (memory db) /\ in_scope scope m' = true
        /\ same_words (content m') c2
        /\ ((forall x, In x (memory db) -> in_scope scope x = true ->
                       same_words (content x) c2 -> x = m) -> m' = m))
  /\ (valid_content (s_content input) = true ->
      same_words c2 (s_content input) ->
      (forall x, In x (memory db) -> in_scope scope x = true ->
                 ~ same_words (content x) (s_content input)) ->
      forall m1 db1,
        storeMemory fts5 uuid1 now1 input db = (Ok m1, db1) ->
        recent_in_scope scope db1 m1 ->
        memory_exists uuid2 db1 = false ->
        List.length (memory db1) <= S (List.length (memory db))
        /\ storeMemory fts5 uuid2 now2 input db1 = (Ok m1, db1)
        /\ storeMemory fts5 uuid2 now2 (with_content c2 input) db1 = (Ok m1, db1)
        /\ exists db2,
             storeMemory fts5 uuid2 now2 (with_force input) db1
             = (Ok (new_row uuid2 now2 (with_force input)), db2)
             /\ memory db2 = memory db1 ++ [new_row uuid2 now2 (with_force input)]).
Proof.
  intros Hnd Hv2 Hf scope. split.
  - intros m Hrec Hw.
    destruct (storeMemory_recent_duplicate uuid2 now2 (with_content c2 input) db m
                Hnd Hv2 Hf Hrec Hw) as [m' [E [Hin [Hsc Hsw]]]].
    exists m'. split; [exact E|]. split; [exact Hin|]. split; [exact Hsc|].
    split; [exact Hsw|]. intros Huniq. now apply Huniq.
  - intros Hv Hw Hnew m1 db1 E1 Hrec Hfresh.
    assert (Hshape : NoDup (map id (memory db1))
                     /\ List.length (memory db1) <= S (List.length (memory db))
                     /\ same_words (content m1) (s_content input)
                     /\ (forall x, In x (memory db1) -> in_scope scope x = true ->
                                   same_words (content x) (s_content input) -> x = m1)).
    { destruct (storeMemory_cases fts5 uuid1 now1 input db) as [C|[C|[C|[C|C]]]].
      - destruct C as [Hv' _]. congruence.
      - destruct C as [_ [_ [m [Hd H]]]]. exfalso. rewrite H in E1. inversion E1; subst m1 db1.
        destruct (findDuplicate_result fts5 (s_content input) (store_scope input) db)
          as [r [Ed Hr]].
        rewrite Hd in Ed. inversion Ed; subst r. destruct Hr as [Hin [Hsc Hn]].
        apply (Hnew m Hin Hsc). now apply normalizeText_same_words_iff.
      - destruct C as [_ [_ [m [m' [d [Hd [H [Hfind [Hid [Hc [Hids Hu]]]]]]]]]]].
        destruct Hu as [upd [Hrows [Hupd [e [He [Hide Hm']]]]]].
        rewrite H in E1. inversion E1; subst m1 db1. clear E1.
        split; [now rewrite Hids|]. split; [|split].
        + apply (f_equal (@List.length string)) in Hids. rewrite !length_map in Hids. lia.
        + rewrite Hc. reflexivity.
        + intros x Hx Hsc Hsw. rewrite Hrows in Hx. apply in_map_iff in Hx as [y [Hy Hiny]].
          destruct (String.eqb_spec (id y) (id m)) as [Ey|Ey].
          * assert (y = e) by (eapply NoDup_map_inj_on; eauto; congruence).
            subst y. congruence.
          * subst x. exfalso. exact (Hnew y Hiny Hsc Hsw).
      - destruct C as [_ [_ [msg H]]]. rewrite H in E1. discriminate E1.
      - destruct C as [_ [Hex [d [H Hm]]]].
        rewrite H in E1. inversion E1; subst m1 db1. clear E1.
        split; [|split; [|split]].
        + rewrite Hm, map_app. cbn [map new_row id].
          eapply Permutation_NoDup; [apply Permutation_cons_append|].
          constructor; [|exact Hnd]. intros Hin. apply memory_exists_In in Hin. congruence.
        + rewrite Hm, length_app. cbn [List.length]. lia.
        + reflexivity.
        + intros x Hx Hsc Hsw. rewrite Hm in Hx. apply in_app_or in Hx as [Hx|[<-|[]]];
            [|reflexivity].
          exfalso. exact (Hnew x Hx Hsc Hsw). }
    destruct Hshape as [Hnd1 [Hlen [Hsw1 Huniq]]].
    split; [exact Hlen|].
    assert (Hagain : forall c, valid_content c = true -> same_words c (s_content input) ->
              storeMemory fts5 uuid2 now2 (with_content c input) db1 = (Ok m1, db1)).
    { intros c Hvc Hwc.
      destruct (storeMemory_recent_duplicate uuid2 now2 (with_content c input) db1 m1
                  Hnd1 Hvc Hf Hrec) as [m' [E [Hin [Hsc Hsw]]]].
      { unfold same_words in *. cbn [with_content s_content]. congruence. }
      assert (m' = m1).
      { apply Huniq; [exact Hin|exact Hsc|].
        unfold same_words in *. cbn [with_content s_content] in Hsw. congruence. }
      now subst m'. }
    split.
    { replace input with (with_content (s_content input) input) at 1
        by (destruct input; reflexivity).
      apply Hagain; [exact Hv|reflexivity]. }
    split; [now apply Hagain|].
    destruct (storeMemory_insert fts5 uuid2 now2 (with_force input) db1 Hv
                (or_introl eq_refl) Hfresh) as [db2 [E2 [Hm2 _]]].
    exists db2. now split.
Qed.

End Idempotence.

(** C3 (as stated, refuted).  The exact check reads only the 100 most
    recently created rows.  In a store where the memory [or] lies under 100
    newer rows, inserting [OR], which differs from it in letter case only,
    creates a second row under the new id, whatever the full-text engine:
    the content is an operator word, so no full-text query is made.  With
    99 newer rows the same insert returns the stored memory.  The content of
    scenario 1 of the specification, under 100 newer rows, is likewise
    stored a second time when the engine rejects the query. *)
Lemma dedup_misses_old_memory_counterexample :
  (forall fts5, exists db',
      storeMemory fts5 "new" 500%Z (plain_input "OR") (db_aged mem_or 100)
      = (Ok (new_row "new" 500%Z (plain_input "OR")), db')
      /\ memory db' = memory (db_aged mem_or 100) ++ [new_row "new" 500%Z (plain_input "OR")])
  /\ In mem_or (memory (db_aged mem_or 100))
  /\ same_words "OR" (content mem_or)
  /\ id (new_row "new" 500%Z (plain_input "OR")) <> id mem_or
  /\ (forall fts5,
        storeMemory fts5 "new" 500%Z (plain_input "OR") (db_aged mem_or 99)
        = (Ok mem_or, db_aged mem_or 99))
  /\ same_words "  jwt  uses  rs256  signing  " (content mem_jwt)
  /\ exists db',
       storeMemory raising_fts5 "new" 500%Z (plain_input "  jwt  uses  rs256  signing  ")
                   (db_aged mem_jwt 100)
       = (Ok (new_row "new" 500%Z (plain_input "  jwt  uses  rs256  signing  ")), db')
       /\ memory db'
          = memory (db_aged mem_jwt 100)
            ++ [new_row "new" 500%Z (plain_input "  jwt  uses  rs256  signing  ")].
Proof.
  split; [|split; [|split; [|split; [|split; [|split]]]]].
  - intros fts5.
    destruct (storeMemory_insert fts5 "new" 500%Z (plain_input "OR") (db_aged mem_or 100))
      as [db' [E [Hm _]]].
    + vm_compute. reflexivity.
    + right. unfold findDuplicate, bind, get_db, try_catch, ret.
      assert (Hfind : find (same_text (normalizeText (s_content (plain_input "OR"))))
                           (dedup_candidates (store_scope (plain_input "OR"))
                                             (db_aged mem_or 100)) = None)
        by (vm_compute; reflexivity).
      assert (Hq : dedup_query (s_content (plain_input "OR")) = None)
        by (vm_compute; reflexivity).
      rewrite Hfind, Hq. reflexivity.
    + vm_compute. reflexivity.
    + exists db'. now split.
  - left. reflexivity.
  - vm_compute. reflexivity.
  - discriminate.
  - intros fts5. apply storeMemory_exact.
    + vm_compute. reflexivity.
    + reflexivity.
    + vm_compute. reflexivity.
  - vm_compute. reflexivity.
  - destruct (storeMemory_insert raising_fts5 "new" 500%Z
                (plain_input "  jwt  uses  rs256  signing  ") (db_aged mem_jwt 100))
      as [db' [E [Hm _]]].
    + vm_compute. reflexivity.
    + right. vm_compute. reflexivity.
    + vm_compute. reflexivity.
    + exists db'. now split.
Qed.

(** On [db_abc], for project [p1]: a variant of the content of [a] returns
    [a]; a new content is inserted once, a second insert of it or of a
    variant returns the new memory, and with [force] a further row is
    added. *)
Lemma dedup_idempotent_witness :
  let input := mkStoreInput "JWT uses RS256 signing" None None (Some "p1") None None
                            false false in
  let m1 := new_row "id1" 100%Z input in
  storeMemory words_fts5 "id2" 101%Z (with_content "  OLD   Decision " input) db_abc
  = (Ok mem_a, db_abc)
  /\ exists db1 db2,
       storeMemory words_fts5 "id1" 100%Z input db_abc = (Ok m1, db1)
       /\ memory db1 = [mem_a; mem_b; mem_c; m1]
       /\ storeMemory words_fts5 "id2" 101%Z input db1 = (Ok m1, db1)
       /\ storeMemory words_fts5 "id2" 101%Z
            (with_content "  jwt  uses  rs256  signing  " input) db1 = (Ok m1, db1)
       /\ storeMemory words_fts5 "id2" 101%Z (with_force input) db1
          = (Ok (new_row "id2" 101%Z (with_force input)), db2)
       /\ memory db2 = [mem_a; mem_b; mem_c; m1; new_row "id2" 101%Z (with_force input)].
Proof.
  intros input m1.
  assert (Hnd : NoDup (map id (memory db_abc))).
  { repeat (constructor; [simpl; intuition discriminate|]). constructor. }
  split.
  - destruct (dedup_idempotent words_fts5 "id1" "id2" 100%Z 101%Z input
                "  OLD   Decision " db_abc Hnd eq_refl eq_refl) as [HA _].
    destruct (HA mem_a) as [m' [E [_ [_ [_ Hu]]]]].
    + split; [left; reflexivity|]. split; [reflexivity|]. vm_compute. lia.
    + vm_compute. reflexivity.
    + rewrite E. f_equal. f_equal. apply Hu.
      intros x [<-|[<-|[<-|[]]]] Hsc Hsw; [reflexivity| |]; vm_compute in Hsw;
        discriminate Hsw.
  - destruct (dedup_idempotent words_fts5 "id1" "id2" 100%Z 101%Z input
                "  jwt  uses  rs256  signing  " db_abc Hnd eq_refl eq_refl) as [_ HB].
    set (db1 := snd (storeMemory words_fts5 "id1" 100%Z input db_abc)).
    assert (E1 : storeMemory words_fts5 "id1" 100%Z input db_abc = (Ok m1, db1))
      by (vm_compute; reflexivity).
    assert (Hm1 : memory db1 = [mem_a; mem_b; mem_c; m1]) by (vm_compute; reflexivity).
    destruct (HB eq_refl) with (m1 := m1) (db1 := db1)
      as [_ [E2 [E3 [db2 [E4 Hm2]]]]].
    + vm_compute. reflexivity.
    + intros x [<-|[<-|[<-|[]]]] Hsc Hsw; vm_compute in Hsw; discriminate Hsw.
    + exact E1.
    + split; [rewrite Hm1; right; right; right; left; reflexivity|].
      split; [reflexivity|]. vm_compute. lia.
    + vm_compute. reflexivity.
    + exists db1, db2. rewrite Hm2, Hm1. repeat split; assumption.
Defined.

(** ** Listing *)

Lemma sql_limit_split (A : Type) (n : Z) (l : list A) :
  exists rest, l = sql_limit n l ++ rest
               /\ (rest <> [] -> (0 <= n)%Z /\ List.length (sql_limit n l) = Z.to_nat n).
Proof.
  unfold sql_limit. destruct (n <? 0)%Z eqn:E.
  - exists []. split; [now rewrite app_nil_r|]. congruence.
  - exists (skipn (Z.to_nat n) l). split; [now rewrite firstn_skipn|].
    intros Hne. apply Z.ltb_ge in E. split; [exact E|].
    rewrite length_firstn. apply Nat.min_l.
    destruct (Nat.le_gt_cases (Z.to_nat n) (List.length l)) as [H|H]; [exact H|].
    exfalso. apply Hne. apply skipn_all2. lia.
Qed.

Lemma sql_limit_length (A : Type) (n : Z) (l : list A) :
  (0 <= n)%Z -> List.length (sql_limit n l) <= Z.to_nat n.
Proof.
  intros H. unfold sql_limit. apply Z.ltb_ge in H. rewrite H.
  rewrite length_firstn. apply Nat.le_min_l.
Qed.

Lemma StronglySorted_app_l (A : Type) (R : A -> A -> Prop) (l1 l2 : list A) :
  StronglySorted R (l1 ++ l2) -> StronglySorted R l1.
Proof.
  induction l1 as [|x l1 IH]; simpl; intros H; [constructor|].
  inversion H as [|? ? Hs Hf]; subst. constructor; [now apply IH|].
  apply Forall_app in Hf. tauto.
Qed.

Lemma StronglySorted_impl (A : Type) (R S : A -> A -> Prop) (l : list A) :
  (forall a b, R a b -> S a b) -> StronglySorted R l -> StronglySorted S l.
Proof.
  intros HRS. induction 1 as [|a l Hl IH Ha]; constructor; [exact IH|].
  eapply Forall_impl; [|exact Ha]. intros b. apply HRS.
Qed.

Lemma list_filter_matches (cat pid sid scope : option string) (m : Memory) :
  (if truthy cat then opt_string_eqb (Some (category m)) cat else true)
  && (if truthy pid && String.eqb (or_default scope "all") "project" then
        opt_string_eqb (project_id m) pid
      else if String.eqb (or_default scope "all") "global" then
        opt_string_eqb (project_id m) None
      else if truthy pid && String.eqb (or_default scope "all") "all" then
        opt_string_eqb (project_id m) pid || opt_string_eqb (project_id m) None
      else true)
  && (if truthy sid then opt_string_eqb (session_id m) sid else true) = true
  <-> list_matches cat pid sid scope m.
Proof.
  unfold list_matches, list_project_cond.
  set (sc := or_default scope "all").
  rewrite !andb_true_iff.
  assert (Hc : (if truthy cat then opt_string_eqb (Some (category m)) cat else true) = true
               <-> (truthy cat = true -> Some (category m) = cat)).
  { destruct (truthy cat); [rewrite opt_string_eqb_eq|]; intuition congruence. }
  assert (Hs : (if truthy sid then opt_string_eqb (session_id m) sid else true) = true
               <-> (truthy sid = true -> session_id m = sid)).
  { destruct (truthy sid); [rewrite opt_string_eqb_eq|]; intuition congruence. }
  rewrite Hc, Hs. clear Hc Hs.
  assert (Hp : (if truthy pid && String.eqb sc "project" then
                  opt_string_eqb (project_id m) pid
                else if String.eqb sc "global" then opt_string_eqb (project_id m) None
                else if truthy pid && String.eqb sc "all" then
                  opt_string_eqb (project_id m) pid || opt_string_eqb (project_id m) None
                else true) = true
               <-> ((sc = "global" -> project_id m = None)
                    /\ (sc = "project" -> truthy pid = true -> project_id m = pid)
                    /\ (sc = "all" -> truthy pid = true ->
                        project_id m = pid \/ project_id m = None))).
  { destruct (String.eqb_spec sc "project") as [E1|E1];
      destruct (String.eqb_spec sc "global") as [E2|E2];
      destruct (String.eqb_spec sc "all") as [E3|E3];
      try (rewrite E1 in E2; discriminate E2);
      try (rewrite E1 in E3; discriminate E3);
      try (rewrite E2 in E3; discriminate E3);
      destruct (truthy pid); cbn [andb];
      rewrite ?orb_true_iff, ?opt_string_eqb_eq; intuition congruence. }
  rewrite Hp. tauto.
Qed.

(** X8. [listMemories] never throws or writes.  Its rows are memories of
    the store that meet every given condition (category, session, and the
    project condition of the scope), newest first, at most [limit || 20] of
    them; a matching memory is left out only when the limit is reached, and
    then every listed row is at least as new. *)
Theorem listMemories_spec (cat pid sid scope : option string) (lim : option Z) (db : Db) :
  exists rows,
    listMemories cat pid sid scope lim db = (Ok rows, db)
    /\ StronglySorted (fun a b => (time_created b <= time_created a)%Z) rows
    /\ (forall m, In m rows -> In m (memory db) /\ list_matches cat pid sid scope m)
    /\ ((0 <= list_limit lim)%Z -> List.length rows <= Z.to_nat (list_limit lim))
    /\ (forall m, In m (memory db) -> list_matches cat pid sid scope m ->
          In m rows
          \/ (List.length rows = Z.to_nat (list_limit lim)
              /\ forall r, In r rows -> (time_created m <= time_created r)%Z)).
Proof.
  unfold listMemories. fold (list_limit lim).
  set (keep := fun m : Memory => _ && _ && _).
  set (sorted := sort_by by_time_created_desc (filter keep (memory db))).
  exists (sql_limit (list_limit lim) sorted). split; [reflexivity|].
  assert (Hkeep : forall m, keep m = true <-> list_matches cat pid sid scope m).
  { intros m. apply list_filter_matches. }
  assert (Hsorted : StronglySorted (fun a b => by_time_created_desc a b = true) sorted).
  { apply sort_by_sorted.
    - apply by_time_created_desc_total.
    - apply by_time_created_desc_trans. }
  destruct (sql_limit_split _ (list_limit lim) sorted) as [rest [Hsplit Hrest]].
  rewrite Hsplit in Hsorted.
  split; [|split; [|split]].
  - apply StronglySorted_app_l in Hsorted.
    eapply StronglySorted_impl; [|exact Hsorted].
    intros a b Hab. now apply Z.leb_le in Hab.
  - intros m Hm. apply In_sql_limit in Hm. apply sort_by_In, filter_In in Hm.
    split; [tauto|]. apply Hkeep. tauto.
  - apply sql_limit_length.
  - intros m Hin Hmatch.
    assert (Hs : In m sorted).
    { apply sort_by_In, filter_In. split; [exact Hin|]. now apply Hkeep. }
    rewrite Hsplit in Hs. apply in_app_or in Hs as [Hs|Hs]; [now left|right].
    split.
    + apply Hrest. intros ->. contradiction.
    + intros r Hr.
      pose proof (@StronglySorted_app_le _ _ _ _ Hsorted r m Hr Hs) as H.
      now apply Z.leb_le in H.
Qed.

(** ** Tags *)

Lemma tag_row_exists (mid t : string) (rows : list TagRow) :
  existsb (fun r => String.eqb (memory_id r) mid && String.eqb (tag r) t) rows = true
  <-> In (mkTag mid t) rows.
Proof.
  rewrite existsb_exists. split.
  - intros [[m x] [Hin H]]. apply andb_true_iff in H as [H1 H2].
    apply String.eqb_eq in H1, H2. simpl in *. now subst.
  - intros H. exists (mkTag mid t). split; [exact H|].
    simpl. now rewrite !String.eqb_refl.
Qed.

Lemma tags_of_In (db : Db) (j t : string) :
  In t (tags_of db j) <-> In (mkTag j t) (memory_tags db).
Proof.
  unfold tags_of, getTagsForMemory. cbn [fst]. rewrite in_map_iff. split.
  - intros [[m x] [Ht Hin]]. apply filter_In in Hin as [Hin Hm].
    apply String.eqb_eq in Hm. simpl in *. now subst.
  - intros H. exists (mkTag j t). split; [reflexivity|].
    apply filter_In. split; [exact H|]. simpl. apply String.eqb_refl.
Qed.

(** The insert loop of [addTags] and [setTags] on an existing memory. *)
Lemma insert_tags_rows (mid : string) (ts : list string) (db : Db) :
  memory_exists mid db = true ->
  NoDup (tags_of db mid) ->
  exists db',
    for_each (fun t => insert_tag mid (norm_tag t)) ts db = (Ok tt, db')
    /\ memory db' = memory db /\ memory_links db' = memory_links db
    /\ memory_fts db' = memory_fts db /\ metadata db' = metadata db
    /\ NoDup (tags_of db' mid)
    /\ (forall r, In r (memory_tags db') <->
                  In r (memory_tags db)
                  \/ (memory_id r = mid /\ In (tag r) (map norm_tag ts))).
Proof.
  revert db. induction ts as [|t ts IH]; intros db Hex Hnd.
  - exists db. simpl. unfold ret. repeat split; auto. intros [H|[_ []]]. exact H.
  - simpl. unfold bind. unfold insert_tag at 1.
    destruct (existsb _ (memory_tags db)) eqn:Ee.
    + destruct (IH db Hex Hnd) as [db' [E [H1 [H2 [H3 [H4 [H5 H6]]]]]]].
      exists db'. rewrite E. repeat split; auto.
      * intros Hr. apply H6 in Hr. tauto.
      * intros [Hr|[Hm [Ht|Ht]]]; apply H6; auto.
        left. apply tag_row_exists in Ee. destruct r as [m x]. simpl in *. now subst.
    + rewrite Hex. cbn [negb]. cbv beta iota.
      set (db1 := mkDb _ _ _ _ _).
      assert (Hnd1 : NoDup (tags_of db1 mid)).
      { unfold tags_of, getTagsForMemory, db1 in *. cbn [fst memory_tags] in *.
        rewrite filter_app, map_app. cbn [filter memory_id]. rewrite String.eqb_refl.
        cbn [map tag app].
        eapply Permutation_NoDup; [apply Permutation_cons_append|].
        constructor; [|exact Hnd].
        intros Hin. apply in_map_iff in Hin as [[m x] [Ht Hin]].
        apply filter_In in Hin as [Hin Hm]. apply String.eqb_eq in Hm.
        simpl in *. subst.
        assert (H : existsb (fun r => String.eqb (memory_id r) mid
                                        && String.eqb (tag r) (norm_tag t))
                            (memory_tags db) = true)
          by now apply tag_row_exists.
        congruence. }
      destruct (IH db1 Hex Hnd1) as [db' [E [H1 [H2 [H3 [H4 [H5 H6]]]]]]].
      exists db'. rewrite E. repeat split; auto.
      * intros Hr. apply H6 in Hr as [Hr|Hr]; [|tauto].
        unfold db1 in Hr. cbn [memory_tags] in Hr.
        apply in_app_or in Hr as [Hr|[<-|[]]]; auto.
      * intros [Hr|[Hm [Ht|Ht]]]; apply H6; auto.
        -- left. unfold db1. cbn [memory_tags]. apply in_or_app. now left.
        -- left. unfold db1. cbn [memory_tags]. apply in_or_app. right. left.
           destruct r as [m x]. simpl in *. now subst.
Qed.

(** Inserting tags that are all present changes nothing. *)
Lemma insert_tags_present (mid : string) (ts : list string) (db : Db) :
  (forall t, In t ts -> In (mkTag mid (norm_tag t)) (memory_tags db)) ->
  for_each (fun t => insert_tag mid (norm_tag t)) ts db = (Ok tt, db).
Proof.
  induction ts as [|t ts IH]; intros H; [reflexivity|].
  simpl. unfold bind. unfold insert_tag at 1.
  assert (E : existsb (fun r => String.eqb (memory_id r) mid
                                && String.eqb (tag r) (norm_tag t))
                      (memory_tags db) = true).
  { apply tag_row_exists, H. now left. }
  rewrite E. apply IH. intros x Hx. apply H. now right.
Qed.

(** The delete loop of [removeTags]. *)
Lemma remove_tags_rows (mid : string) (ts : list string) (db : Db) :
  exists db',
    removeTags mid ts db = (Ok tt, db')
    /\ memory db' = memory db /\ memory_links db' = memory_links db
    /\ memory_fts db' = memory_fts db /\ metadata db' = metadata db
    /\ (forall r, In r (memory_tags db') <->
                  In r (memory_tags db)
                  /\ ~ (memory_id r = mid /\ In (tag r) (map norm_tag ts))).
Proof.
  unfold removeTags. revert db. induction ts as [|t ts IH]; intros db.
  - exists db. simpl. unfold ret. repeat split; auto; tauto.
  - simpl. unfold bind. unfold delete_tags at 1.
    set (db1 := mkDb _ _ _ _ _).
    destruct (IH db1) as [db' [E [H1 [H2 [H3 [H4 H5]]]]]].
    exists db'. rewrite E. repeat split; auto.
    + apply H5 in H. destruct H as [H _]. unfold db1 in H. cbn [memory_tags] in H.
      now apply filter_In in H.
    + intros [Hm [Ht|Ht]].
      * apply H5 in H as [H _]. unfold db1 in H. cbn [memory_tags] in H.
        apply filter_In in H as [_ H]. rewrite Hm, <- Ht, !String.eqb_refl in H.
        discriminate H.
      * apply H5 in H as [_ H]. apply H. now split.
    + intros [Hin Hn]. apply H5. split.
      * unfold db1. cbn [memory_tags]. apply filter_In. split; [exact Hin|].
        apply negb_true_iff, andb_false_iff.
        destruct (String.eqb_spec (memory_id r) mid) as [Hm|Hm]; [|now left].
        destruct (String.eqb_spec (tag r) (norm_tag t)) as [Ht|Ht]; [|now right].
        exfalso. apply Hn. split; [exact Hm|]. left. now symmetry.
      * intros [Hm Ht]. apply Hn. split; [exact Hm|]. now right.
Qed.

(** X9. [setTags] on an existing memory replaces its tags: afterwards the
    memory carries exactly the normalized (lower-cased, trimmed) given tags,
    each once; the tags of every other memory and all other tables are
    untouched. *)
Theorem setTags_replaces (i : string) (ts : list string) (db : Db) :
  memory_exists i db = true ->
  exists db',
    setTags i ts db = (Ok tt, db')
    /\ memory db' = memory db /\ memory_links db' = memory_links db
    /\ memory_fts db' = memory_fts db /\ metadata db' = metadata db
    /\ NoDup (tags_of db' i)
    /\ (forall t, In t (tags_of db' i) <-> In t (map norm_tag ts))
    /\ (forall j t, j <> i -> In t (tags_of db' j) <-> In t (tags_of db j)).
Proof.
  intros Hex. unfold setTags, bind. unfold delete_tags at 1.
  set (db1 := mkDb _ _ _ _ _).
  assert (Hnone : forall r, In r (memory_tags db1) -> memory_id r <> i).
  { intros r Hr Hm. unfold db1 in Hr. cbn [memory_tags] in Hr.
    apply filter_In in Hr as [_ Hr]. rewrite Hm, String.eqb_refl in Hr. discriminate Hr. }
  assert (Hkeep : forall r, memory_id r <> i ->
                            (In r (memory_tags db1) <-> In r (memory_tags db))).
  { intros r Hr. unfold db1. cbn [memory_tags]. rewrite filter_In.
    apply String.eqb_neq in Hr. rewrite Hr. simpl. tauto. }
  assert (Hnd1 : NoDup (tags_of db1 i)).
  { replace (tags_of db1 i) with (@nil string); [constructor|].
    unfold tags_of, getTagsForMemory. cbn [fst]. symmetry.
    rewrite filter_none; [reflexivity|].
    intros r Hr. apply String.eqb_neq. now apply Hnone. }
  destruct (insert_tags_rows i ts db1 Hex Hnd1) as [db' [E [H1 [H2 [H3 [H4 [H5 H6]]]]]]].
  exists db'.
  assert (Erun : match ts with
                 | [] => ret tt
                 | _ :: _ => for_each (fun t => insert_tag i (norm_tag t)) ts
                 end db1 = (Ok tt, db')).
  { destruct ts; [|exact E]. simpl in E. exact E. }
  rewrite Erun. repeat split; auto.
  - intros Ht. apply tags_of_In, H6 in Ht as [Ht|[_ Ht]]; [|exact Ht].
    apply Hnone in Ht. now elim Ht.
  - intros Ht. apply tags_of_In, H6. right. now split.
  - intros Ht. apply tags_of_In, H6 in Ht as [Ht|[Hm _]]; [|now elim H].
    apply tags_of_In. now apply Hkeep in Ht.
  - intros Ht. apply tags_of_In, H6. left. apply Hkeep; [exact H|].
    now apply tags_of_In.
Qed.

(** X10. [addTags] on an existing memory adds the normalized tags to those it
    has and is idempotent; [removeTags] afterwards takes exactly those tags
    away again.  Tags of other memories are never touched. *)
Theorem addTags_removeTags_spec (i : string) (ts : list string) (db : Db) :
  memory_exists i db = true ->
  NoDup (tags_of db i) ->
  exists db1 db2,
    addTags i ts db = (Ok tt, db1)
    /\ NoDup (tags_of db1 i)
    /\ (forall j t, In t (tags_of db1 j) <->
                    In t (tags_of db j) \/ (j = i /\ In t (map norm_tag ts)))
    /\ addTags i ts db1 = (Ok tt, db1)
    /\ removeTags i ts db1 = (Ok tt, db2)
    /\ (forall j t, In t (tags_of db2 j) <->
                    In t (tags_of db j) /\ ~ (j = i /\ In t (map norm_tag ts))).
Proof.
  intros Hex Hnd. unfold addTags.
  destruct (insert_tags_rows i ts db Hex Hnd) as [db1 [E [H1 [H2 [H3 [H4 [H5 H6]]]]]]].
  destruct (remove_tags_rows i ts db1) as [db2 [E2 [_ [_ [_ [_ H7]]]]]].
  exists db1, db2. rewrite E. repeat split; auto.
  - intros Ht. apply tags_of_In, H6 in Ht as [Ht|[Hm Ht]].
    + left. now apply tags_of_In.
    + right. simpl in *. auto.
  - intros [Ht|[-> Ht]]; apply tags_of_In, H6.
    + left. now apply tags_of_In.
    + right. simpl. auto.
  - apply insert_tags_present. intros t Ht. apply H6. right. simpl.
    split; [reflexivity|]. now apply in_map.
  - apply tags_of_In, H7 in H as [H Hn]. apply H6 in H as [H|[Hm Ht]].
    + now apply tags_of_In.
    + elim Hn. now split.
  - apply tags_of_In, H7 in H as [_ Hn]. simpl in Hn. exact Hn.
  - intros [Ht Hn]. apply tags_of_In, H7. split.
    + apply H6. left. now apply tags_of_In.
    + simpl. exact Hn.
Qed.

(** X11. Tagging a memory that does not exist: on a store whose tag rows all
    refer to existing memories, [addTags] and [setTags] with at least one tag
    throw the foreign-key error and leave the store unchanged, while with no
    tag they succeed and change nothing; [removeTags] always succeeds and
    changes nothing. *)
Theorem tags_of_unknown_memory (i : string) (t : string) (ts : list string) (db : Db) :
  memory_exists i db = false ->
  (forall r, In r (memory_tags db) -> memory_exists (memory_id r) db = true) ->
  addTags i (t :: ts) db = (Throw "FOREIGN KEY constraint failed", db)
  /\ setTags i (t :: ts) db = (Throw "FOREIGN KEY constraint failed", db)
  /\ addTags i [] db = (Ok tt, db)
  /\ setTags i [] db = (Ok tt, db)
  /\ removeTags i (t :: ts) db = (Ok tt, db).
Proof.
  intros Hex Hfk.
  assert (Hnone : forall r, In r (memory_tags db) -> String.eqb (memory_id r) i = false).
  { intros r Hr. apply String.eqb_neq. intros Hm. apply Hfk in Hr. congruence. }
  assert (Hfirst : insert_tag i (norm_tag t) db = (Throw "FOREIGN KEY constraint failed", db)).
  { unfold insert_tag.
    destruct (existsb _ (memory_tags db)) eqn:Ee.
    - apply tag_row_exists, Hnone in Ee. simpl in Ee. rewrite String.eqb_refl in Ee.
      discriminate Ee.
    - now rewrite Hex. }
  assert (Hdel : forall q, delete_tags (fun r => String.eqb (memory_id r) i && q r) db
                           = (Ok tt, db)).
  { intros q. unfold delete_tags. rewrite filter_all.
    - now destruct db.
    - intros r Hr. rewrite (Hnone r Hr). reflexivity. }
  assert (Hdel' : delete_tags (fun r => String.eqb (memory_id r) i) db = (Ok tt, db)).
  { unfold delete_tags. rewrite filter_all.
    - now destruct db.
    - intros r Hr. rewrite (Hnone r Hr). reflexivity. }
  repeat split.
  - unfold addTags. simpl. unfold bind. now rewrite Hfirst.
  - unfold setTags, bind. rewrite Hdel'. simpl. unfold bind. now rewrite Hfirst.
  - unfold setTags, bind. now rewrite Hdel'.
  - unfold removeTags. generalize (t :: ts). intros l.
    induction l as [|x l IH]; [reflexivity|].
    simpl. unfold bind. rewrite Hdel. exact IH.
Qed.

Lemma setTags_replaces_witness :
  exists db',
    setTags "a" ["  JWT "; "jwt"; "Auth"] db_ab = (Ok tt, db')
    /\ NoDup (tags_of db' "a")
    /\ (forall t, In t (tags_of db' "a") <-> In t (map norm_tag ["  JWT "; "jwt"; "Auth"])).
Proof.
  destruct (setTags_replaces "a" ["  JWT "; "jwt"; "Auth"] db_ab eq_refl)
    as [db' [E [_ [_ [_ [_ [H5 [H6 _]]]]]]]].
  exists db'. repeat split; try assumption; apply H6.
Defined.

Lemma addTags_removeTags_spec_witness :
  exists db1 db2,
    addTags "a" ["Auth"; "auth "] db_ab = (Ok tt, db1)
    /\ addTags "a" ["Auth"; "auth "] db1 = (Ok tt, db1)
    /\ removeTags "a" ["Auth"; "auth "] db1 = (Ok tt, db2).
Proof.
  assert (Hnd : NoDup (tags_of db_ab "a")) by (vm_compute; constructor).
  destruct (addTags_removeTags_spec "a" ["Auth"; "auth "] db_ab eq_refl Hnd)
    as [db1 [db2 [E1 [_ [_ [E2 [E3 _]]]]]]].
  exists db1, db2. repeat split; assumption.
Defined.

Lemma tags_of_unknown_memory_witness :
  addTags "zz" ["x"] db_ab = (Throw "FOREIGN KEY constraint failed", db_ab)
  /\ setTags "zz" ["x"] db_ab = (Throw "FOREIGN KEY constraint failed", db_ab).
Proof.
  assert (Hfk : forall r, In r (memory_tags db_ab) ->
                          memory_exists (memory_id r) db_ab = true).
  { intros r Hr. vm_compute in Hr. repeat (destruct Hr as [<-|Hr]; [reflexivity|]).
    destruct Hr. }
  destruct (tags_of_unknown_memory "zz" "x" [] db_ab eq_refl Hfk) as [H1 [H2 _]].
  split; assumption.
Defined.

(** ** Links *)

(** The rows of the join of [getLinksForMemory]. *)
Lemma links_of_In (i : string) (db : Db) (x : LinkedMemory) :
  (In x (links_of db i) <->
      In (mkLink (l_source_id x) (l_target_id x) (l_relationship x)) (memory_links db)
      /\ In (linked_memory x) (memory db)
      /\ ((l_source_id x = i /\ id (linked_memory x) = l_target_id x)
          \/ (l_source_id x <> i /\ l_target_id x = i
              /\ id (linked_memory x) = l_source_id x))).
Proof.
  unfold links_of, getLinksForMemory. cbn [fst].
  rewrite in_flat_map. split.
  - intros [l [Hl Hx]]. apply filter_In in Hl as [Hl Hdir].
    apply in_map_iff in Hx as [m [<- Hm]]. apply filter_In in Hm as [Hm Hid].
    apply String.eqb_eq in Hid. cbn [l_source_id l_target_id l_relationship linked_memory].
    split; [now destruct l|]. split; [exact Hm|].
    destruct (String.eqb_spec (source_id l) i) as [Es|Es].
    + left. now split.
    + right. cbn [orb] in Hdir. apply String.eqb_eq in Hdir. repeat split; assumption.
  - intros [Hl [Hm Hdir]]. exists (mkLink (l_source_id x) (l_target_id x) (l_relationship x)).
    split.
    + apply filter_In. split; [exact Hl|]. cbn [source_id target_id].
      apply orb_true_iff.
      destruct Hdir as [[Hs _]|[_ [Ht _]]]; [left|right]; now apply String.eqb_eq.
    + apply in_map_iff. exists (linked_memory x). cbn [source_id target_id relationship].
      split; [now destruct x|].
      apply filter_In. split; [exact Hm|]. apply String.eqb_eq.
      destruct Hdir as [[Hs Hid]|[Hs [_ Hid]]].
      * apply String.eqb_eq in Hs. now rewrite Hs.
      * apply String.eqb_neq in Hs. now rewrite Hs.
Qed.

Lemma filter_id_length (i : string) (l : list Memory) :
  NoDup (map id l) -> In i (map id l) ->
  List.length (filter (fun m => String.eqb (id m) i) l) = 1.
Proof.
  induction l as [|m l IH]; simpl; intros Hnd Hin; [contradiction|].
  inversion Hnd as [|? ? Hnot Hnd']; subst.
  destruct (String.eqb_spec (id m) i) as [E|E].
  - simpl. f_equal. rewrite filter_none; [reflexivity|].
    intros x Hx. apply String.eqb_neq. intros Hxi. apply Hnot.
    rewrite E, <- Hxi. now apply in_map.
  - destruct Hin as [Hin|Hin]; [contradiction|]. now apply IH.
Qed.

Lemma flat_map_length_one (A B : Type) (f : A -> list B) (l : list A) :
  (forall a, In a l -> List.length (f a) = 1) ->
  List.length (flat_map f l) = List.length l.
Proof.
  induction l as [|a l IH]; simpl; intros H; [reflexivity|].
  rewrite length_app, (H a (or_introl eq_refl)), IH; [reflexivity|].
  intros x Hx. apply H. now right.
Qed.

(** X12. [getLinksForMemory] never throws or writes, and reports exactly the
    edges that touch the memory, in either direction, each joined with the
    memory at the other end: the target for an outgoing edge, the source for
    an incoming one.  On a store with referential integrity the join neither
    drops nor repeats an edge: there is one row per touching edge. *)
Theorem getLinksForMemory_spec (i : string) (db : Db) :
  integrity db ->
  getLinksForMemory i db = (Ok (links_of db i), db)
  /\ (forall x,
        In x (links_of db i) <->
        In (mkLink (l_source_id x) (l_target_id x) (l_relationship x)) (memory_links db)
        /\ In (linked_memory x) (memory db)
        /\ ((l_source_id x = i /\ id (linked_memory x) = l_target_id x)
            \/ (l_source_id x <> i /\ l_target_id x = i
                /\ id (linked_memory x) = l_source_id x)))
  /\ List.length (links_of db i)
     = List.length (filter (fun l => String.eqb (source_id l) i
                                     || String.eqb (target_id l) i)
                           (memory_links db)).
Proof.
  intros Hint. split; [reflexivity|]. split; [intros x; apply links_of_In|].
  unfold links_of, getLinksForMemory. cbn [fst].
  apply flat_map_length_one. intros l Hl. apply filter_In in Hl as [Hl _].
  rewrite length_map. apply filter_id_length; [apply Hint|].
  destruct (fk_links Hint l Hl) as [H1 H2].
  now destruct (String.eqb (source_id l) i).
Qed.

Lemma memory_exists_In_id (i : string) (db : Db) :
  memory_exists i db = true <-> exists m, In m (memory db) /\ id m = i.
Proof.
  unfold memory_exists. rewrite existsb_exists. split.
  - intros [m [Hin H]]. apply String.eqb_eq in H. eauto.
  - intros [m [Hin H]]. exists m. split; [exact Hin|]. now apply String.eqb_eq.
Qed.

(** X13. Adding an edge between two existing, distinct memories with an
    allowed relationship makes it visible from both ends: the source lists
    it with the target memory, the target lists it with the source memory.
    [removeLink] is directed: with the ends swapped it removes nothing of
    this edge; with the ends in order it returns true and removes it, and a
    second call returns false. *)
Theorem link_round_trip (s t rel : string) (ms mt : Memory) (db : Db) :
  In ms (memory db) -> id ms = s ->
  In mt (memory db) -> id mt = t ->
  s <> t ->
  In rel LINK_RELATIONSHIPS ->
  exists db1 db2 db3,
    addLink s t rel db = (Ok true, db1)
    /\ In (mkLinked s t rel mt) (links_of db1 s)
    /\ In (mkLinked s t rel ms) (links_of db1 t)
    /\ snd (removeLink t s db1) = db2
    /\ In (mkLinked s t rel mt) (links_of db2 s)
    /\ removeLink s t db2 = (Ok true, db3)
    /\ (forall x, In x (links_of db3 s) -> l_target_id x <> t)
    /\ (forall x, In x (links_of db3 t) -> l_source_id x <> s)
    /\ removeLink s t db3 = (Ok false, db3).
Proof.
  intros Hms Hs Hmt Ht Hne Hrel.
  assert (Es : memory_exists s db = true) by (apply memory_exists_In_id; eauto).
  assert (Et : memory_exists t db = true) by (apply memory_exists_In_id; eauto).
  unfold addLink, bind, getMemory, ret.
  pose proof (memory_exists_find s db) as Fs. rewrite Es in Fs.
  pose proof (memory_exists_find t db) as Ft. rewrite Et in Ft.
  destruct (find (fun m => String.eqb (id m) s) (memory db)) as [ms'|];
    [|discriminate Fs].
  destruct (find (fun m => String.eqb (id m) t) (memory db)) as [mt'|];
    [|discriminate Ft].
  apply String.eqb_neq in Hne. rewrite Hne.
  unfold insert_or_replace_link.
  apply has_In in Hrel. rewrite Hrel, Es, Et. cbn [negb andb].
  set (db1 := mkDb _ _ _ _ _).
  set (db2 := snd (removeLink t s db1)).
  set (db3 := snd (removeLink s t db2)).
  exists db1, db2, db3.
  assert (Hin1 : In (mkLink s t rel) (memory_links db1)).
  { unfold db1. cbn [memory_links]. apply in_or_app. right. now left. }
  assert (Hin2 : In (mkLink s t rel) (memory_links db2)).
  { unfold db2, removeLink, bind, delete_links, ret. cbn [snd memory_links].
    apply filter_In. split; [exact Hin1|]. cbn [source_id target_id].
    rewrite Hne. reflexivity. }
  assert (Hmem2 : memory db2 = memory db) by reflexivity.
  assert (Hgone : forall l, In l (memory_links db3) ->
                            ~ (source_id l = s /\ target_id l = t)).
  { intros l Hl [H1 H2]. unfold db3, removeLink, bind, delete_links, ret in Hl.
    cbn [snd memory_links] in Hl. apply filter_In in Hl as [_ Hl].
    rewrite H1, H2, !String.eqb_refl in Hl. discriminate Hl. }
  split; [reflexivity|].
  split.
  { apply (links_of_In s db1 (mkLinked s t rel mt)).
    cbn [l_source_id l_target_id l_relationship linked_memory].
    split; [exact Hin1|]. split; [exact Hmt|]. left. now split. }
  split.
  { apply (links_of_In t db1 (mkLinked s t rel ms)).
    cbn [l_source_id l_target_id l_relationship linked_memory].
    split; [exact Hin1|]. split; [exact Hms|]. right.
    apply String.eqb_neq in Hne. repeat split; assumption. }
  split; [reflexivity|].
  split.
  { apply (links_of_In s db2 (mkLinked s t rel mt)).
    cbn [l_source_id l_target_id l_relationship linked_memory].
    split; [exact Hin2|]. split; [exact Hmt|]. left. now split. }
  split.
  { unfold db3, removeLink, bind, ret.
    unfold delete_links at 1 2. cbn [fst snd].
    set (hit := filter _ (memory_links db2)).
    assert (Hhit : In (mkLink s t rel) hit).
    { apply filter_In. split; [exact Hin2|]. cbn [source_id target_id].
      now rewrite !String.eqb_refl. }
    destruct hit as [|h hit']; [destruct Hhit|]. reflexivity. }
  split.
  { intros x Hx Hxt. apply (links_of_In s db3 x) in Hx as [Hl [_ Hdir]].
    apply Hgone in Hl. cbn [source_id target_id] in Hl. apply Hl.
    destruct Hdir as [[H1 _]|[H1 [H2 _]]]; [now split|].
    apply String.eqb_neq in Hne. congruence. }
  split.
  { intros x Hx Hxs. apply (links_of_In t db3 x) in Hx as [Hl [_ Hdir]].
    apply Hgone in Hl. cbn [source_id target_id] in Hl. apply Hl.
    destruct Hdir as [[H1 _]|[_ [H2 _]]]; [|now split].
    apply String.eqb_neq in Hne. congruence. }
  unfold removeLink, bind, ret. unfold delete_links.
  rewrite filter_none.
  - cbn [List.length Nat.ltb Nat.leb]. f_equal. rewrite filter_all; [now destruct db3|].
    intros l Hl. apply negb_true_iff, andb_false_iff.
    destruct (String.eqb_spec (source_id l) s) as [E1|E1]; [|now left].
    destruct (String.eqb_spec (target_id l) t) as [E2|E2]; [|now right].
    exfalso. now apply (Hgone l Hl).
  - intros l Hl. apply andb_false_iff.
    destruct (String.eqb_spec (source_id l) s) as [E1|E1]; [|now left].
    destruct (String.eqb_spec (target_id l) t) as [E2|E2]; [|now right].
    exfalso. now apply (Hgone l Hl).
Qed.

Lemma link_round_trip_witness :
  exists db1 db2 db3,
    addLink "a" "b" "extends" db_ab = (Ok true, db1)
    /\ In (mkLinked "a" "b" "extends" mem_b) (links_of db1 "a")
    /\ In (mkLinked "a" "b" "extends" mem_a) (links_of db1 "b")
    /\ snd (removeLink "b" "a" db1) = db2
    /\ removeLink "a" "b" db2 = (Ok true, db3)
    /\ removeLink "a" "b" db3 = (Ok false, db3).
Proof.
  assert (Ha : In mem_a (memory db_ab)) by (left; reflexivity).
  assert (Hb : In mem_b (memory db_ab)) by (right; left; reflexivity).
  assert (Hne : "a" <> "b") by discriminate.
  assert (Hrel : In "extends" LINK_RELATIONSHIPS) by (simpl; tauto).
  destruct (link_round_trip "a" "b" "extends" mem_a mem_b db_ab
              Ha eq_refl Hb eq_refl Hne Hrel)
    as [db1 [db2 [db3 [H1 [H2 [H3 [H4 [_ [H6 [_ [_ H9]]]]]]]]]]].
  exists db1, db2, db3. repeat split; assumption.
Defined.

Lemma getLinksForMemory_spec_witness :
  getLinksForMemory "b" db_linked
  = (Ok [mkLinked "a" "b" "supersedes" mem_a], db_linked)
  /\ List.length (links_of db_linked "b") = 1.
Proof.
  destruct (getLinksForMemory_spec "b" db_linked integrity_db_linked) as [H1 [_ H3]].
  split; [exact H1|exact H3].
Defined.

(** ** Access tracking and purging *)

Lemma purge_test_iff (now days : Z) (m : Memory) :
  (time_created m <? now - days * 86400)%Z
  && (access_count m =? 0)%Z
  && match time_last_accessed m with None => true | Some _ => false end = true
  <-> purgeable now days m.
Proof.
  unfold purgeable. rewrite !andb_true_iff, Z.ltb_lt, Z.eqb_eq.
  destruct (time_last_accessed m); intuition congruence.
Qed.

Lemma purgeOldMemories_rows (now days : Z) (db : Db) (m : Memory) :
  In m (memory (snd (purgeOldMemories now days db)))
  <-> In m (memory db) /\ ~ purgeable now days m.
Proof.
  unfold purgeOldMemories, delete_memory. cbn [snd memory].
  rewrite filter_In, negb_true_iff, <- purge_test_iff.
  destruct (_ && _ && _); intuition congruence.
Qed.

(** [DELETE FROM memory WHERE p], table by table. *)
Lemma delete_memory_rows (p : Memory -> bool) (db : Db) :
  exists db',
    delete_memory p db = (Ok (List.length (filter p (memory db))), db')
    /\ List.length (memory db') + List.length (filter p (memory db))
       = List.length (memory db)
    /\ (forall m, In m (memory db') <-> In m (memory db) /\ p m = false)
    /\ (forall t, In t (memory_tags db') <->
          In t (memory_tags db)
          /\ ~ exists m, In m (memory db) /\ p m = true /\ id m = memory_id t)
    /\ (forall l, In l (memory_links db') <->
          In l (memory_links db)
          /\ ~ exists m, In m (memory db) /\ p m = true
                         /\ (id m = source_id l \/ id m = target_id l))
    /\ (forall r, In r (memory_fts db') <->
          In r (memory_fts db)
          /\ ~ exists m, In m (memory db) /\ p m = true /\ id m = fts_memory_id r)
    /\ metadata db' = metadata db.
Proof.
  assert (Hgone : forall i, has (map id (filter p (memory db))) i = false <->
                            ~ exists m, In m (memory db) /\ p m = true /\ id m = i).
  { intros i. rewrite has_not_In, in_map_iff. split; intros H [m Hm]; apply H; exists m.
    - rewrite filter_In. tauto.
    - rewrite filter_In in Hm. tauto. }
  unfold delete_memory. eexists. split; [now rewrite length_map|].
  cbn [memory memory_tags memory_links memory_fts metadata].
  split; [|split; [|split; [|split; [|split; [|reflexivity]]]]].
  - rewrite Nat.add_comm. apply filter_split_length.
  - intros m. now rewrite filter_In, negb_true_iff.
  - intros t. now rewrite filter_In, negb_true_iff, Hgone.
  - intros l. rewrite filter_In, andb_true_iff, !negb_true_iff, !Hgone.
    split; intros [Hin H]; (split; [exact Hin|]).
    + intros [m [Hm [Hp [Hi|Hi]]]]; [apply (proj1 H)|apply (proj2 H)]; eauto.
    + split; intros [m [Hm [Hp Hi]]]; apply H; eauto 6.
  - intros r. now rewrite filter_In, negb_true_iff, Hgone.
Qed.

(** X14. [purgeOldMemories] never throws; it removes exactly the memories
    created before the cutoff that were never accessed (count zero and no
    access time), returns how many they were, and takes their tags, links
    and index rows along; metadata is kept. *)
Theorem purgeOldMemories_spec (now days : Z) (db : Db) :
  exists n db',
    purgeOldMemories now days db = (Ok n, db')
    /\ (forall m, In m (memory db') <-> In m (memory db) /\ ~ purgeable now days m)
    /\ List.length (memory db') + n = List.length (memory db)
    /\ (forall t, In t (memory_tags db') <->
          In t (memory_tags db)
          /\ ~ exists m, In m (memory db) /\ purgeable now days m /\ id m = memory_id t)
    /\ (forall l, In l (memory_links db') <->
          In l (memory_links db)
          /\ ~ exists m, In m (memory db) /\ purgeable now days m
                         /\ (id m = source_id l \/ id m = target_id l))
    /\ (forall r, In r (memory_fts db') <->
          In r (memory_fts db)
          /\ ~ exists m, In m (memory db) /\ purgeable now days m
                         /\ id m = fts_memory_id r)
    /\ metadata db' = metadata db.
Proof.
  unfold purgeOldMemories.
  match goal with |- context [delete_memory ?q db] =>
    destruct (delete_memory_rows q db) as [db' [E [Hlen [Hm [Ht [Hl [Hr Hmeta]]]]]]];
    assert (Hq : forall m, q m = true <-> purgeable now days m)
      by (intros m; apply purge_test_iff);
    assert (Hex : forall (P : Memory -> Prop),
               (exists m, In m (memory db) /\ q m = true /\ P m)
               <-> (exists m, In m (memory db) /\ purgeable now days m /\ P m))
      by (intros P; split; intros [m [H1 [H2 H3]]]; exists m;
          (split; [exact H1|split; [now apply Hq|exact H3]]))
  end.
  eexists. exists db'. split; [exact E|].
  split; [|split; [|split; [|split; [|split; [|exact Hmeta]]]]].
  - intros m. rewrite Hm, <- Hq. destruct (_ && _ && _); intuition congruence.
  - exact Hlen.
  - intros t. rewrite Ht. now rewrite (Hex (fun m => id m = memory_id t)).
  - intros l. rewrite Hl.
    now rewrite (Hex (fun m => id m = source_id l \/ id m = target_id l)).
  - intros r. rewrite Hr. now rewrite (Hex (fun m => id m = fts_memory_id r)).
Qed.

Lemma touch_id (n now : Z) (m : Memory) : id (touch n now m) = id m.
Proof. reflexivity. Qed.

Lemma touch_same_but_access (n now : Z) (m : Memory) : same_but_access m (touch n now m).
Proof. unfold same_but_access. repeat split. Qed.

(** X15. [refreshMemory] of an unknown id returns null and writes nothing.
    Of a known id it returns the stored memory with the access count raised
    by 5 and the access time set, all other fields as they were; such a
    memory is out of reach of [purgeOldMemories], whatever the age bound. *)
Theorem refreshMemory_protects_from_purge (now : Z) (i : string) (db : Db)
    (now' days : Z) :
  match find (fun m => String.eqb (id m) i) (memory db) with
  | None => refreshMemory now i db = (Ok None, db)
  | Some e =>
      exists db1,
        refreshMemory now i db = (Ok (Some (touch 5 now e)), db1)
        /\ same_but_access e (touch 5 now e)
        /\ access_count (touch 5 now e) = (access_count e + 5)%Z
        /\ time_last_accessed (touch 5 now e) = Some now
        /\ In (touch 5 now e) (memory db1)
        /\ In (touch 5 now e) (memory (snd (purgeOldMemories now' days db1)))
  end.
Proof.
  destruct (find (fun m => String.eqb (id m) i) (memory db)) as [e|] eqn:Hf.
  2:{ unfold refreshMemory, bind. unfold getMemory at 1. now rewrite Hf. }
  unfold refreshMemory, bind. unfold getMemory at 1. rewrite Hf.
  unfold update_memory at 1. set (db1 := mkDb _ _ _ _ _).
  exists db1.
  assert (Hget : getMemory i db1 = (Ok (Some (touch 5 now e)), db1)).
  { unfold getMemory, db1. cbn [memory].
    rewrite find_map_update by apply touch_id. now rewrite Hf. }
  assert (Hin : In (touch 5 now e) (memory db1)).
  { unfold getMemory in Hget. inversion Hget as [Hfind].
    now apply find_id_some in Hfind. }
  split; [exact Hget|]. split; [apply touch_same_but_access|].
  split; [reflexivity|]. split; [reflexivity|]. split; [exact Hin|].
  apply purgeOldMemories_rows. split; [exact Hin|]. intros [_ [_ H]]. discriminate H.
Qed.

(** ** Search: what it returns and what it writes *)

Lemma Forall2_refl_on (A : Type) (R : A -> A -> Prop) (l : list A) :
  (forall a, R a a) -> Forall2 R l l.
Proof. intros H. induction l; constructor; auto. Qed.

Lemma Forall2_map_r (A B : Type) (R : A -> B -> Prop) (f : A -> B) (l : list A) :
  (forall a, R a (f a)) -> Forall2 R l (map f l).
Proof. intros H. induction l; simpl; constructor; auto. Qed.

Lemma Forall2_trans_with (A : Type) (R S T : A -> A -> Prop) (l1 l2 l3 : list A) :
  (forall a b c, R a b -> S b c -> T a c) ->
  Forall2 R l1 l2 -> Forall2 S l2 l3 -> Forall2 T l1 l3.
Proof.
  intros H H12. revert l3. induction H12 as [|a b l1 l2 Hab H12 IH]; intros l3 H23;
    inversion H23; subst; constructor; eauto.
Qed.

Lemma tracked_none (now : Z) (a : Memory) : tracked now [] a a.
Proof.
  unfold tracked, same_but_access. split; [repeat split|].
  split; [lia|]. split; [reflexivity|]. intros [].
Qed.

Lemma touch_rows_tracked (now : Z) (top : list (Memory * R)) (db : Db) :
  exists db',
    for_each (fun r => update_memory (id (fst r)) (touch 1 now) ;;; ret tt) top db
    = (Ok tt, db')
    /\ Forall2 (tracked now (map (fun r => id (fst r)) top)) (memory db) (memory db')
    /\ memory_tags db' = memory_tags db /\ memory_links db' = memory_links db
    /\ metadata db' = metadata db
    /\ (top = [] -> db' = db).
Proof.
  revert db. induction top as [|r top IH]; intros db.
  - exists db. simpl. unfold ret. repeat split; auto.
    apply Forall2_refl_on. apply tracked_none.
  - simpl. unfold bind at 1. unfold bind at 1. unfold update_memory at 1. unfold ret at 1.
    set (db1 := mkDb _ _ _ _ _).
    destruct (IH db1) as [db' [E [HF [H1 [H2 [H3 _]]]]]].
    exists db'. split; [exact E|]. split; [|repeat split; auto; discriminate].
    eapply Forall2_trans_with; [| |exact HF].
    2:{ unfold db1. cbn [memory].
        apply Forall2_map_r with
          (R := fun m m' => m' = if String.eqb (id m) (id (fst r)) then touch 1 now m else m).
        reflexivity. }
    intros a b c Hab Hbc. cbv beta in Hab. subst b.
    destruct Hbc as [Hs [Hle [Hno Hyes]]].
    destruct (String.eqb_spec (id a) (id (fst r))) as [Ea|Ea].
    + unfold tracked. cbn [touch id access_count] in *.
      unfold same_but_access in *. cbn in *.
      split; [tauto|]. split; [lia|]. split; [intros Hn; elim Hn; left; now symmetry|].
      intros _. destruct (in_dec string_dec (id a) (map (fun r0 => id (fst r0)) top))
        as [Hin|Hin].
      * destruct (Hyes Hin) as [Ht Hc]. split; [exact Ht|lia].
      * rewrite (Hno Hin). cbn. split; [reflexivity|lia].
    + unfold tracked. split; [exact Hs|]. split; [exact Hle|]. split.
      * intros Hn. apply Hno. intros Hin. apply Hn. now right.
      * intros [Hin|Hin]; [elim Ea; now symmetry|]. now apply Hyes.
Qed.

Lemma In_slice0 (A : Type) (n : Z) (l : list A) (x : A) : In x (slice0 n l) -> In x l.
Proof. unfold slice0. destruct (n <? 0)%Z; apply In_firstn. Qed.

Lemma slice0_length (A : Type) (n : Z) (l : list A) :
  (0 <= n)%Z -> List.length (slice0 n l) <= Z.to_nat n.
Proof.
  intros H. unfold slice0. apply Z.ltb_ge in H. rewrite H.
  rewrite length_firstn. apply Nat.le_min_l.
Qed.

Lemma In_rerank (now : Z) (rate : Q) (lim : Z) (rows : list (Memory * Q)) (r : Memory * R) :
  In r (rerank now rate lim rows) -> exists q, In (fst r, q) rows.
Proof.
  unfold rerank. intros H. apply In_slice0, sort_by_In, in_map_iff in H
    as [[m q] [<- Hin]]. now exists q.
Qed.

Lemma rerank_length (now : Z) (rate : Q) (lim : Z) (rows : list (Memory * Q)) :
  (0 <= lim)%Z -> List.length (rerank now rate lim rows) <= Z.to_nat lim.
Proof. apply slice0_length. Qed.

Section SearchExtras.

Variable fts5 : string -> list FtsRow -> option (FtsRow -> option Q).

(** X16. [searchMemories] never throws.  Every result is a memory of the
    store that meets the category and project conditions, returned with its
    access count raised by one and the access time set; there are at most
    [limit || 10] of them.  The only writes are to the access fields of the
    returned memories: each of them is marked as accessed now, every other
    memory, and every tag, link and metadata row, stays as it was.  With an
    empty sanitized query, or when the engine rejects the query, the result
    is empty and nothing is written. *)
Theorem searchMemories_behaviour (now : Z) (input : SearchInput) (db : Db) :
  exists results db',
    searchMemories fts5 now input db = (Ok results, db')
    /\ ((0 <= search_limit input)%Z ->
        List.length results <= Z.to_nat (search_limit input))
    /\ (forall r, In r results ->
          exists m, In m (memory db) /\ search_keep input m = true
                    /\ sr_memory r = touch 1 now m)
    /\ Forall2 (tracked now (map (fun r => id (sr_memory r)) results))
               (memory db) (memory db')
    /\ memory_tags db' = memory_tags db /\ memory_links db' = memory_links db
    /\ metadata db' = metadata db
    /\ (results = [] -> db' = db)
    /\ (is_empty (trim (sanitizeQuery (query input))) = true
        \/ fts5 (sanitizeQuery (query input)) (memory_fts db) = None ->
        results = []).
Proof.
  assert (Hnone : exists results db',
            (Ok (@nil SearchResult), db) = (Ok results, db')
            /\ ((0 <= search_limit input)%Z ->
                List.length results <= Z.to_nat (search_limit input))
            /\ (forall r, In r results ->
                  exists m, In m (memory db) /\ search_keep input m = true
                            /\ sr_memory r = touch 1 now m)
            /\ Forall2 (tracked now (map (fun r => id (sr_memory r)) results))
                       (memory db) (memory db')
            /\ memory_tags db' = memory_tags db /\ memory_links db' = memory_links db
            /\ metadata db' = metadata db
            /\ (results = [] -> db' = db)
            /\ (is_empty (trim (sanitizeQuery (query input))) = true
                \/ fts5 (sanitizeQuery (query input)) (memory_fts db) = None ->
                results = [])).
  { exists [], db. split; [reflexivity|]. split; [simpl; lia|].
    split; [intros r []|]. split; [apply Forall2_refl_on, tracked_none|].
    repeat split; auto. }
  destruct (is_empty (trim (sanitizeQuery (query input)))) eqn:Hq.
  { unfold searchMemories. rewrite Hq. exact Hnone. }
  destruct (fts_rows fts5 (sanitizeQuery (query input)) (search_keep input)
                     (Z.min (search_limit input * 3) 100) db) as [rows|] eqn:Hrows.
  2:{ unfold searchMemories. rewrite Hq.
      unfold bind, try_catch, fts_select, ret. rewrite Hrows. exact Hnone. }
  set (top := rerank now (search_rate input) (search_limit input) rows).
  destruct (touch_rows_tracked now top db) as [db' [E [HF [H1 [H2 [H3 H4]]]]]].
  assert (Erun : searchMemories fts5 now input db
                 = (Ok (map (fun r => mkSearchResult (touch 1 now (fst r)) (snd r)) top),
                    db')).
  { unfold searchMemories. rewrite Hq.
    set (F := fun r : Memory * R => update_memory (id (fst r)) (touch 1 now) ;;; ret tt) in *.
    unfold bind, try_catch, fts_select, ret. rewrite Hrows. fold top. now rewrite E. }
  rewrite Erun.
  eexists. exists db'. split; [reflexivity|].
  assert (Hids : map (fun r => id (sr_memory r))
                     (map (fun r => mkSearchResult (touch 1 now (fst r)) (snd r)) top)
                 = map (fun r => id (fst r)) top).
  { rewrite map_map. reflexivity. }
  rewrite Hids.
  split; [|split; [|split; [exact HF|split; [exact H1|split; [exact H2|split;
    [exact H3|split]]]]]].
  - intros Hl. rewrite length_map. now apply rerank_length.
  - intros r Hr. apply in_map_iff in Hr as [x [<- Hx]].
    apply In_rerank in Hx as [q Hx].
    destruct (fts_rows_In fts5 _ _ _ _ _ _ Hrows Hx) as [Hm Hk].
    exists (fst x). cbn [sr_memory fst] in *. repeat split; assumption.
  - intros Hnil. apply H4. now apply map_eq_nil in Hnil.
  - intros [Hc|Hc]; [congruence|].
    unfold fts_rows in Hrows. rewrite Hc in Hrows. discriminate Hrows.
Qed.

End SearchExtras.

(** ** Maintenance schedule *)

Local Open Scope Q_scope.

(** Integers below 2^53 in magnitude are doubles. *)
Lemma round_double_Z (z : Z) :
  (Z.abs z < 2 ^ 53)%Z -> round_double (inject_Z z) = JsFinite (inject_Z z).
Proof.
  intros Hz. unfold round_double.
  assert (Hred : forall k, Qred (inject_Z k) = inject_Z k).
  { intros k. unfold Qred, inject_Z.
    pose proof (Z.ggcd_gcd k 1) as Hg. pose proof (Z.ggcd_correct_divisors k 1) as Hd.
    destruct (Z.ggcd k 1) as [g [aa bb]]. cbn [fst snd] in *.
    rewrite Z.gcd_1_r in Hg. subst g. destruct Hd as [Hd1 Hd2].
    replace aa with k by lia. replace bb with 1%Z by lia. reflexivity. }
  rewrite Hred.
  destruct (Qeq_bool (inject_Z z) 0) eqn:E0.
  { apply Qeq_bool_iff in E0. unfold Qeq in E0. cbn in E0.
    assert (z = 0%Z) by lia. now subst z. }
  assert (Hz0 : z <> 0%Z).
  { intros ->. discriminate E0. }
  change (Qabs (inject_Z z)) with (inject_Z (Z.abs z)).
  set (a := inject_Z (Z.abs z)).
  assert (Ha1 : 1 <= a).
  { unfold a. change 1 with (inject_Z 1). rewrite <- Zle_Qle. lia. }
  assert (Ha : 0 < a) by Lqa.lra.
  assert (Ha2 : a < pow2 53).
  { unfold a. rewrite (pow2_Z 53) by lia. rewrite <- Zlt_Qlt. exact Hz. }
  pose proof (binade_ge a 0 Ha Ha1) as He1.
  pose proof (binade_le a 52 Ha Ha2) as He2.
  rewrite Z.max_l by lia.
  set (e := binade a) in *.
  set (u := pow2 (e - 52)).
  assert (Hu : 0 < u) by apply pow2_pos.
  assert (Hone : inject_Z (2 ^ (52 - e)) * u == 1).
  { unfold u. rewrite <- (pow2_Z (52 - e)) by lia. rewrite <- pow2_plus.
    now replace (52 - e + (e - 52))%Z with 0%Z by lia. }
  assert (Hdiv : a / u == inject_Z (Z.abs z * 2 ^ (52 - e))).
  { assert (Hinv : inject_Z (2 ^ (52 - e)) == / u).
    { apply (Qmult_inj_r _ _ u); [Lqa.lra|]. rewrite Hone. field. Lqa.lra. }
    rewrite inject_Z_mult, Hinv. reflexivity. }
  assert (Hm : round_half_even (a / u) = (Z.abs z * 2 ^ (52 - e))%Z).
  { apply Z.le_antisymm.
    - apply round_half_even_le. rewrite Hdiv. apply Qle_refl.
    - apply round_half_even_ge. rewrite Hdiv. apply Qle_refl. }
  rewrite Hm.
  assert (Hr : Qred (inject_Z (Z.abs z * 2 ^ (52 - e)) * u) = a).
  { unfold a. rewrite <- (Hred (Z.abs z)). apply Qred_complete.
    rewrite inject_Z_mult, <- Qmult_assoc, Hone. ring. }
  rewrite Hr.
  assert (Ho : Qle_bool (pow2 1024) a = false).
  { destruct (Qle_bool (pow2 1024) a) eqn:E; [|reflexivity].
    apply Qle_bool_iff in E. exfalso.
    assert (pow2 53 <= pow2 1024) by (apply pow2_le; lia). Lqa.lra. }
  rewrite Ho. f_equal.
  destruct (Qlt_bool (inject_Z z) 0) eqn:Es.
  - apply Qlt_bool_iff in Es. change 0 with (inject_Z 0) in Es. rewrite <- Zlt_Qlt in Es.
    unfold a, inject_Z, Qopp. cbn [Qnum Qden]. f_equal. lia.
  - assert (~ inject_Z z < 0).
    { intros H. apply Qlt_bool_iff in H. congruence. }
    change 0 with (inject_Z 0) in H. rewrite <- Zlt_Qlt in H.
    unfold a. f_equal. lia.
Qed.

(** The sign of the nearest double is that of the rational. *)
Lemma round_double_sign (x : Q) :
  match round_double x with
  | JsNaN => False
  | JsInf negative => negative = Qlt_bool x 0
  | JsFinite d => if Qlt_bool x 0 then d <= 0 else 0 <= d
  end.
Proof.
  unfold round_double.
  pose proof (Qred_correct x) as Hq. set (q := Qred x) in *.
  assert (Es : Qlt_bool q 0 = Qlt_bool x 0) by (apply Qlt_bool_comp; [exact Hq|reflexivity]).
  destruct (Qeq_bool q 0) eqn:E0.
  - apply Qeq_bool_iff in E0. rewrite <- Es.
    replace (Qlt_bool q 0) with false; [apply Qle_refl|].
    symmetry. destruct (Qlt_bool q 0) eqn:E; [|reflexivity].
    apply Qlt_bool_iff in E. rewrite E0 in E. discriminate E.
  - set (u := pow2 (Z.max (binade (Qabs q)) (-1022) - 52)).
    set (m := round_half_even (Qabs q / u)).
    assert (Hu : 0 < u) by apply pow2_pos.
    assert (Hm : (0 <= m)%Z).
    { apply round_half_even_nonneg. apply Qle_shift_div_l; [exact Hu|].
      rewrite Qmult_0_l. apply Qabs_nonneg. }
    rewrite Zle_Qle in Hm. change (inject_Z 0) with 0 in Hm.
    pose proof (Qred_correct (inject_Z m * u)) as Hr.
    set (r := Qred (inject_Z m * u)) in *.
    assert (Hr0 : 0 <= r) by (rewrite Hr; Lqa.nra).
    destruct (Qle_bool (pow2 1024) r); [exact Es|].
    rewrite Es. destruct (Qlt_bool x 0); Lqa.lra.
Qed.

(** [round_double] against a double [K * 2^(t-52)] with an even
    significand: a rational rounds to that double or above exactly from
    the midpoint between the double and its predecessor on. *)
Lemma round_double_ge (t K : Z) (x : Q) :
  (-1022 <= t <= 1023)%Z -> (2 ^ 52 < K < 2 ^ 53)%Z -> Z.even K = true ->
  js_ge (round_double x) (inject_Z K * pow2 (t - 52)) = true
  <-> inject_Z K * pow2 (t - 52) - pow2 (t - 53) <= x.
Proof.
  intros Ht HK Hev.
  pose proof (round_double_below t K x Ht HK Hev) as B.
  pose proof (round_double_sign x) as S.
  set (T := inject_Z K * pow2 (t - 52)) in *. set (h := pow2 (t - 53)) in *.
  assert (Hh : 0 < h) by apply pow2_pos.
  assert (HTpos : 0 < T - h).
  { assert (HU : 0 < pow2 (t - 52)) by apply pow2_pos.
    assert (HUh : pow2 (t - 52) == 2 * h) by apply pow2_half.
    assert (Hk1 : 1 <= inject_Z K).
    { change 1 with (inject_Z 1). rewrite <- Zle_Qle. lia. }
    unfold T. Lqa.nra. }
  assert (Hsgn : if Qlt_bool x 0 then x < 0 /\ Qabs x == - x else 0 <= x /\ Qabs x == x).
  { destruct (Qlt_bool x 0) eqn:E.
    - apply Qlt_bool_iff in E. split; [exact E|]. apply Qabs_neg. Lqa.lra.
    - assert (0 <= x).
      { destruct (Qlt_le_dec x 0) as [H|H]; [|exact H].
        apply Qlt_bool_iff in H. congruence. }
      split; [exact H|]. now apply Qabs_pos. }
  destruct (round_double x) as [|n|d]; [destruct S| |].
  - cbn [js_ge js_abs_lt] in *. subst n.
    assert (Hx : ~ Qabs x < T - h) by (intros H; apply B in H; discriminate H).
    destruct (Qlt_bool x 0); destruct Hsgn as [H1 H2]; cbn [negb]; rewrite H2 in Hx.
    + split; [discriminate|]. intros H. exfalso. Lqa.lra.
    + split; [|reflexivity]. intros _. Lqa.lra.
  - cbn [js_ge js_abs_lt] in *. rewrite Qlt_bool_iff in B. rewrite Qle_bool_iff.
    destruct (Qlt_bool x 0); destruct Hsgn as [H1 H2]; rewrite H2 in B.
    + split; intros H; exfalso; Lqa.lra.
    + rewrite (Qabs_pos d S) in B. split; intros H.
      * destruct (Qlt_le_dec x (T - h)) as [Hl|Hl]; [|exact Hl].
        apply B in Hl. exfalso. Lqa.lra.
      * destruct (Qlt_le_dec d T) as [Hl|Hl]; [|exact Hl].
        apply B in Hl. exfalso. Lqa.lra.
Qed.

Lemma js_ge_comp (n : JsNumber) (b b' : Q) : b == b' -> js_ge n b = js_ge n b'.
Proof.
  intros E. destruct n as [| |d]; cbn [js_ge]; try reflexivity.
  apply eq_true_iff_eq. rewrite !Qle_bool_iff. now rewrite E.
Qed.

(** [d >= 7] for the double [d] nearest to [x]. *)
Lemma round_double_ge_7 (x : Q) :
  js_ge (round_double x) (inject_Z CLEANUP_INTERVAL_DAYS) = true <-> 7 - pow2 (-51) <= x.
Proof.
  assert (E : inject_Z (7 * 2 ^ 50) * pow2 (2 - 52) == inject_Z CLEANUP_INTERVAL_DAYS)
    by reflexivity.
  destruct (round_double_ge 2 (7 * 2 ^ 50) x) as [H1 H2]; [lia|lia|reflexivity|].
  change (pow2 (2 - 53)) with (pow2 (-51)) in H1, H2.
  rewrite <- (js_ge_comp _ _ _ E).
  assert (E' : inject_Z (7 * 2 ^ 50) * pow2 (2 - 52) == 7) by reflexivity.
  split; intros H.
  - apply H1 in H. now rewrite E' in H.
  - apply H2. now rewrite E'.
Qed.

(** The test [daysSinceLast >= CLEANUP_INTERVAL_DAYS] is exact in whole
    seconds. *)
Lemma interval_finite (d : Z) :
  js_ge (round_double (inject_Z d / inject_Z 86400)) (inject_Z CLEANUP_INTERVAL_DAYS)
  = (604800 <=? d)%Z.
Proof.
  apply eq_true_iff_eq. rewrite round_double_ge_7, Z.leb_le.
  change (pow2 (-51)) with (1 # 2251799813685248).
  set (y := inject_Z d).
  split; intros H.
  - destruct (Z.le_gt_cases 604800 d) as [Hle|Hgt]; [exact Hle|]. exfalso.
    assert (Hy : y <= 604799).
    { unfold y. change 604799 with (inject_Z 604799). rewrite <- Zle_Qle. lia. }
    assert (Hq : y / inject_Z 86400 <= 604799 / inject_Z 86400).
    { apply Qmult_le_compat_r; [exact Hy|]. discriminate. }
    assert (Hc : 604799 / inject_Z 86400 < 7 - (1 # 2251799813685248)) by reflexivity.
    Lqa.lra.
  - assert (Hy : 604800 <= y).
    { unfold y. change 604800 with (inject_Z 604800). rewrite <- Zle_Qle. lia. }
    assert (Hq : 604800 / inject_Z 86400 <= y / inject_Z 86400).
    { apply Qmult_le_compat_r; [exact Hy|]. discriminate. }
    assert (Hc : 7 - (1 # 2251799813685248) <= 604800 / inject_Z 86400) by discriminate.
    Lqa.lra.
Qed.

Lemma interval_test (now lastTs : Z) :
  (Z.abs lastTs < 2 ^ 53)%Z -> (Z.abs (now - lastTs) < 2 ^ 53)%Z ->
  js_ge (js_div (js_sub (inject_Z now) (round_double (inject_Z lastTs))) (inject_Z 86400))
        (inject_Z CLEANUP_INTERVAL_DAYS)
  = (lastTs + 604800 <=? now)%Z.
Proof.
  intros H1 H2. rewrite (round_double_Z lastTs H1). cbn [js_sub].
  rewrite (round_double_comp (inject_Z now - inject_Z lastTs) (inject_Z (now - lastTs))).
  2:{ unfold Z.sub. rewrite inject_Z_plus, inject_Z_opp. reflexivity. }
  rewrite (round_double_Z _ H2). cbn [js_div]. rewrite interval_finite.
  apply eq_true_iff_eq. rewrite !Z.leb_le. lia.
Qed.

Local Close Scope Q_scope.

Local Open Scope Z_scope.

Lemma parseInt_uint (d : Decimal.uint) :
  d <> Decimal.Nil ->
  parseInt (NilEmpty.string_of_uint d) = round_double (inject_Z (Z.of_N (Pos.of_uint d)))
  /\ parseInt (String "-" (NilEmpty.string_of_uint d))
     = round_double (inject_Z (- Z.of_N (Pos.of_uint d))).
Proof.
  intros Hd. pose proof (nb_digits_pos d Hd) as Hn.
  destruct (string_of_uint_head d Hd) as [c [s [Es [Hws [Hm [Hp _]]]]]].
  assert (Hr : read_digits 0 0 (NilEmpty.string_of_uint d)
               = (Z.of_N (Pos.of_uint d), Decimal.nb_digits d, EmptyString)).
  { rewrite <- (append_empty_r (NilEmpty.string_of_uint d)) at 1.
    rewrite read_digits_uint by discriminate. reflexivity. }
  split; unfold parseInt.
  - assert (Et : trimStart (NilEmpty.string_of_uint d) = NilEmpty.string_of_uint d).
    { rewrite Es. cbn [trimStart]. now rewrite Hws. }
    rewrite Et. rewrite Es at 1. unfold read_sign. rewrite Hm, Hp. rewrite <- Es, Hr.
    destruct (Decimal.nb_digits d); [lia|reflexivity].
  - cbn [trimStart]. replace (is_ws "-") with false by (vm_compute; reflexivity).
    unfold read_sign. cbn [Ascii.eqb Bool.eqb]. rewrite Hr.
    destruct (Decimal.nb_digits d); [lia|reflexivity].
Qed.

(** [parseInt(String(z), 10)] is the double nearest to [z]. *)
Lemma parseInt_Z_to_string (z : Z) : parseInt (Z_to_string z) = round_double (inject_Z z).
Proof.
  unfold Z_to_string. destruct z as [|p|p]; [vm_compute; reflexivity| |].
  - cbn [Z.to_int NilZero.string_of_int].
    pose proof (Unsigned.to_uint_nonnil p) as Hn.
    replace (NilZero.string_of_uint (Pos.to_uint p))
      with (NilEmpty.string_of_uint (Pos.to_uint p))
      by (unfold NilZero.string_of_uint; destruct (Pos.to_uint p); congruence).
    rewrite (proj1 (parseInt_uint _ Hn)), Unsigned.of_to. reflexivity.
  - cbn [Z.to_int NilZero.string_of_int].
    pose proof (Unsigned.to_uint_nonnil p) as Hn.
    replace (NilZero.string_of_uint (Pos.to_uint p))
      with (NilEmpty.string_of_uint (Pos.to_uint p))
      by (unfold NilZero.string_of_uint; destruct (Pos.to_uint p); congruence).
    rewrite (proj2 (parseInt_uint _ Hn)), Unsigned.of_to. reflexivity.
Qed.

(** A text that starts with neither white space, a sign nor a digit is not
    a number. *)
Lemma parseInt_no_digit (c : ascii) (s : string) :
  is_ws c = false -> c <> "-"%char -> c <> "+"%char -> digit_of c = None ->
  parseInt (String c s) = JsNaN.
Proof.
  intros Hws Hm Hp Hd. unfold parseInt. cbn [trimStart]. rewrite Hws.
  unfold read_sign. apply Ascii.eqb_neq in Hm, Hp. rewrite Hm, Hp.
  cbn [read_digits]. rewrite Hd. reflexivity.
Qed.

Lemma Z_to_string_nonempty (z : Z) : is_empty (Z_to_string z) = false.
Proof.
  unfold Z_to_string. destruct z as [|p|p]; [reflexivity| |];
    cbn [Z.to_int NilZero.string_of_int]; [|reflexivity].
  unfold NilZero.string_of_uint.
  destruct (Pos.to_uint p); reflexivity.
Qed.

Lemma getMetadata_setMetadata (key value : string) (db : Db) :
  getMetadata key (snd (setMetadata key value db)) = (Ok (Some value), snd (setMetadata key value db)).
Proof.
  unfold getMetadata, setMetadata. cbn [snd metadata]. f_equal. f_equal.
  induction (metadata db) as [|kv l IH]; cbn [filter app find fst].
  - now rewrite String.eqb_refl.
  - destruct (String.eqb (fst kv) key) eqn:E; cbn [negb]; [exact IH|].
    cbn [app find]. rewrite E. exact IH.
Qed.

(** The answer on a stored, non-empty value. *)
Lemma shouldRunMaintenance_stored (now : Z) (s : string) (db : Db) :
  getMetadata "last_maintenance" db = (Ok (Some s), db) ->
  is_empty s = false ->
  shouldRunMaintenance true now db
  = (Ok (js_ge (js_div (js_sub (inject_Z now) (parseInt s)) (inject_Z 86400))
               (inject_Z CLEANUP_INTERVAL_DAYS)), db).
Proof.
  intros Hg He. unfold shouldRunMaintenance. cbn [negb].
  unfold try_catch, bind. rewrite Hg, He. reflexivity.
Qed.

(** X17. [shouldRunMaintenance] never throws or writes.  It answers false
    when the database is not available, and true when no, or an empty,
    [last_maintenance] value is stored.  On a stored text that is not a
    number it answers false at every time; on one that parses to an
    infinity it answers true exactly for the negative one; on one that
    parses to an integer time stamp, the difference to now being below
    2^53 in magnitude, it answers true exactly from seven days (604800
    seconds) after the stamp on.  [parseInt] gives, on the decimal numeral
    of an integer, the double nearest to it, which below 2^53 in magnitude
    is the integer itself, and [NaN] on a text that starts with neither
    white space, a sign nor a digit. *)
Theorem shouldRunMaintenance_spec (available : bool) (now : Z) (db : Db) :
  let stored := option_map snd (find (fun kv => String.eqb (fst kv) "last_maintenance")
                                     (metadata db)) in
  shouldRunMaintenance false now db = (Ok false, db)
  /\ (exists b, shouldRunMaintenance available now db = (Ok b, db))
  /\ (stored = None \/ stored = Some EmptyString ->
      shouldRunMaintenance true now db = (Ok true, db))
  /\ (forall s, stored = Some s -> is_empty s = false ->
        (parseInt s = JsNaN -> shouldRunMaintenance true now db = (Ok false, db))
        /\ (forall negative, parseInt s = JsInf negative ->
              shouldRunMaintenance true now db = (Ok negative, db))
        /\ (forall lastTs, parseInt s = JsFinite (inject_Z lastTs) ->
              Z.abs (now - lastTs) < 2 ^ 53 ->
              shouldRunMaintenance true now db = (Ok (lastTs + 604800 <=? now), db)))
  /\ (forall z, parseInt (Z_to_string z) = round_double (inject_Z z))
  /\ (forall z, Z.abs z < 2 ^ 53 -> round_double (inject_Z z) = JsFinite (inject_Z z))
  /\ (forall c s, is_ws c = false -> c <> "-"%char -> c <> "+"%char -> digit_of c = None ->
        parseInt (String c s) = JsNaN).
Proof.
  intros stored.
  assert (Hg : getMetadata "last_maintenance" db = (Ok stored, db)) by reflexivity.
  split; [reflexivity|]. split.
  { destruct available; [|eexists; reflexivity].
    unfold shouldRunMaintenance. cbn [negb]. unfold try_catch, bind. rewrite Hg.
    destruct stored as [s|]; [|eexists; reflexivity].
    destruct (is_empty s); eexists; reflexivity. }
  split.
  { intros Hs. unfold shouldRunMaintenance. cbn [negb]. unfold try_catch, bind.
    rewrite Hg. destruct Hs as [-> | ->]; reflexivity. }
  split.
  { intros s Hs He. rewrite Hs in Hg.
    rewrite (shouldRunMaintenance_stored now s db Hg He).
    split; [|split].
    - intros ->. reflexivity.
    - intros negative ->. cbn [js_sub js_div js_ge]. now rewrite Bool.negb_involutive.
    - intros lastTs -> Hd. cbn [js_sub].
      rewrite (round_double_comp (inject_Z now - inject_Z lastTs) (inject_Z (now - lastTs))).
      2:{ unfold Z.sub. rewrite inject_Z_plus, inject_Z_opp. reflexivity. }
      rewrite (round_double_Z _ Hd). cbn [js_div]. rewrite interval_finite.
      do 2 f_equal. apply eq_true_iff_eq. rewrite !Z.leb_le. lia. }
  split; [exact parseInt_Z_to_string|]. split; [exact round_double_Z|].
  exact parseInt_no_digit.
Qed.

(** Stored [1000]: due from 605800 on.  A stored value with trailing text
    counts up to the text; one without a leading number never lets the
    maintenance run. *)
Example shouldRunMaintenance_scenario :
  let db v := snd (setMetadata "last_maintenance" v db_ab) in
  shouldRunMaintenance true 605799 (db "1000") = (Ok false, db "1000")
  /\ shouldRunMaintenance true 605800 (db "1000") = (Ok true, db "1000")
  /\ shouldRunMaintenance true 605800 (db " +1000s") = (Ok true, db " +1000s")
  /\ shouldRunMaintenance true 2000000000 (db "soon") = (Ok false, db "soon")
  /\ shouldRunMaintenance true 0 (db "") = (Ok true, db "")
  /\ shouldRunMaintenance true 0 db_ab = (Ok true, db_ab)
  /\ shouldRunMaintenance false 0 db_ab = (Ok false, db_ab).
Proof. repeat split; vm_compute; reflexivity. Qed.

(** X18. After [runMaintenance] at time [t0] the next maintenance is due
    exactly seven days later, for clocks that do not run backwards and
    stay below 2^53 seconds: [shouldRunMaintenance] answers true at [now]
    if and only if [now - t0] is at least 604800 seconds, and until then
    [maybeRunMaintenance] does nothing at all.  When it is due,
    [maybeRunMaintenance] runs the maintenance and moves the time stamp to
    its own clock reading [now'], so for the seven days after [now'] a
    further call does nothing.  Neither function throws. *)
Theorem maintenance_every_seven_days (maxMemories t0 size now now' : Z) (db : Db) :
  0 <= t0 <= now -> now <= now' < 2 ^ 53 ->
  exists r db1,
    runMaintenance maxMemories t0 size db = (Ok r, db1)
    /\ getMetadata "last_maintenance" db1 = (Ok (Some (Z_to_string t0)), db1)
    /\ shouldRunMaintenance true now db1 = (Ok (t0 + 604800 <=? now), db1)
    /\ (now < t0 + 604800 ->
        maybeRunMaintenance true maxMemories now now' size db1 = (Ok tt, db1))
    /\ (t0 + 604800 <= now ->
        exists db2,
          maybeRunMaintenance true maxMemories now now' size db1 = (Ok tt, db2)
          /\ getMetadata "last_maintenance" db2 = (Ok (Some (Z_to_string now')), db2)
          /\ forall later later', now' <= later < now' + 604800 ->
               maybeRunMaintenance true maxMemories later later' size db2 = (Ok tt, db2)).
Proof.
  intros Ht Hn.
  assert (Hrun : forall t d, exists r d1,
            runMaintenance maxMemories t size d = (Ok r, d1)
            /\ getMetadata "last_maintenance" d1 = (Ok (Some (Z_to_string t)), d1)).
  { intros t d. unfold runMaintenance, bind, try_catch, optimizeFts, ret.
    destruct (enforceMaxMemories maxMemories d) as [[n|msg] d'] eqn:En.
    - eexists. eexists. split; [reflexivity|].
      apply (getMetadata_setMetadata "last_maintenance" (Z_to_string t) d').
    - eexists. eexists. split; [reflexivity|].
      apply (getMetadata_setMetadata "last_maintenance" (Z_to_string t) d'). }
  assert (Hshould : forall t d nw, Z.abs t < 2 ^ 53 -> Z.abs (nw - t) < 2 ^ 53 ->
            getMetadata "last_maintenance" d = (Ok (Some (Z_to_string t)), d) ->
            shouldRunMaintenance true nw d = (Ok (t + 604800 <=? nw), d)).
  { intros t d nw H1 H2 Hg.
    rewrite (shouldRunMaintenance_stored nw (Z_to_string t) d Hg (Z_to_string_nonempty t)).
    rewrite parseInt_Z_to_string. now rewrite interval_test. }
  assert (Hidle : forall t d nw nw', Z.abs t < 2 ^ 53 -> Z.abs (nw - t) < 2 ^ 53 ->
            getMetadata "last_maintenance" d = (Ok (Some (Z_to_string t)), d) ->
            nw < t + 604800 ->
            maybeRunMaintenance true maxMemories nw nw' size d = (Ok tt, d)).
  { intros t d nw nw' H1 H2 Hg Hlt. unfold maybeRunMaintenance, bind.
    rewrite (Hshould t d nw H1 H2 Hg).
    replace (t + 604800 <=? nw) with false by (symmetry; apply Z.leb_gt; lia).
    reflexivity. }
  assert (B : 2 ^ 53 = 9007199254740992) by reflexivity.
  destruct (Hrun t0 db) as [r [db1 [E1 G1]]].
  exists r, db1. split; [exact E1|]. split; [exact G1|].
  split; [apply Hshould; [lia|lia|exact G1]|].
  split; [apply Hidle; [lia|lia|exact G1]|].
  intros Hdue. destruct (Hrun now' db1) as [r2 [db2 [E2 G2]]].
  exists db2. split; [|split; [exact G2|]].
  - unfold maybeRunMaintenance, bind. rewrite (Hshould t0 db1 now); [|lia|lia|exact G1].
    replace (t0 + 604800 <=? now) with true by (symmetry; apply Z.leb_le; lia).
    unfold try_catch, bind. rewrite E2. reflexivity.
  - intros later later' Hl. apply (Hidle now'); [lia|lia|exact G2|lia].
Qed.

(** On [db_ab], maintained at time 1000: not due six days later, due at
    605800, when the stamp moves to 605801. *)
Lemma maintenance_every_seven_days_witness :
  exists r db1 db2,
    runMaintenance 100 1000 4096 db_ab = (Ok r, db1)
    /\ shouldRunMaintenance true 519400 db1 = (Ok false, db1)
    /\ shouldRunMaintenance true 605800 db1 = (Ok true, db1)
    /\ maybeRunMaintenance true 100 605800 605801 4096 db1 = (Ok tt, db2)
    /\ getMetadata "last_maintenance" db2 = (Ok (Some "605801"%string), db2)
    /\ maybeRunMaintenance true 100 605802 605803 4096 db2 = (Ok tt, db2).
Proof.
  destruct (maintenance_every_seven_days 100 1000 4096 605800 605801 db_ab)
    as [r [db1 [E1 [_ [S1 [_ D1]]]]]]; [lia|lia|].
  destruct (D1 ltac:(lia)) as [db2 [M1 [G2 I2]]].
  exists r, db1, db2. split; [exact E1|].
  split.
  { assert (Edb : db1 = snd (runMaintenance 100 1000 4096 db_ab)) by now rewrite E1.
    rewrite Edb. vm_compute. reflexivity. }
  split; [exact S1|]. split; [exact M1|]. split; [exact G2|].
  apply I2. lia.
Defined.

Local Close Scope Z_scope.
